(** * The wahoo message archive: query, context and identity engine

    A shallow embedding of [db/store.go] and [db/queries.go]: the two SQLite
    tables become lists of rows in storage (rowid) order, every SQL statement
    becomes the list program the engine runs for it, the sender cache is a
    [gmap string string] and the seen-set of [ListMessages] a [gset string].
    A [TIMESTAMP] column holds the text the driver writes for a [time.Time];
    the engine compares and orders these texts byte by byte. *)

From Stdlib Require Import ZArith Ascii String DecimalString.
From stdpp Require Import gmap strings list sorting.

Local Open Scope string_scope.
Local Open Scope list_scope.
Local Open Scope Z_scope.

(** ** Go primitives *)

(** Go's [int] on the 64-bit targets the program is built for. *)
Definition wrap64 (z : Z) : Z := (z + 2 ^ 63) mod 2 ^ 64 - 2 ^ 63.

(** [strings.Index(s, sep)] for a one-byte separator; [-1] when absent. *)
Fixpoint strings_Index (s : string) (sep : ascii) : Z :=
  match s with
  | EmptyString => -1
  | String c s' =>
      if Ascii.eqb c sep then 0
      else let i := strings_Index s' sep in
           if i <? 0 then -1 else i + 1
  end.

(** The slice [s[:n]]. *)
Definition slice_to (s : string) (n : Z) : string :=
  String.substring 0 (Z.to_nat n) s.

(** The slice [s[n:]]. *)
Definition slice_from (s : string) (n : Z) : string :=
  String.substring (Z.to_nat n) (String.length s - Z.to_nat n) s.

Definition len (s : string) : Z := Z.of_nat (String.length s).

(** [strings.HasSuffix(s, suffix)]:
    [len(s) >= len(suffix) && s[len(s)-len(suffix):] == suffix]. *)
Definition strings_HasSuffix (s suffix : string) : bool :=
  (len suffix <=? len s) && String.eqb (slice_from s (len s - len suffix)) suffix.

(** ** Time values

    A [time.Time] as far as the archive sees it: the calendar date and the
    wall clock reading in the value's own zone, as [Date] and [Clock] report
    them, and the zone offset in whole minutes east of UTC (the layout the
    driver writes prints no more of the offset). *)

Record Time := {
  Year : Z;
  Month : Z;
  Day : Z;
  Hour : Z;
  Minute : Z;
  Second : Z;
  Nanosecond : Z;
  ZoneMinutes : Z
}.

#[global] Instance Time_eq_dec : EqDecision Time.
Proof. solve_decision. Defined.

(** ['0' + byte(u)] *)
Definition utod (u : Z) : ascii := ascii_of_N (48 + Z.to_N u).

Fixpoint zeros (n : nat) : string :=
  match n with
  | O => ""
  | S n => String "0" (zeros n)
  end.

(** The decimal digits of a natural number, ["0"] for zero. *)
Definition decimal (u : Z) : string := NilZero.string_of_uint (N.to_uint (Z.to_N u)).

(** [appendInt(b, x, width)] of package [time]: the sign, then the decimal
    digits padded with zeros to [width]. *)
Definition appendInt (x width : Z) : string :=
  let u := Z.abs x in
  (if x <? 0 then "-" else "")
  +:+ (if (width =? 2) && (u <? 100) then
         String (utod (u / 10)) (String (utod (u mod 10)) "")
       else if (width =? 4) && (u <? 10000) then
         String (utod (u / 1000)) (String (utod (u / 100 mod 10))
           (String (utod (u / 10 mod 10)) (String (utod (u mod 10)) "")))
       else
         zeros (Z.to_nat width - String.length (decimal u)) +:+ decimal u).

(** A string without its trailing ['0'] bytes. *)
Fixpoint trim_zeros (s : string) : string :=
  match s with
  | EmptyString => EmptyString
  | String c s' =>
      let t := trim_zeros s' in
      if String.eqb t "" && Ascii.eqb c "0" then EmptyString else String c t
  end.

(** The layout element [.999999999]: nothing for a whole second, otherwise
    the nine digits without trailing zeros. *)
Definition appendNano (nanosec : Z) : string :=
  if nanosec =? 0 then "" else "." +:+ trim_zeros (appendInt nanosec 9).

(** The layout element [-07:00]. *)
Definition appendZone (zone : Z) : string :=
  (if zone <? 0 then "-" else "+")
  +:+ appendInt (Z.abs zone / 60) 2 +:+ ":" +:+ appendInt (Z.abs zone mod 60) 2.

Definition appendDate (t : Time) : string :=
  appendInt (Year t) 4 +:+ "-" +:+ appendInt (Month t) 2 +:+ "-" +:+ appendInt (Day t) 2.

Definition appendClock (t : Time) : string :=
  appendInt (Hour t) 2 +:+ ":" +:+ appendInt (Minute t) 2 +:+ ":"
  +:+ appendInt (Second t) 2 +:+ appendNano (Nanosecond t).

(** [t.Format("2006-01-02 15:04:05.999999999-07:00")]: the text the driver
    binds for a [time.Time] argument, and so the text a [TIMESTAMP] column
    holds. *)
Definition SQLiteTimestamp (t : Time) : string :=
  appendDate t +:+ " " +:+ appendClock t +:+ appendZone (ZoneMinutes t).

(** [t.Format(time.RFC3339Nano)], layout
    ["2006-01-02T15:04:05.999999999Z07:00"], for a time read back from a
    column, whose offset is a whole number of minutes. *)
Definition RFC3339Nano (t : Time) : string :=
  appendDate t +:+ "T" +:+ appendClock t
  +:+ (if ZoneMinutes t =? 0 then "Z" else appendZone (ZoneMinutes t)).

Definition zero_time : Time :=
  {| Year := 1; Month := 1; Day := 1; Hour := 0; Minute := 0; Second := 0;
     Nanosecond := 0; ZoneMinutes := 0 |}.

(** What the driver hands out for a [TIMESTAMP] column: the stored text
    parsed with the layout it was written in.  The layout reads a year of
    four digits; a text that does not parse gives the zero time. *)
Definition column_time (t : Time) : Time :=
  if (0 <=? Year t) && (Year t <=? 9999) then t else zero_time.

(** [Scan] of a [TIMESTAMP] column into a Go string. *)
Definition scan_timestamp (t : Time) : string := RFC3339Nano (column_time t).

(** ** Storage

    [messages.db] holds the two tables of [NewStore]; a table is the list of
    its rows in rowid order.  Nullable columns that the program reads through
    [sql.NullString] are options.  A [TIMESTAMP] field holds the [time.Time]
    that was bound; the column holds its text, [SQLiteTimestamp]. *)

Record ChatRow := {
  chats_jid : string;
  chats_name : option string;
  chats_last_message_time : option Time
}.

Record MessageRow := {
  messages_id : string;
  messages_chat_jid : string;
  messages_sender : string;
  messages_content : option string;
  messages_timestamp : Time;
  messages_is_from_me : bool;
  messages_media_type : option string;
  messages_filename : string;
  messages_url : string;
  messages_media_key : list Byte.byte;
  messages_file_sha256 : list Byte.byte;
  messages_file_enc_sha256 : list Byte.byte;
  messages_file_length : Z
}.

(** [whatsapp.db], opened read-only.  A table that cannot be queried (it is
    created by the protocol client, possibly later) is [None]. *)
Record ContactRow := {
  their_jid : string;
  full_name : option string;
  push_name : option string
}.

Record WaStore := {
  whatsmeow_contacts : option (list ContactRow);
  whatsmeow_lid_map : option (list (string * string))
}.

Record Store := {
  chats : list ChatRow;
  messages : list MessageRow;
  WaDB : option WaStore
}.

#[global] Instance byte_eq_dec : EqDecision Byte.byte := Byte.byte_eq_dec.
#[global] Instance ChatRow_eq_dec : EqDecision ChatRow.
Proof. solve_decision. Defined.
#[global] Instance MessageRow_eq_dec : EqDecision MessageRow.
Proof. solve_decision. Defined.

Inductive error := StorageFailure (msg : string).

Inductive result (A : Type) :=
  | Ok (a : A)
  | Err (e : error).
Arguments Ok {A} a.
Arguments Err {A} e.

(** ** Ingestion path *)

Definition with_chats (s : Store) (cs : list ChatRow) : Store :=
  {| chats := cs; messages := messages s; WaDB := WaDB s |}.

Definition with_messages (s : Store) (ms : list MessageRow) : Store :=
  {| chats := chats s; messages := ms; WaDB := WaDB s |}.

(** [INSERT OR REPLACE INTO chats]: the row holding the primary key, if any,
    is deleted and the new row gets a fresh rowid. *)
Definition StoreChat (s : Store) (jid name : string) (lastMessageTime : Time)
  : Store * option error :=
  let row := {| chats_jid := jid; chats_name := Some name;
                chats_last_message_time := Some lastMessageTime |} in
  (with_chats s (filter (λ c, chats_jid c ≠ jid) (chats s) ++ [row]), None).

(** The [FOREIGN KEY (chat_jid) REFERENCES chats(jid)] check of the insert
    ([_foreign_keys=on]). *)
Definition chat_exists (s : Store) (jid : string) : bool :=
  bool_decide (jid ∈ chats_jid <$> chats s).

(** [fileLength] is a [uint64]; [database/sql] converts the arguments before
    the statement runs and refuses a [uint64] with the high bit set. *)
Definition StoreMessage (s : Store) (id chatJID sender content : string)
    (timestamp : Time) (isFromMe : bool) (mediaType filename url : string)
    (mediaKey fileSHA256 fileEncSHA256 : list Byte.byte) (fileLength : Z)
  : Store * option error :=
  if String.eqb content "" && String.eqb mediaType "" then (s, None)
  else if 2 ^ 63 <=? fileLength then
    (s, Some (StorageFailure
                "sql: converting argument $13 type: uint64 values with high bit set are not supported"))
  else
    let row := {| messages_id := id; messages_chat_jid := chatJID;
                  messages_sender := sender; messages_content := Some content;
                  messages_timestamp := timestamp;
                  messages_is_from_me := isFromMe;
                  messages_media_type := Some mediaType;
                  messages_filename := filename; messages_url := url;
                  messages_media_key := mediaKey;
                  messages_file_sha256 := fileSHA256;
                  messages_file_enc_sha256 := fileEncSHA256;
                  messages_file_length := fileLength |} in
    if chat_exists s chatJID then
      (with_messages s
         (filter (λ m, (messages_id m, messages_chat_jid m) ≠ (id, chatJID))
                 (messages s) ++ [row]), None)
    else (s, Some (StorageFailure "FOREIGN KEY constraint failed")).

(** ** Result shapes and scan targets *)

Record MessageDict := {
  ID : string;
  Timestamp : string;
  Sender : string;
  SenderJID : string;
  Content : string;
  IsFromMe : bool;
  ChatJID : string;
  ChatName : option string;
  MediaType : option string
}.

Record ChatDict := {
  Chat_JID : string;
  Chat_Name : option string;
  IsGroup : bool;
  LastMessageTime : option string;
  LastMessage : option string;
  LastSender : option string;
  LastIsFromMe : option bool
}.

Record ContactDict := {
  PhoneNumber : string;
  Contact_Name : option string;
  Contact_JID : string
}.

Record MessageContextDict := {
  Message : MessageDict;
  Before : list MessageDict;
  After : list MessageDict
}.

Record rawMessage := {
  rm_timestamp : string;
  rm_sender : string;
  rm_chatName : option string;
  rm_content : option string;
  rm_isFromMe : bool;
  rm_chatJID : string;
  rm_id : string;
  rm_mediaType : option string
}.

Record rawChat := {
  rc_jid : string;
  rc_name : option string;
  rc_lastTime : option string;
  rc_lastMsg : option string;
  rc_lastSender : option string;
  rc_lastIsFromMe : option bool
}.

#[global] Instance MessageDict_eq_dec : EqDecision MessageDict.
Proof. solve_decision. Defined.
#[global] Instance rawMessage_eq_dec : EqDecision rawMessage.
Proof. solve_decision. Defined.
#[global] Instance rawChat_eq_dec : EqDecision rawChat.
Proof. solve_decision. Defined.

(** [sql.NullString.String]: the empty string for NULL. *)
Definition NullString_String (o : option string) : string := default "" o.

(** ** Identity cache *)

(** A read [cache[k]] of a Go map: the zero value when the key is absent. *)
Definition map_get (cache : gmap string string) (k : string) : string :=
  default "" (cache !! k).

(** [cache[jid] = name] followed by the guarded [cache[jid[:idx]] = name]. *)
Definition index_name (cache : gmap string string) (jid name : string)
  : gmap string string :=
  let cache := <[jid := name]> cache in
  let idx := strings_Index jid "@" in
  if 0 <? idx then <[slice_to jid idx := name]> cache else cache.

(** Loop 1: [SELECT jid, name FROM chats WHERE name IS NOT NULL AND name != '']. *)
Definition chat_names (s : Store) : list (string * string) :=
  omap (λ c, match chats_name c with
             | Some n => if String.eqb n "" then None else Some (chats_jid c, n)
             | None => None
             end) (chats s).

Definition cache_chats (cache : gmap string string) (rows : list (string * string))
  : gmap string string :=
  foldl (λ cache row, index_name cache row.1 row.2) cache rows.

(** Loop 2 over [whatsmeow_contacts]. *)
Definition contact_step (cache : gmap string string) (row : ContactRow)
  : gmap string string :=
  let name := NullString_String (full_name row) in
  let name := if String.eqb name "" then NullString_String (push_name row) else name in
  if negb (String.eqb name "") then index_name cache (their_jid row) name
  else cache.

Definition cache_contacts (cache : gmap string string) (rows : list ContactRow)
  : gmap string string :=
  foldl contact_step cache rows.

(** Loop 3 over [whatsmeow_lid_map]. *)
Definition lid_step (cache : gmap string string) (row : string * string)
  : gmap string string :=
  let '(lid, pn) := row in
  let pnJID := pn +:+ "@s.whatsapp.net" in
  let name := map_get cache pnJID in
  let name := if String.eqb name "" then map_get cache pn else name in
  if negb (String.eqb name "") then <[lid := name]> (<[lid +:+ "@lid" := name]> cache)
  else cache.

Definition cache_lids (cache : gmap string string) (rows : list (string * string))
  : gmap string string :=
  foldl lid_step cache rows.

Definition BuildSenderCache (s : Store) : gmap string string :=
  let cache := cache_chats ∅ (chat_names s) in
  match WaDB s with
  | None => cache
  | Some wa =>
      match whatsmeow_contacts wa with
      | None => cache
      | Some rows2 =>
          let cache := cache_contacts cache rows2 in
          match whatsmeow_lid_map wa with
          | None => cache
          | Some rows3 => cache_lids cache rows3
          end
      end
  end.

Definition resolveSender (senderJID : string) (cache : gmap string string) : string :=
  match cache !! senderJID with
  | Some name => name
  | None =>
      let idx := strings_Index senderJID "@" in
      if 0 <? idx then
        match cache !! slice_to senderJID idx with
        | Some name => name
        | None => senderJID
        end
      else senderJID
  end.

Definition resolveMessageSender (senderJID : string) (isFromMe : bool)
    (cache : gmap string string) : string :=
  if isFromMe then "Me" else resolveSender senderJID cache.

Definition rawToDict (r : rawMessage) (cache : gmap string string) : MessageDict :=
  {| ID := rm_id r;
     Timestamp := rm_timestamp r;
     Sender := resolveMessageSender (rm_sender r) (rm_isFromMe r) cache;
     SenderJID := rm_sender r;
     Content := NullString_String (rm_content r);
     IsFromMe := rm_isFromMe r;
     ChatJID := rm_chatJID r;
     ChatName := match rm_chatName r with
                 | Some n => if String.eqb n "" then None else Some n
                 | None => None
                 end;
     MediaType := match rm_mediaType r with
                  | Some t => if String.eqb t "" then None else Some t
                  | None => None
                  end |}.

Definition toDict (r : rawChat) (cache : gmap string string) : ChatDict :=
  {| Chat_JID := rc_jid r;
     Chat_Name := rc_name r;
     IsGroup := strings_HasSuffix (rc_jid r) "@g.us";
     LastMessageTime := rc_lastTime r;
     LastMessage := rc_lastMsg r;
     LastSender :=
       match rc_lastSender r with
       | Some sender =>
           Some (resolveMessageSender sender
                   (match rc_lastIsFromMe r with Some b => b | None => false end)
                   cache)
       | None => None
       end;
     LastIsFromMe := rc_lastIsFromMe r |}.

(** ** The storage engine's operators *)

(** ASCII case folding, as the engine's [LOWER] and [LIKE] do it. *)
Definition ascii_tolower (c : ascii) : ascii :=
  let n := N_of_ascii c in
  if ((65 <=? n) && (n <=? 90))%N then ascii_of_N (n + 32) else c.

Definition lower_bytes (s : list ascii) : list ascii := ascii_tolower <$> s.

Definition LOWER (s : string) : string :=
  string_of_list_ascii (lower_bytes (list_ascii_of_string s)).

(** Skipping one UTF-8 character: a lead byte [>= 0xC0] takes the
    continuation bytes [0x80..0xBF] that follow it. *)
Fixpoint utf8_continuation (s : list ascii) : list ascii :=
  match s with
  | c :: s' =>
      if ((128 <=? N_of_ascii c) && (N_of_ascii c <? 192))%N
      then utf8_continuation s' else s
  | [] => []
  end.

Definition utf8_read (s : list ascii) : option (list ascii) :=
  match s with
  | [] => None
  | c :: s' => Some (if (192 <=? N_of_ascii c)%N then utf8_continuation s' else s')
  end.

(** The [LIKE] matcher without an escape character: [%] matches any run of
    bytes, [_] one character, any other byte itself up to ASCII case. *)
Fixpoint like_bytes (p s : list ascii) {struct p} : bool :=
  match p with
  | [] => match s with [] => true | _ => false end
  | c :: p' =>
      if Ascii.eqb c "%" then
        (fix any (s : list ascii) : bool :=
           like_bytes p' s || match s with [] => false | _ :: s' => any s' end) s
      else if Ascii.eqb c "_" then
        match utf8_read s with
        | Some s' => like_bytes p' s'
        | None => false
        end
      else
        match s with
        | d :: s' => Ascii.eqb (ascii_tolower c) (ascii_tolower d) && like_bytes p' s'
        | [] => false
        end
  end.

(** [x LIKE pattern]; NULL operands give NULL, which a WHERE clause rejects. *)
Definition LIKE (x : option string) (pattern : string) : bool :=
  match x with
  | Some v => like_bytes (list_ascii_of_string pattern) (list_ascii_of_string v)
  | None => false
  end.

(** Stable insertion sort: [ORDER BY], ties left in scan order. *)
Section order_by.
Context {A : Type} (le : A → A → bool).

Fixpoint insert_row (x : A) (l : list A) : list A :=
  match l with
  | [] => [x]
  | y :: l' => if le x y then x :: l else y :: insert_row x l'
  end.

Definition order_by (l : list A) : list A := foldr insert_row [] l.
End order_by.

(** [LIMIT lim OFFSET off]: a negative limit is no limit, a negative offset
    is zero. *)
Definition limit_offset {A} (lim off : Z) (l : list A) : list A :=
  let l := drop (Z.to_nat off) l in
  if lim <? 0 then l else take (Z.to_nat lim) l.

(** [QueryRow]: the first row, if any. *)
Definition QueryRow {A} (rows : list A) : option A := head rows.

(** NULL sorts before every value. *)
Definition null_le {A} (le : A → A → bool) (x y : option A) : bool :=
  match x, y with
  | None, _ => true
  | Some _, None => false
  | Some a, Some b => le a b
  end.

(** *** Comparing a [TIMESTAMP] column with a text argument

    The column has NUMERIC affinity, so the engine first tries to read the
    argument as a number: optional blanks, a sign, digits with an optional
    fraction, an optional exponent, optional blanks, and at least one digit
    before the exponent.  A number sorts before every text; two texts are
    compared byte by byte. *)

Definition sqlite_isspace (c : ascii) : bool :=
  let n := N_of_ascii c in ((9 <=? n) && (n <=? 13) || (n =? 32))%N.

Definition sqlite_isdigit (c : ascii) : bool :=
  let n := N_of_ascii c in ((48 <=? n) && (n <=? 57))%N.

Fixpoint skip_while (p : ascii → bool) (z : list ascii) : list ascii :=
  match z with
  | c :: z' => if p c then skip_while p z' else z
  | [] => []
  end.

Definition skip_sign (z : list ascii) : list ascii :=
  match z with
  | c :: z' => if Ascii.eqb c "-" || Ascii.eqb c "+" then z' else z
  | [] => []
  end.

Definition is_nil {A} (l : list A) : bool :=
  match l with
  | [] => true
  | _ => false
  end.

(** The text is a well-formed integer or real literal. *)
Definition sqlite_numeric_bytes (z : list ascii) : bool :=
  let z := skip_while sqlite_isspace z in
  if is_nil z then false
  else
    let z := skip_sign z in
    let z1 := skip_while sqlite_isdigit z in
    let nInt := (length z - length z1)%nat in
    if is_nil z1 then (0 <? nInt)%nat
    else
      let z2 := match z1 with
                | c :: z' => if Ascii.eqb c "." then skip_while sqlite_isdigit z' else z1
                | [] => []
                end in
      let nDigit := (match z1 with
                     | c :: z' => if Ascii.eqb c "." then nInt + (length z' - length z2)
                                  else nInt
                     | [] => nInt
                     end)%nat in
      if is_nil z2 then (0 <? nDigit)%nat
      else
        match z2 with
        | c :: z' =>
            if Ascii.eqb c "e" || Ascii.eqb c "E" then
              if is_nil z' then false
              else
                let z3 := skip_sign z' in
                let z4 := skip_while sqlite_isdigit z3 in
                is_nil (skip_while sqlite_isspace z4)
                && (0 <? nDigit)%nat && (0 <? length z3 - length z4)%nat
            else is_nil (skip_while sqlite_isspace z2) && (0 <? nDigit)%nat
        | [] => false
        end.

Definition sqlite_numeric (arg : string) : bool :=
  sqlite_numeric_bytes (list_ascii_of_string arg).

(** [column < ?] *)
Definition timestamp_lt (t : Time) (arg : string) : bool :=
  if sqlite_numeric arg then false else String.ltb (SQLiteTimestamp t) arg.

(** [column > ?] *)
Definition timestamp_gt (t : Time) (arg : string) : bool :=
  if sqlite_numeric arg then true else String.ltb arg (SQLiteTimestamp t).

(** [FROM messages JOIN chats ON messages.chat_jid = chats.jid] *)
Definition messages_join_chats (s : Store) : list (MessageRow * ChatRow) :=
  m ← messages s;
  c ← filter (λ c, chats_jid c = messages_chat_jid m) (chats s);
  [(m, c)].

(** The select list shared by the message queries, scanned into [rawMessage]. *)
Definition scan_message (r : MessageRow * ChatRow) : rawMessage :=
  {| rm_timestamp := scan_timestamp (messages_timestamp r.1);
     rm_sender := messages_sender r.1;
     rm_chatName := chats_name r.2;
     rm_content := messages_content r.1;
     rm_isFromMe := messages_is_from_me r.1;
     rm_chatJID := chats_jid r.2;
     rm_id := messages_id r.1;
     rm_mediaType := messages_media_type r.1 |}.

(** [ORDER BY messages.timestamp DESC] and [ASC]: the stored texts, byte by
    byte. *)
Definition timestamp_desc (x y : MessageRow * ChatRow) : bool :=
  String.leb (SQLiteTimestamp (messages_timestamp y.1))
             (SQLiteTimestamp (messages_timestamp x.1)).

Definition timestamp_asc (x y : MessageRow * ChatRow) : bool :=
  String.leb (SQLiteTimestamp (messages_timestamp x.1))
             (SQLiteTimestamp (messages_timestamp y.1)).

(** ** Context assembler *)

(** The order of the primary-key index [(id, chat_jid)] among rows of one
    id. *)
Definition chat_jid_asc (x y : MessageRow * ChatRow) : bool :=
  String.leb (messages_chat_jid x.1) (messages_chat_jid y.1).

(** [... WHERE messages.id = ?] through [QueryRow].  The engine finds the
    rows with the id through the primary-key index, in the order of their
    chat keys; the first one is the target, whatever its chat. *)
Definition find_target (s : Store) (messageID : string)
  : option (MessageRow * ChatRow) :=
  QueryRow (order_by chat_jid_asc
              (filter (λ r, messages_id r.1 = messageID) (messages_join_chats s))).

(** [WHERE messages.chat_jid = ? AND messages.timestamp < ?
     ORDER BY messages.timestamp DESC LIMIT ?]; [ts] is the target's
    timestamp as it was scanned into a Go string. *)
Definition rows_before (s : Store) (chatJID : string) (ts : string) (before : Z)
  : list (MessageRow * ChatRow) :=
  limit_offset before 0
    (order_by timestamp_desc
       (filter (λ r, messages_chat_jid r.1 = chatJID
                     ∧ timestamp_lt (messages_timestamp r.1) ts = true)
          (messages_join_chats s))).

(** [WHERE messages.chat_jid = ? AND messages.timestamp > ?
     ORDER BY messages.timestamp ASC LIMIT ?] *)
Definition rows_after (s : Store) (chatJID : string) (ts : string) (after : Z)
  : list (MessageRow * ChatRow) :=
  limit_offset after 0
    (order_by timestamp_asc
       (filter (λ r, messages_chat_jid r.1 = chatJID
                     ∧ timestamp_gt (messages_timestamp r.1) ts = true)
          (messages_join_chats s))).

(** [fmt.Errorf("message %s not found: %w", messageID, err)] with
    [sql.ErrNoRows]. *)
Definition not_found (messageID : string) : error :=
  StorageFailure ("message " +:+ messageID +:+ " not found: sql: no rows in result set").

Definition getMessageContextRaw (s : Store) (messageID : string) (before after : Z)
  : result (list rawMessage) :=
  match find_target s messageID with
  | None => Err (not_found messageID)
  | Some t =>
      let target := scan_message t in
      let chatJID := messages_chat_jid t.1 in
      let beforeMsgs := scan_message <$> rows_before s chatJID (rm_timestamp target) before in
      let result := reverse beforeMsgs in
      let result := result ++ [target] in
      let result := result ++ (scan_message <$> rows_after s chatJID (rm_timestamp target) after) in
      Ok result
  end.

Definition GetMessageContext (s : Store) (messageID : string) (before after : Z)
  : result MessageContextDict :=
  let before := if before =? 0 then 5 else before in
  let after := if after =? 0 then 5 else after in
  match find_target s messageID with
  | None => Err (not_found messageID)
  | Some t =>
      let target := scan_message t in
      let chatJID := messages_chat_jid t.1 in
      let cache := BuildSenderCache s in
      let beforeMsgs :=
        (λ r, rawToDict (scan_message r) cache)
          <$> rows_before s chatJID (rm_timestamp target) before in
      let afterMsgs :=
        (λ r, rawToDict (scan_message r) cache)
          <$> rows_after s chatJID (rm_timestamp target) after in
      Ok {| Message := rawToDict target cache;
            Before := reverse beforeMsgs;
            After := afterMsgs |}
  end.

(** ** ListMessages *)

Record ListMessagesOpts := {
  lm_After : option string;
  lm_Before : option string;
  lm_SenderPhoneNumber : option string;
  lm_ChatJID : option string;
  lm_Query : option string;
  lm_Limit : Z;
  lm_Page : Z;
  lm_IncludeContext : bool;
  lm_ContextBefore : Z;
  lm_ContextAfter : Z
}.

(** The conjunction of the WHERE clauses the options append. *)
Definition ListMessages_where (opts : ListMessagesOpts) (r : MessageRow * ChatRow) : bool :=
  match lm_After opts with
  | Some t => timestamp_gt (messages_timestamp r.1) t | None => true end
  && match lm_Before opts with
     | Some t => timestamp_lt (messages_timestamp r.1) t | None => true end
  && match lm_SenderPhoneNumber opts with
     | Some p => String.eqb (messages_sender r.1) p | None => true end
  && match lm_ChatJID opts with
     | Some j => String.eqb (messages_chat_jid r.1) j | None => true end
  && match lm_Query opts with
     | Some query =>
         let q := "%" +:+ query +:+ "%" in
         LIKE (LOWER <$> messages_content r.1) (LOWER q)
         || LIKE (LOWER <$> messages_media_type r.1) (LOWER q)
     | None => true
     end.

(** The rows of the main query, in result order. *)
Definition ListMessages_rows (s : Store) (opts : ListMessagesOpts) (Limit : Z)
  : list rawMessage :=
  let offset := wrap64 (lm_Page opts * Limit) in
  scan_message <$>
    limit_offset Limit offset
      (order_by timestamp_desc
         (filter (λ r, ListMessages_where opts r) (messages_join_chats s))).

(** The inner loop over one context window, with the seen-set threaded. *)
Definition emit_context (cache : gmap string string)
    (st : list MessageDict * gset string) (ctx : list rawMessage)
  : list MessageDict * gset string :=
  foldl (λ '(result, seen) m,
           if bool_decide (rm_id m ∈ seen) then (result, seen)
           else (result ++ [rawToDict m cache], {[rm_id m]} ∪ seen))
        st ctx.

(** The outer loop over the matches; a failed expansion is skipped. *)
Definition expand_matches (s : Store) (cache : gmap string string)
    (ContextBefore ContextAfter : Z) (msgs : list rawMessage)
  : list MessageDict * gset string :=
  foldl (λ st msg,
           match getMessageContextRaw s (rm_id msg) ContextBefore ContextAfter with
           | Err _ => st
           | Ok ctx => emit_context cache st ctx
           end)
        ([], ∅) msgs.

Definition ListMessages (s : Store) (opts : ListMessagesOpts)
  : result (list MessageDict) :=
  let Limit := if lm_Limit opts =? 0 then 20 else lm_Limit opts in
  let ContextBefore :=
    if lm_IncludeContext opts && (lm_ContextBefore opts =? 0) then 1
    else lm_ContextBefore opts in
  let ContextAfter :=
    if lm_IncludeContext opts && (lm_ContextAfter opts =? 0) then 1
    else lm_ContextAfter opts in
  let msgs := ListMessages_rows s opts Limit in
  let cache := BuildSenderCache s in
  if lm_IncludeContext opts && (0 <? Z.of_nat (length msgs)) then
    Ok (expand_matches s cache ContextBefore ContextAfter msgs).1
  else
    Ok ((λ m, rawToDict m cache) <$> msgs).

(** ** Statement preparation

    The engine resolves every qualified column of a statement against the
    tables its FROM and JOIN clauses bring into scope, and refuses the
    statement otherwise. *)

Definition table_columns (table : string) : list string :=
  if String.eqb table "chats" then ["jid"; "name"; "last_message_time"]
  else if String.eqb table "messages" then
    ["id"; "chat_jid"; "sender"; "content"; "timestamp"; "is_from_me";
     "media_type"; "filename"; "url"; "media_key"; "file_sha256";
     "file_enc_sha256"; "file_length"]
  else [].

Record select_stmt := {
  sel_columns : list (string * string);  (* qualifier, column *)
  sel_tables : list (string * string)    (* table, name it is in scope under *)
}.

Definition column_resolves (tables : list (string * string)) (qc : string * string)
  : bool :=
  existsb (λ t, String.eqb t.2 qc.1 && bool_decide (qc.2 ∈ table_columns t.1)) tables.

Definition prepare (q : select_stmt) : option error :=
  match filter (λ qc, column_resolves (sel_tables q) qc = false) (sel_columns q) with
  | [] => None
  | qc :: _ => Some (StorageFailure ("no such column: " +:+ qc.1 +:+ "." +:+ qc.2))
  end.

(** ** Chat queries *)

(** [chats.last_message_time = messages.timestamp]: the two stored texts
    are equal. *)
Definition same_stored_time (c : ChatRow) (m : MessageRow) : Prop :=
  SQLiteTimestamp <$> chats_last_message_time c
  = Some (SQLiteTimestamp (messages_timestamp m)).

#[global] Instance same_stored_time_dec c m : Decision (same_stored_time c m).
Proof. unfold same_stored_time. apply _. Defined.

(** [FROM chats LEFT JOIN messages ON chats.jid = messages.chat_jid
     AND chats.last_message_time = messages.timestamp] *)
Definition chats_left_join_messages (s : Store) : list (ChatRow * option MessageRow) :=
  c ← chats s;
  match filter (λ m, chats_jid c = messages_chat_jid m ∧ same_stored_time c m)
               (messages s) with
  | [] => [(c, None)]
  | ms => (λ m, (c, Some m)) <$> ms
  end.

Definition scan_chat (r : ChatRow * option MessageRow) : rawChat :=
  {| rc_jid := chats_jid r.1;
     rc_name := chats_name r.1;
     rc_lastTime := scan_timestamp <$> chats_last_message_time r.1;
     rc_lastMsg := r.2 ≫= messages_content;
     rc_lastSender := messages_sender <$> r.2;
     rc_lastIsFromMe := messages_is_from_me <$> r.2 |}.

(** [ORDER BY chats.last_message_time DESC]: the stored texts, NULL last. *)
Definition chat_time_desc (x y : ChatRow) : bool :=
  null_le String.leb (SQLiteTimestamp <$> chats_last_message_time y)
                     (SQLiteTimestamp <$> chats_last_message_time x).

Definition last_message_time_desc (x y : ChatRow * option MessageRow) : bool :=
  chat_time_desc x.1 y.1.

Definition name_asc (x y : ChatRow * option MessageRow) : bool :=
  null_le String.leb (chats_name x.1) (chats_name y.1).

Record ListChatsOpts := {
  lc_Query : option string;
  lc_Limit : Z;
  lc_Page : Z;
  lc_IncludeLastMessage : bool;
  lc_SortBy : string
}.

Definition ListChats_stmt (opts : ListChatsOpts) (SortBy : string) : select_stmt :=
  {| sel_columns :=
       [("chats", "jid"); ("chats", "name"); ("chats", "last_message_time");
        ("messages", "content"); ("messages", "sender"); ("messages", "is_from_me")]
       ++ (if lc_IncludeLastMessage opts
           then [("chats", "jid"); ("messages", "chat_jid");
                 ("chats", "last_message_time"); ("messages", "timestamp")]
           else [])
       ++ (match lc_Query opts with
           | Some _ => [("chats", "name"); ("chats", "jid")]
           | None => []
           end)
       ++ (if String.eqb SortBy "last_active" then [("chats", "last_message_time")]
           else [("chats", "name")]);
     sel_tables :=
       [("chats", "chats")]
       ++ (if lc_IncludeLastMessage opts then [("messages", "messages")] else []) |}.

Definition ListChats_where (opts : ListChatsOpts) (r : ChatRow * option MessageRow)
  : bool :=
  match lc_Query opts with
  | Some query =>
      let q := "%" +:+ query +:+ "%" in
      LIKE (LOWER <$> chats_name r.1) (LOWER q) || LIKE (Some (chats_jid r.1)) q
  | None => true
  end.

Definition ListChats (s : Store) (opts : ListChatsOpts) : result (list ChatDict) :=
  let Limit := if lc_Limit opts =? 0 then 20 else lc_Limit opts in
  let SortBy := if String.eqb (lc_SortBy opts) "" then "last_active" else lc_SortBy opts in
  let offset := wrap64 (lc_Page opts * Limit) in
  match prepare (ListChats_stmt opts SortBy) with
  | Some (StorageFailure e) => Err (StorageFailure ("list chats query: " +:+ e))
  | None =>
      let rows :=
        limit_offset Limit offset
          (order_by (if String.eqb SortBy "last_active"
                     then last_message_time_desc else name_asc)
             (filter (λ r, ListChats_where opts r) (chats_left_join_messages s))) in
      let cache := BuildSenderCache s in
      Ok ((λ r, toDict (scan_chat r) cache) <$> rows)
  end.

Definition GetChat_stmt (includeLastMessage : bool) : select_stmt :=
  {| sel_columns :=
       [("c", "jid"); ("c", "name"); ("c", "last_message_time");
        ("m", "content"); ("m", "sender"); ("m", "is_from_me")]
       ++ (if includeLastMessage
           then [("c", "jid"); ("m", "chat_jid");
                 ("c", "last_message_time"); ("m", "timestamp")]
           else [])
       ++ [("c", "jid")];
     sel_tables :=
       [("chats", "c")] ++ (if includeLastMessage then [("messages", "m")] else []) |}.

(** [(nil, nil)] on [sql.ErrNoRows] is [Ok None]. *)
Definition GetChat (s : Store) (chatJID : string) (includeLastMessage : bool)
  : result (option ChatDict) :=
  match prepare (GetChat_stmt includeLastMessage) with
  | Some (StorageFailure e) => Err (StorageFailure ("get chat: " +:+ e))
  | None =>
      match QueryRow (filter (λ r, chats_jid r.1 = chatJID)
                        (chats_left_join_messages s)) with
      | None => Ok None
      | Some r => Ok (Some (toDict (scan_chat r) (BuildSenderCache s)))
      end
  end.

(** [FROM chats c JOIN messages m ON c.jid = m.chat_jid] *)
Definition chats_join_messages (s : Store) : list (ChatRow * MessageRow) :=
  c ← chats s;
  m ← filter (λ m, chats_jid c = messages_chat_jid m) (messages s);
  [(c, m)].

Definition scan_contact_chat (r : ChatRow * MessageRow) : rawChat :=
  scan_chat (r.1, Some r.2).

(** The rows of the [SELECT DISTINCT ... ORDER BY c.last_message_time DESC]
    before LIMIT and OFFSET: the joined rows in the order of the stored
    texts, each distinct result row once. *)
Definition GetContactChats_rows (s : Store) (jid : string) : list rawChat :=
  remove_dups
    (scan_contact_chat <$>
       order_by (λ x y, chat_time_desc x.1 y.1)
         (filter (λ r, messages_sender r.2 = jid ∨ chats_jid r.1 = jid)
            (chats_join_messages s))).

Definition GetContactChats (s : Store) (jid : string) (limit page : Z)
  : result (list ChatDict) :=
  let limit := if limit =? 0 then 20 else limit in
  let rows := limit_offset limit (wrap64 (page * limit)) (GetContactChats_rows s jid) in
  let cache := BuildSenderCache s in
  Ok ((λ r, toDict r cache) <$> rows).

(** ** SearchContacts *)

Definition compare_null (x y : option string) : comparison :=
  match x, y with
  | None, None => Eq
  | None, Some _ => Lt
  | Some _, None => Gt
  | Some a, Some b => String.compare a b
  end.

(** [ORDER BY name, jid] on rows [(jid, name)]. *)
Definition name_jid_le (x y : string * option string) : bool :=
  match compare_null x.2 y.2 with
  | Lt => true
  | Gt => false
  | Eq => String.leb x.1 y.1
  end.

Definition SearchContacts_where (pattern : string) (c : ChatRow) : bool :=
  (LIKE (LOWER <$> chats_name c) (LOWER pattern)
   || LIKE (Some (LOWER (chats_jid c))) (LOWER pattern))
  && negb (LIKE (Some (chats_jid c)) "%@g.us").

Definition SearchContacts_rows (s : Store) (query : string)
  : list (string * option string) :=
  let pattern := "%" +:+ query +:+ "%" in
  limit_offset 50 0
    (order_by name_jid_le
       (remove_dups
          ((λ c, (chats_jid c, chats_name c)) <$>
             filter (λ c, SearchContacts_where pattern c) (chats s)))).

Definition scan_contact (row : string * option string) : ContactDict :=
  let '(jid, name) := row in
  let idx := strings_Index jid "@" in
  {| PhoneNumber := if 0 <? idx then slice_to jid idx else jid;
     Contact_Name := name;
     Contact_JID := jid |}.

Definition SearchContacts (s : Store) (query : string) : result (list ContactDict) :=
  Ok (scan_contact <$> SearchContacts_rows s query).

(** ** Specification-level definitions *)

(** The identifier with its [@domain] suffix stripped: the bytes before the
    first [@] (the whole identifier when it has none). *)
Fixpoint strip_domain (s : string) : string :=
  match s with
  | EmptyString => EmptyString
  | String c s' => if Ascii.eqb c "@" then EmptyString else String c (strip_domain s')
  end.

(** The display-name rule in the words of the Row Projector contract. *)
Definition display_name_rule (isFromMe : bool) (sender : string)
    (cache : gmap string string) : string :=
  if isFromMe then "Me"
  else match cache !! sender with
       | Some name => name
       | None =>
           match cache !! strip_domain sender with
           | Some name => name
           | None => sender
           end
       end.

(** The same rule with the local part consulted only when it is not empty. *)
Definition display_name_rule_nonempty (isFromMe : bool) (sender : string)
    (cache : gmap string string) : string :=
  if isFromMe then "Me"
  else match cache !! sender with
       | Some name => name
       | None =>
           if String.eqb (strip_domain sender) "" then sender
           else match cache !! strip_domain sender with
                | Some name => name
                | None => sender
                end
       end.

(** The ingestion events the protocol client delivers. *)
Inductive ingest :=
  | UpsertChat (jid name : string) (lastMessageTime : Time)
  | UpsertMessage (id chatJID sender content : string) (timestamp : Time)
      (isFromMe : bool) (mediaType filename url : string)
      (mediaKey fileSHA256 fileEncSHA256 : list Byte.byte) (fileLength : Z).

Definition apply_ingest (s : Store) (ev : ingest) : Store :=
  match ev with
  | UpsertChat jid name t => (StoreChat s jid name t).1
  | UpsertMessage id chatJID sender content ts me mt fn url k h1 h2 n =>
      (StoreMessage s id chatJID sender content ts me mt fn url k h1 h2 n).1
  end.

Definition replay (s : Store) (evs : list ingest) : Store := foldl apply_ingest s evs.

(** The archive right after [NewStore] created the tables. *)
Definition new_store (wa : option WaStore) : Store :=
  {| chats := []; messages := []; WaDB := wa |}.

(** A row carries text content or a media type. *)
Definition has_payload (m : MessageRow) : bool :=
  negb (String.eqb (NullString_String (messages_content m)) ""
        && String.eqb (NullString_String (messages_media_type m)) "").

(** The declared keys: [jid] is the primary key of [chats], [(id, chat_jid)]
    that of [messages], and [chat_jid] references [chats]. *)
Record wf_store (s : Store) : Prop := {
  wf_chats_key : NoDup (chats_jid <$> chats s);
  wf_messages_key : NoDup ((λ m, (messages_id m, messages_chat_jid m)) <$> messages s);
  wf_foreign_key : ∀ m, m ∈ messages s → messages_chat_jid m ∈ chats_jid <$> chats s
}.

(** *** The identity cache as a log of writes

    The sources are applied in ascending priority; an entry with a non-empty
    name writes it under the full identifier and under the identifier with
    its domain stripped (when that is not empty); a lookup sees the latest
    write for its key. *)

Definition index_keys (jid : string) : list string :=
  jid :: (if String.eqb (strip_domain jid) "" then [] else [strip_domain jid]).

(** The keys in the words of the Identity Cache Builder contract. *)
Definition index_keys_unguarded (jid : string) : list string :=
  [jid; strip_domain jid].

Definition index_writes (entries : list (string * string)) : list (string * string) :=
  e ← entries;
  if String.eqb e.2 "" then [] else (λ k, (k, e.2)) <$> index_keys e.1.

Definition latest (log : list (string * string)) (k : string) : option string :=
  snd <$> head (filter (λ w, w.1 = k) (reverse log)).

(** Source 2: full name, falling back to the push name. *)
Definition contact_entries (s : Store) : list (string * string) :=
  match WaDB s with
  | Some wa =>
      (λ r, (their_jid r,
             match full_name r with
             | Some n => if String.eqb n "" then default "" (push_name r) else n
             | None => default "" (push_name r)
             end)) <$> default [] (whatsmeow_contacts wa)
  | None => []
  end.

(** Source 3 is read only when source 2 could be. *)
Definition lid_rows (s : Store) : list (string * string) :=
  match WaDB s with
  | Some wa =>
      match whatsmeow_contacts wa with
      | Some _ => default [] (whatsmeow_lid_map wa)
      | None => []
      end
  | None => []
  end.

(** The writes of source 3: each linked identifier is resolved through the
    log so far, by its phone identifier and then by the bare number. *)
Fixpoint linked_writes (log : list (string * string)) (rows : list (string * string))
  : list (string * string) :=
  match rows with
  | [] => []
  | (lid, pn) :: rows =>
      let name := default "" (latest log (pn +:+ "@s.whatsapp.net")) in
      let name := if String.eqb name "" then default "" (latest log pn) else name in
      let w := if String.eqb name "" then []
               else [(lid +:+ "@lid", name); (lid, name)] in
      w ++ linked_writes (log ++ w) rows
  end.

Definition identity_log (s : Store) : list (string * string) :=
  let base := index_writes (chat_names s) ++ index_writes (contact_entries s) in
  base ++ linked_writes base (lid_rows s).

(** The scenario of the testable properties. *)
Definition scenario_bob : Store :=
  {| chats := [ {| chats_jid := "111@s.whatsapp.net"; chats_name := Some "Bob (phone)";
                   chats_last_message_time := None |} ];
     messages := [];
     WaDB := Some {| whatsmeow_contacts :=
                       Some [ {| their_jid := "111@s.whatsapp.net";
                                 full_name := Some "Bob Smith";
                                 push_name := None |} ];
                     whatsmeow_lid_map := Some [] |} |}.

(** *** Context expansion in the words of the Query Engine contract *)

(** The window of each match, in match order; a match whose expansion fails
    contributes nothing. *)
Definition context_windows (s : Store) (before after : Z) (msgs : list rawMessage)
  : list (list rawMessage) :=
  (λ msg, match getMessageContextRaw s (rm_id msg) before after with
          | Ok ctx => ctx
          | Err _ => []
          end) <$> msgs.

(** The concatenation of the windows, each without the messages whose id an
    earlier window already holds. *)
Fixpoint concat_first_wins (earlier : list string) (windows : list (list rawMessage))
  : list rawMessage :=
  match windows with
  | [] => []
  | w :: ws =>
      filter (λ m, rm_id m ∉ earlier) w
      ++ concat_first_wins (earlier ++ (rm_id <$> w)) ws
  end.

(** The messages of [ms] whose id is not in [earlier] and does not occur
    earlier in [ms]. *)
Fixpoint first_occurrences (earlier : list string) (ms : list rawMessage)
  : list rawMessage :=
  match ms with
  | [] => []
  | m :: ms =>
      if bool_decide (rm_id m ∈ earlier) then first_occurrences earlier ms
      else m :: first_occurrences (rm_id m :: earlier) ms
  end.

(** [ListMessages] options without any filter. *)
Definition unfiltered (limit page : Z) (includeContext : bool) (cb ca : Z)
  : ListMessagesOpts :=
  {| lm_After := None; lm_Before := None; lm_SenderPhoneNumber := None;
     lm_ChatJID := None; lm_Query := None; lm_Limit := limit; lm_Page := page;
     lm_IncludeContext := includeContext;
     lm_ContextBefore := cb; lm_ContextAfter := ca |}.

Definition text_message (id chatJID sender content : string) (ts : Time) : ingest :=
  UpsertMessage id chatJID sender content ts false "" "" "" [] [] [] 0.

(** A time of day in UTC on 1 March 2024 plus [d] days. *)
Definition on_day (d h m sec : Z) : Time :=
  {| Year := 2024; Month := 3; Day := 1 + d; Hour := h; Minute := m; Second := sec;
     Nanosecond := 0; ZoneMinutes := 0 |}.

(** The [n]-th second after 10:00 UTC on 1 March 2024, for [n] below 60. *)
Definition at_second (n : Z) : Time := on_day 0 10 0 n.

(** One chat with four messages on one day, a second apart. *)
Definition scenario_thread : Store :=
  replay (new_store None)
    [ UpsertChat "c@s.whatsapp.net" "C" (at_second 4);
      text_message "m1" "c@s.whatsapp.net" "a" "one" (at_second 1);
      text_message "m2" "c@s.whatsapp.net" "a" "two" (at_second 2);
      text_message "m3" "c@s.whatsapp.net" "a" "three" (at_second 3);
      text_message "m4" "c@s.whatsapp.net" "a" "four" (at_second 4) ].

(** One chat with a message at noon on each of four consecutive days. *)
Definition scenario_days : Store :=
  replay (new_store None)
    [ UpsertChat "c@s.whatsapp.net" "C" (on_day 3 12 0 0);
      text_message "d1" "c@s.whatsapp.net" "a" "one" (on_day 0 12 0 0);
      text_message "d2" "c@s.whatsapp.net" "a" "two" (on_day 1 12 0 0);
      text_message "d3" "c@s.whatsapp.net" "a" "three" (on_day 2 12 0 0);
      text_message "d4" "c@s.whatsapp.net" "a" "four" (on_day 3 12 0 0) ].

(** Two chats that each hold a message with the id ["x"]; the chat with the
    greater key and its message are stored first. *)
Definition scenario_shared_id : Store :=
  replay (new_store None)
    [ UpsertChat "b@s.whatsapp.net" "B" (at_second 20);
      UpsertChat "a@s.whatsapp.net" "A" (at_second 10);
      text_message "x" "b@s.whatsapp.net" "b" "in b" (at_second 20);
      text_message "x" "a@s.whatsapp.net" "a" "in a" (at_second 10) ].

(** The same two chats and messages, chat a's stored first. *)
Definition scenario_shared_id_a_first : Store :=
  replay (new_store None)
    [ UpsertChat "a@s.whatsapp.net" "A" (at_second 10);
      UpsertChat "b@s.whatsapp.net" "B" (at_second 20);
      text_message "x" "a@s.whatsapp.net" "a" "in a" (at_second 10);
      text_message "x" "b@s.whatsapp.net" "b" "in b" (at_second 20) ].

(** The composite identity of the message of a joined row. *)
Definition message_key (r : MessageRow * ChatRow) : string * string :=
  (messages_id r.1, messages_chat_jid r.1).

(** The payload of a list-shaped answer (empty on failure). *)
Definition result_list {A} (r : result (list A)) : list A :=
  match r with
  | Ok l => l
  | Err _ => []
  end.

(** [ListMessages] options selecting one chat, with context expansion. *)
Definition in_chat (chatJID : string) : ListMessagesOpts :=
  {| lm_After := None; lm_Before := None; lm_SenderPhoneNumber := None;
     lm_ChatJID := Some chatJID; lm_Query := None; lm_Limit := 20; lm_Page := 0;
     lm_IncludeContext := true; lm_ContextBefore := 1; lm_ContextAfter := 1 |}.

(** A chat that was created but holds no message. *)
Definition scenario_quiet : Store :=
  replay (new_store None) [ UpsertChat "111@s.whatsapp.net" "Bob" (at_second 7) ].

(** *** Case-insensitive substring search in the words of the contract *)

Fixpoint is_prefix (p s : list ascii) : bool :=
  match p, s with
  | [], _ => true
  | c :: p', d :: s' => Ascii.eqb c d && is_prefix p' s'
  | _ :: _, [] => false
  end.

Fixpoint is_infix (p s : list ascii) : bool :=
  is_prefix p s || match s with [] => false | _ :: s' => is_infix p s' end.

(** [query] occurs in [s] once both are folded to lower case. *)
Definition contains_nocase (query : string) (s : option string) : bool :=
  match s with
  | Some v => is_infix (lower_bytes (list_ascii_of_string query))
                       (lower_bytes (list_ascii_of_string v))
  | None => false
  end.

(** The query has no byte that [LIKE] reads as a wildcard. *)
Definition wildcard_free (query : string) : bool :=
  forallb (λ c, negb (Ascii.eqb c "%") && negb (Ascii.eqb c "_"))
          (list_ascii_of_string query).

(** ** Further operations of the archive *)

(** The columns [GetMediaInfo] scans, in the order of its results. *)
Record MediaInfo := {
  mi_url : string;
  mi_mediaKey : list Byte.byte;
  mi_fileSHA256 : list Byte.byte;
  mi_fileEncSHA256 : list Byte.byte;
  mi_fileLength : Z;
  mi_mediaType : string;
  mi_filename : string
}.

(** [SELECT ... FROM messages WHERE id = ? AND chat_jid = ?] through
    [QueryRow]; the error is [sql.ErrNoRows] or the failed scan of a NULL
    media type into a string. *)
Definition GetMediaInfo (s : Store) (messageID chatJID : string) : result MediaInfo :=
  match QueryRow (filter (λ m, messages_id m = messageID ∧ messages_chat_jid m = chatJID)
                    (messages s)) with
  | None => Err (StorageFailure "sql: no rows in result set")
  | Some m =>
      match messages_media_type m with
      | None => Err (StorageFailure "converting NULL to string is unsupported")
      | Some mediaType =>
          Ok {| mi_url := messages_url m;
                mi_mediaKey := messages_media_key m;
                mi_fileSHA256 := messages_file_sha256 m;
                mi_fileEncSHA256 := messages_file_enc_sha256 m;
                mi_fileLength := messages_file_length m;
                mi_mediaType := mediaType;
                mi_filename := messages_filename m |}
      end
  end.

(** [WHERE c.jid LIKE ? AND c.jid NOT LIKE '%@g.us' LIMIT 1] over the left
    join with the last message. *)
Definition direct_chat_where (phoneNumber : string) (c : ChatRow) : bool :=
  LIKE (Some (chats_jid c)) ("%" +:+ phoneNumber +:+ "%")
  && negb (LIKE (Some (chats_jid c)) "%@g.us").

Definition GetDirectChatByContact (s : Store) (phoneNumber : string)
  : result (option ChatDict) :=
  match QueryRow
          (limit_offset 1 0
             (filter (λ r, direct_chat_where phoneNumber r.1 = true)
                (chats_left_join_messages s))) with
  | None => Ok None
  | Some r => Ok (Some (toDict (scan_chat r) (BuildSenderCache s)))
  end.

(** [WHERE m.sender = ? OR c.jid = ? ORDER BY m.timestamp DESC LIMIT 1] *)
Definition GetLastInteraction (s : Store) (jid : string) : result (option MessageDict) :=
  match QueryRow
          (limit_offset 1 0
             (order_by timestamp_desc
                (filter (λ r, messages_sender r.1 = jid ∨ chats_jid r.2 = jid)
                   (messages_join_chats s)))) with
  | None => Ok None
  | Some r => Ok (Some (rawToDict (scan_message r) (BuildSenderCache s)))
  end.

(** ** Tool handlers

    A handler answers with a value or with an error message. *)
Inductive tool_result (A : Type) :=
  | ToolOk (a : A)
  | ToolErr (msg : string).
Arguments ToolOk {A} a.
Arguments ToolErr {A} msg.

Definition error_message (e : error) : string :=
  match e with StorageFailure msg => msg end.

Definition handleGetChat (s : Store) (ChatJID : string)
    (IncludeLastMessage : option bool) : tool_result ChatDict :=
  let includeLastMsg := match IncludeLastMessage with Some b => b | None => true end in
  match GetChat s ChatJID includeLastMsg with
  | Err e => ToolErr (error_message e)
  | Ok None => ToolErr ("chat not found: " +:+ ChatJID)
  | Ok (Some d) => ToolOk d
  end.

Definition handleGetDirectChatByContact (s : Store) (SenderPhoneNumber : string)
  : tool_result ChatDict :=
  match GetDirectChatByContact s SenderPhoneNumber with
  | Err e => ToolErr (error_message e)
  | Ok None => ToolErr ("no direct chat found for: " +:+ SenderPhoneNumber)
  | Ok (Some d) => ToolOk d
  end.

Definition handleGetLastInteraction (s : Store) (JID : string)
  : tool_result MessageDict :=
  match GetLastInteraction s JID with
  | Err e => ToolErr (error_message e)
  | Ok None => ToolErr ("no interaction found for: " +:+ JID)
  | Ok (Some d) => ToolOk d
  end.

(** [opts] with another limit and page. *)
Definition with_window (opts : ListMessagesOpts) (limit page : Z) : ListMessagesOpts :=
  {| lm_After := lm_After opts; lm_Before := lm_Before opts;
     lm_SenderPhoneNumber := lm_SenderPhoneNumber opts;
     lm_ChatJID := lm_ChatJID opts; lm_Query := lm_Query opts;
     lm_Limit := limit; lm_Page := page;
     lm_IncludeContext := lm_IncludeContext opts;
     lm_ContextBefore := lm_ContextBefore opts;
     lm_ContextAfter := lm_ContextAfter opts |}.

(** ** The protocol client's events (package wa)

    The protocol library is outside the repository: what its calls return is
    an input of the functions below. *)

Record JID := { User : string; Server : string }.

(** A media part of a protocol message; a field holds what the getter of
    that name returns. *)
Record MediaPart := {
  GetURL : string;
  GetMediaKey : list Byte.byte;
  GetFileSHA256 : list Byte.byte;
  GetFileEncSHA256 : list Byte.byte;
  GetFileLength : Z
}.

Record ProtoMessage := {
  GetConversation : string;
  GetExtendedTextMessage : option string;      (* the part's [GetText] *)
  GetImageMessage : option MediaPart;
  GetVideoMessage : option MediaPart;
  GetAudioMessage : option MediaPart;
  GetDocumentMessage : option (string * MediaPart)  (* [GetFileName], part *)
}.

Definition extractTextContent (msg : option ProtoMessage) : string :=
  match msg with
  | None => ""
  | Some msg =>
      if negb (String.eqb (GetConversation msg) "") then GetConversation msg
      else match GetExtendedTextMessage msg with
           | Some text => text
           | None => ""
           end
  end.

Definition media_of (mediaType filename : string) (part : MediaPart) : MediaInfo :=
  {| mi_url := GetURL part; mi_mediaKey := GetMediaKey part;
     mi_fileSHA256 := GetFileSHA256 part;
     mi_fileEncSHA256 := GetFileEncSHA256 part;
     mi_fileLength := GetFileLength part;
     mi_mediaType := mediaType; mi_filename := filename |}.

Definition no_media : MediaInfo :=
  {| mi_url := ""; mi_mediaKey := []; mi_fileSHA256 := []; mi_fileEncSHA256 := [];
     mi_fileLength := 0; mi_mediaType := ""; mi_filename := "" |}.

(** [stamp] is [time.Now().Format("20060102_150405")]. *)
Definition extractMediaInfo (stamp : string) (msg : option ProtoMessage) : MediaInfo :=
  match msg with
  | None => no_media
  | Some msg =>
      match GetImageMessage msg with
      | Some img => media_of "image" ("image_" +:+ stamp +:+ ".jpg") img
      | None =>
      match GetVideoMessage msg with
      | Some vid => media_of "video" ("video_" +:+ stamp +:+ ".mp4") vid
      | None =>
      match GetAudioMessage msg with
      | Some aud => media_of "audio" ("audio_" +:+ stamp +:+ ".ogg") aud
      | None =>
      match GetDocumentMessage msg with
      | Some (fn, doc) =>
          let fn := if String.eqb fn "" then "document_" +:+ stamp else fn in
          media_of "document" fn doc
      | None => no_media
      end end end end
  end.

(** The two name fields of a history-sync conversation. *)
Record Conversation := {
  DisplayName : option string;
  Name : option string
}.

Definition extractConversationName (conversation : option Conversation) : string :=
  match conversation with
  | Some v =>
      match DisplayName v with
      | Some dn => if negb (String.eqb dn "") then dn
                   else match Name v with
                        | Some n => if negb (String.eqb n "") then n else ""
                        | None => ""
                        end
      | None => match Name v with
                | Some n => if negb (String.eqb n "") then n else ""
                | None => ""
                end
      end
  | None => ""
  end.

(** The answers of the protocol client and of the host. *)
Record WAClient := {
  GetGroupInfo : JID → option string;   (* the group name; [None] on error *)
  GetContact : JID → option string;     (* the full name; [None] on error *)
  OwnUser : string;                     (* [c.WA.Store.ID.User] *)
  ParseJID : string → string + JID;     (* the error text, or the JID *)
  time_Unix : Z → Time                  (* [time.Unix(sec, 0)], in the host's zone *)
}.

Definition GetChatName (c : WAClient) (s : Store) (jid : JID) (chatJID : string)
    (conversation : option Conversation) (sender : string) : string :=
  let existingName :=
    match QueryRow (filter (λ r, chats_jid r = chatJID) (chats s)) with
    | Some r => chats_name r
    | None => None
    end in
  let found :=
    match existingName with
    | Some n => if negb (String.eqb n "") then Some n else None
    | None => None
    end in
  match found with
  | Some n => n
  | None =>
      if String.eqb (Server jid) "g.us" then
        let name := match conversation with
                    | Some _ => extractConversationName conversation
                    | None => ""
                    end in
        if String.eqb name "" then
          match GetGroupInfo c jid with
          | Some n => if negb (String.eqb n "") then n else "Group " +:+ User jid
          | None => "Group " +:+ User jid
          end
        else name
      else
        match GetContact c jid with
        | Some n => if negb (String.eqb n "") then n
                    else if negb (String.eqb sender "") then sender else User jid
        | None => if negb (String.eqb sender "") then sender else User jid
        end
  end.

(** A real-time message event: the fields of [msg.Info] the handler reads
    ([ChatString] is [msg.Info.Chat.String()]) and the message itself. *)
Record MessageEvent := {
  Info_Chat : JID;
  Info_ChatString : string;
  Info_SenderUser : string;
  Info_ID : string;
  Info_Timestamp : Time;
  Info_IsFromMe : bool;
  ev_Message : option ProtoMessage
}.

Definition handleMessage (c : WAClient) (stamp : string) (s : Store)
    (msg : MessageEvent) : Store :=
  let chatJID := Info_ChatString msg in
  let sender := Info_SenderUser msg in
  let name := GetChatName c s (Info_Chat msg) chatJID None sender in
  let s := (StoreChat s chatJID name (Info_Timestamp msg)).1 in
  let content := extractTextContent (ev_Message msg) in
  let media := extractMediaInfo stamp (ev_Message msg) in
  if String.eqb content "" && String.eqb (mi_mediaType media) "" then s
  else
    (StoreMessage s (Info_ID msg) chatJID sender content (Info_Timestamp msg)
       (Info_IsFromMe msg) (mi_mediaType media) (mi_filename media) (mi_url media)
       (mi_mediaKey media) (mi_fileSHA256 media) (mi_fileEncSHA256 media)
       (mi_fileLength media)).1.

(** History sync: a conversation with its messages, latest first. *)
Record MessageKey := {
  key_RemoteJID : option string;
  key_FromMe : option bool;
  key_ID : option string;
  key_Participant : option string
}.

Record WebMessageInfo := {
  wmi_Key : option MessageKey;
  wmi_Message : option ProtoMessage;
  GetMessageTimestamp : Z              (* a [uint64]: seconds since the epoch *)
}.

Record HistoryConversation := {
  conv_ID : option string;
  conv_names : Conversation;
  conv_Messages : list (option (option WebMessageInfo))  (* [msg], [msg.Message] *)
}.

(** The body of the inner loop: one history message of the chat [chatJID]. *)
Definition store_history_message (c : WAClient) (stamp : string) (jid : JID)
    (chatJID : string) (st : Store * Z) (msg : option (option WebMessageInfo))
  : Store * Z :=
  match msg with
  | Some (Some m) =>
      let content := extractTextContent (wmi_Message m) in
      let media := extractMediaInfo stamp (wmi_Message m) in
      if String.eqb content "" && String.eqb (mi_mediaType media) "" then st
      else
        let isFromMe :=
          match wmi_Key m with
          | Some k => match key_FromMe k with Some b => b | None => false end
          | None => false
          end in
        let sender :=
          match wmi_Key m with
          | Some k =>
              match key_Participant k with
              | Some p =>
                  if negb isFromMe && negb (String.eqb p "") then p
                  else if isFromMe then OwnUser c else User jid
              | None => if isFromMe then OwnUser c else User jid
              end
          | None => User jid
          end in
        let msgID :=
          match wmi_Key m with
          | Some k => match key_ID k with Some i => i | None => "" end
          | None => ""
          end in
        let msgTs := GetMessageTimestamp m in
        if msgTs =? 0 then st
        else
          let msgTime := time_Unix c (wrap64 msgTs) in
          match StoreMessage st.1 msgID chatJID sender content msgTime isFromMe
                  (mi_mediaType media) (mi_filename media) (mi_url media)
                  (mi_mediaKey media) (mi_fileSHA256 media)
                  (mi_fileEncSHA256 media) (mi_fileLength media) with
          | (s', None) => (s', st.2 + 1)
          | (s', Some _) => (s', st.2)
          end
  | _ => st
  end.

(** The body of the outer loop: one conversation. *)
Definition store_conversation (c : WAClient) (stamp : string) (st : Store * Z)
    (conversation : HistoryConversation) : Store * Z :=
  match conv_ID conversation with
  | None => st
  | Some chatJID =>
      match ParseJID c chatJID with
      | inl _ => st
      | inr jid =>
          let name := GetChatName c st.1 jid chatJID
                        (Some (conv_names conversation)) "" in
          match conv_Messages conversation with
          | [] => st
          | latestMsg :: _ =>
              match latestMsg with
              | Some (Some latest) =>
                  let ts := GetMessageTimestamp latest in
                  if ts =? 0 then st
                  else
                    let timestamp := time_Unix c (wrap64 ts) in
                    let s := (StoreChat st.1 chatJID name timestamp).1 in
                    foldl (store_history_message c stamp jid chatJID) (s, st.2)
                          (conv_Messages conversation)
              | _ => st
              end
          end
      end
  end.

(** The archive after the sync and the count it reports. *)
Definition handleHistorySync (c : WAClient) (stamp : string) (s : Store)
    (conversations : list HistoryConversation) : Store * Z :=
  foldl (store_conversation c stamp) (s, 0) conversations.

(** [ORDER BY timestamp DESC] on the message table alone. *)
Definition message_time_desc (x y : MessageRow) : bool :=
  String.leb (SQLiteTimestamp (messages_timestamp y))
             (SQLiteTimestamp (messages_timestamp x)).

(** [SELECT id, sender, timestamp, is_from_me FROM messages WHERE chat_jid = ?
     ORDER BY timestamp DESC LIMIT 1]; [now] is [time.Now()]. *)
Definition getLastMessageKey (now : Time) (s : Store) (chatJID : string)
  : Time * option MessageKey :=
  match QueryRow
          (limit_offset 1 0
             (order_by message_time_desc
                (filter (λ m, messages_chat_jid m = chatJID) (messages s)))) with
  | None => (now, None)
  | Some m =>
      (column_time (messages_timestamp m),
       Some {| key_RemoteJID := Some chatJID;
               key_ID := Some (messages_id m);
               key_FromMe := Some (messages_is_from_me m);
               key_Participant :=
                 if negb (messages_is_from_me m)
                    && negb (String.eqb (messages_sender m) "")
                 then Some (messages_sender m) else None |})
  end.

(** [DeleteChat]: [connected] is [c.IsConnected()], [sent] the error of
    [SendAppState], if any.  The two local DELETE statements run only after
    the remote deletion succeeded. *)
Definition DeleteChat (c : WAClient) (connected : bool) (sent : option string)
    (s : Store) (chatJID : string) : Store * (bool * string) :=
  if negb connected then (s, (false, "Not connected to WhatsApp"))
  else
    match ParseJID c chatJID with
    | inl err => (s, (false, "Invalid JID: " +:+ err))
    | inr jid =>
        match sent with
        | Some err => (s, (false, "Failed to delete chat: " +:+ err))
        | None =>
            let s := with_messages s
                       (filter (λ m, messages_chat_jid m ≠ chatJID) (messages s)) in
            let s := with_chats s (filter (λ r, chats_jid r ≠ chatJID) (chats s)) in
            (s, (true, "Chat " +:+ chatJID +:+ " deleted"))
        end
    end.

(** ** Media URLs *)

(** [strings.SplitN(s, sep, 2)] for a non-empty separator: the parts around
    the first occurrence of [sep], if there is one. *)
Fixpoint cut_bytes (sep s : list ascii) : option (list ascii * list ascii) :=
  if is_prefix sep s then Some ([], drop (length sep) s)
  else match s with
       | [] => None
       | c :: s' =>
           match cut_bytes sep s' with
           | Some (a, b) => Some (c :: a, b)
           | None => None
           end
       end.

Definition extractDirectPathFromURL (url : string) : string :=
  match cut_bytes (list_ascii_of_string ".net/") (list_ascii_of_string url) with
  | None => url
  | Some (_, rest) =>
      let pathPart := match cut_bytes (list_ascii_of_string "?") rest with
                      | Some (p, _) => p
                      | None => rest
                      end in
      "/" +:+ string_of_list_ascii pathPart
  end.

(** *** History sync in the words of its log line

    A conversation is taken up when its id parses and its first message
    carries a timestamp; a message of it is stored when it has text or media,
    a timestamp and a file length that fits a signed 64-bit integer. *)
Definition taken_up (c : WAClient) (conversation : HistoryConversation) : bool :=
  match conv_ID conversation with
  | Some chatJID =>
      match ParseJID c chatJID, conv_Messages conversation with
      | inr _, Some (Some latest) :: _ => negb (GetMessageTimestamp latest =? 0)
      | _, _ => false
      end
  | None => false
  end.

Definition storable (stamp : string) (msg : option (option WebMessageInfo)) : bool :=
  match msg with
  | Some (Some m) =>
      negb (String.eqb (extractTextContent (wmi_Message m)) ""
            && String.eqb (mi_mediaType (extractMediaInfo stamp (wmi_Message m))) "")
      && negb (GetMessageTimestamp m =? 0)
      && (mi_fileLength (extractMediaInfo stamp (wmi_Message m)) <? 2 ^ 63)
  | _ => false
  end.

Definition storable_messages (c : WAClient) (stamp : string)
    (conversations : list HistoryConversation) : list (option (option WebMessageInfo)) :=
  conversation ← filter (λ conversation, taken_up c conversation = true) conversations;
  filter (λ msg, storable stamp msg = true) (conv_Messages conversation).

(** A client that knows nobody and parses every identifier as a phone
    number, and a text message. *)
Definition scenario_client : WAClient :=
  {| GetGroupInfo := λ _, None; GetContact := λ _, None; OwnUser := "me";
     ParseJID := λ jid, inr {| User := strip_domain jid; Server := "s.whatsapp.net" |};
     time_Unix := at_second |}.

Definition text_proto (text : string) : ProtoMessage :=
  {| GetConversation := text; GetExtendedTextMessage := None;
     GetImageMessage := None; GetVideoMessage := None; GetAudioMessage := None;
     GetDocumentMessage := None |}.

Definition scenario_event : MessageEvent :=
  {| Info_Chat := {| User := "111"; Server := "s.whatsapp.net" |};
     Info_ChatString := "111@s.whatsapp.net"; Info_SenderUser := "111";
     Info_ID := "M1"; Info_Timestamp := at_second 30; Info_IsFromMe := false;
     ev_Message := Some (text_proto "hello") |}.

Definition scenario_sync : list HistoryConversation :=
  [ {| conv_ID := Some "222@s.whatsapp.net";
       conv_names := {| DisplayName := None; Name := None |};
       conv_Messages :=
         [ Some (Some {| wmi_Key := None; wmi_Message := Some (text_proto "second");
                         GetMessageTimestamp := 20 |});
           Some (Some {| wmi_Key := None; wmi_Message := Some (text_proto "first");
                         GetMessageTimestamp := 10 |});
           Some None ] |} ].

(** Every chat named in [s] is in [s'] under the same name. *)
Definition names_kept (s s' : Store) : Prop :=
  ∀ r n, r ∈ chats s → chats_name r = Some n → n ≠ "" →
         ∃ r', r' ∈ chats s' ∧ chats_jid r' = chats_jid r ∧ chats_name r' = Some n.

(** * Properties *)

(** Closes a decidable goal on closed terms by evaluation. *)
Ltac by_compute := refine (bool_decide_unpack _ _); vm_compute; exact I.

(** Closes an equation on one byte by going through the 256 bytes. *)
Ltac ascii_cases c :=
  destruct c as [[] [] [] [] [] [] [] []]; reflexivity.

(** ** Go primitives *)

Lemma strings_Index_ge s c : -1 ≤ strings_Index s c.
Proof.
  induction s as [|a s IH]; simpl; [lia|].
  destruct (Ascii.eqb a c); [lia|].
  destruct (strings_Index s c <? 0) eqn:E; lia.
Qed.

Lemma substring_0_S c s n :
  String.substring 0 (S n) (String c s) = String c (String.substring 0 n s).
Proof. reflexivity. Qed.

Lemma strip_domain_absent s : strings_Index s "@" = -1 → strip_domain s = s.
Proof.
  induction s as [|a s IH]; simpl; [done|].
  destruct (Ascii.eqb a "@"); [lia|].
  destruct (strings_Index s "@" <? 0) eqn:E.
  - intros _. f_equal. apply IH. pose proof (strings_Index_ge s "@"). lia.
  - pose proof (strings_Index_ge s "@"). lia.
Qed.

Lemma strip_domain_first s : strings_Index s "@" = 0 → strip_domain s = "".
Proof.
  destruct s as [|a s]; simpl; [done|].
  destruct (Ascii.eqb a "@"); [done|].
  pose proof (strings_Index_ge s "@").
  destruct (strings_Index s "@" <? 0) eqn:E; lia.
Qed.

Lemma strip_domain_slice s :
  0 ≤ strings_Index s "@" → slice_to s (strings_Index s "@") = strip_domain s.
Proof.
  unfold slice_to. induction s as [|a s IH]; cbn [strings_Index strip_domain]; [lia|].
  destruct (Ascii.eqb a "@"); [done|].
  pose proof (strings_Index_ge s "@").
  destruct (strings_Index s "@" <? 0) eqn:E; [lia|].
  intros _. replace (Z.to_nat (strings_Index s "@" + 1))
    with (S (Z.to_nat (strings_Index s "@"))) by lia.
  rewrite substring_0_S. f_equal. apply IH. lia.
Qed.

Lemma strip_domain_nonempty s : 0 < strings_Index s "@" → strip_domain s ≠ "".
Proof.
  destruct s as [|a s]; simpl; [lia|].
  destruct (Ascii.eqb a "@"); [lia|done].
Qed.

(** ** Row projector *)

Lemma resolveMessageSender_nonempty (senderJID : string) (isFromMe : bool)
    (cache : gmap string string) :
  resolveMessageSender senderJID isFromMe cache
  = display_name_rule_nonempty isFromMe senderJID cache.
Proof.
  unfold resolveMessageSender, display_name_rule_nonempty, resolveSender.
  destruct isFromMe; [done|].
  destruct (cache !! senderJID) as [name|] eqn:Hfull; [done|].
  pose proof (strings_Index_ge senderJID "@") as Hge.
  destruct (0 <? strings_Index senderJID "@") eqn:Hidx.
  - apply Z.ltb_lt in Hidx.
    rewrite strip_domain_slice by lia.
    apply strip_domain_nonempty, String.eqb_neq in Hidx. by rewrite Hidx.
  - apply Z.ltb_ge in Hidx.
    destruct (decide (strings_Index senderJID "@" = 0)) as [H0|H0].
    + by rewrite (strip_domain_first _ H0).
    + rewrite strip_domain_absent by lia. rewrite Hfull.
      by destruct (String.eqb senderJID "").
Qed.

(** C6, as the code has it: the display name of a projected message is "Me"
    when the message is from me, whatever the cache holds; otherwise the
    cache is consulted for the raw sender identifier, then, when the part
    before the first [@] is not empty, for that local part, and the raw
    identifier is the fallback. *)
Theorem rawToDict_display_name (r : rawMessage) (cache : gmap string string) :
  Sender (rawToDict r cache)
  = display_name_rule_nonempty (rm_isFromMe r) (rm_sender r) cache
  ∧ SenderJID (rawToDict r cache) = rm_sender r
  ∧ (if rm_isFromMe r then Sender (rawToDict r cache) = "Me" else True).
Proof.
  split_and!.
  - apply resolveMessageSender_nonempty.
  - done.
  - simpl. by destruct (rm_isFromMe r).
Qed.

(** C6, as the claim words it, fails for a sender whose first byte is [@]
    when the cache holds an entry for the empty identifier: the local part
    is never consulted. *)
Lemma rawToDict_empty_local_part :
  let r := {| rm_timestamp := "2024-03-01T10:00:01Z"; rm_sender := "@x";
              rm_chatName := None;
              rm_content := Some "hi"; rm_isFromMe := false;
              rm_chatJID := "c@s.whatsapp.net"; rm_id := "m1";
              rm_mediaType := None |} in
  let cache : gmap string string := {[ "" := "Ghost" ]} in
  Sender (rawToDict r cache) = "@x"
  ∧ display_name_rule (rm_isFromMe r) (rm_sender r) cache = "Ghost".
Proof. split; vm_compute; reflexivity. Qed.

(** ** Ingestion path *)

Lemma upsert_key_NoDup {A K} `{EqDecision K} (key : A → K) (k : K) (row : A)
    (l : list A) :
  key row = k → NoDup (key <$> l) →
  NoDup (key <$> (filter (λ x, key x ≠ k) l ++ [row])).
Proof.
  intros Hrow Hl. rewrite fmap_app. apply NoDup_app. split_and!.
  - eapply sublist_NoDup; [exact Hl|]. apply fmap_sublist, sublist_filter.
  - intros x Hx Hx'. apply list_elem_of_fmap in Hx as (y & -> & Hy).
    apply list_elem_of_filter in Hy as [Hne _].
    apply list_elem_of_singleton in Hx'. simpl in Hx'. congruence.
  - apply NoDup_singleton.
Qed.

Lemma StoreChat_wf s jid name t : wf_store s → wf_store (StoreChat s jid name t).1.
Proof.
  intros [Hc Hm Hf]. split; simpl.
  - by apply (upsert_key_NoDup chats_jid).
  - done.
  - intros m Hin. specialize (Hf m Hin).
    apply list_elem_of_fmap in Hf as (c & Hc' & Hcin).
    rewrite fmap_app, elem_of_app.
    destruct (decide (chats_jid c = jid)) as [Heq|Hne].
    + right. simpl. apply list_elem_of_singleton. congruence.
    + left. apply list_elem_of_fmap. exists c. split; [done|].
      apply list_elem_of_filter. done.
Qed.

Lemma StoreMessage_wf s id chatJID sender content ts me mt fn url k h1 h2 n :
  wf_store s →
  wf_store (StoreMessage s id chatJID sender content ts me mt fn url k h1 h2 n).1.
Proof.
  intros Hwf. unfold StoreMessage.
  destruct (String.eqb content "" && String.eqb mt ""); [done|].
  destruct (2 ^ 63 <=? n); [done|].
  destruct (chat_exists s chatJID) eqn:Hex; [|done].
  destruct Hwf as [Hc Hm Hf]. split; simpl.
  - done.
  - by apply (upsert_key_NoDup (λ m, (messages_id m, messages_chat_jid m))).
  - intros m [Hin| ->%list_elem_of_singleton]%elem_of_app.
    + apply list_elem_of_filter in Hin as [_ Hin]. by apply Hf.
    + simpl. unfold chat_exists in Hex. by apply bool_decide_eq_true in Hex.
Qed.

Lemma replay_wf evs s : wf_store s → wf_store (replay s evs).
Proof.
  revert s. induction evs as [|ev evs IH]; intros s Hwf; [done|].
  simpl. apply IH. destruct ev; simpl.
  - by apply StoreChat_wf.
  - by apply StoreMessage_wf.
Qed.

Lemma new_store_wf wa : wf_store (new_store wa).
Proof. split; simpl; [constructor|constructor|]. intros m Hm. by apply elem_of_nil in Hm. Qed.

Lemma StoreMessage_payload s id chatJID sender content ts me mt fn url k h1 h2 n :
  Forall (λ m, has_payload m = true) (messages s) →
  Forall (λ m, has_payload m = true)
    (messages (StoreMessage s id chatJID sender content ts me mt fn url k h1 h2 n).1).
Proof.
  intros Hall. unfold StoreMessage.
  destruct (String.eqb content "" && String.eqb mt "") eqn:Hempty; [done|].
  destruct (2 ^ 63 <=? n); [done|].
  destruct (chat_exists s chatJID); [|done]. simpl.
  apply Forall_app. split.
  - apply Forall_forall. intros m [_ Hin]%list_elem_of_filter.
    by eapply Forall_forall in Hall.
  - apply Forall_singleton. unfold has_payload. simpl. by rewrite Hempty.
Qed.

Lemma replay_payload evs s :
  Forall (λ m, has_payload m = true) (messages s) →
  Forall (λ m, has_payload m = true) (messages (replay s evs)).
Proof.
  revert s. induction evs as [|ev evs IH]; intros s Hall; [done|].
  simpl. apply IH. destruct ev; simpl; [done|]. by apply StoreMessage_payload.
Qed.

(** C8: storing a message with empty text content and no media type returns
    no error and leaves the archive as it was; hence no row without text
    content and without media type is ever persisted by the ingestion path. *)
Theorem StoreMessage_without_payload_is_noop :
  (∀ s id chatJID sender ts me fn url k h1 h2 n,
     StoreMessage s id chatJID sender "" ts me "" fn url k h1 h2 n = (s, None))
  ∧ (∀ wa evs,
       Forall (λ m, has_payload m = true) (messages (replay (new_store wa) evs))).
Proof.
  split.
  - reflexivity.
  - intros wa evs. apply replay_payload. constructor.
Qed.

(** ** Identity cache builder *)

Lemma latest_snoc log k' v k :
  latest (log ++ [(k', v)]) k = if decide (k' = k) then Some v else latest log k.
Proof.
  unfold latest. rewrite reverse_snoc, filter_cons. simpl.
  by destruct (decide (k' = k)).
Qed.

Lemma latest_snoc2 log k1 v1 k2 v2 k :
  latest (log ++ [(k1, v1); (k2, v2)]) k
  = if decide (k2 = k) then Some v2
    else if decide (k1 = k) then Some v1 else latest log k.
Proof.
  change [(k1, v1); (k2, v2)] with ([(k1, v1)] ++ [(k2, v2)]).
  by rewrite (assoc_L (++)), !latest_snoc.
Qed.

Lemma latest_app l1 l2 k :
  latest (l1 ++ l2) k
  = match latest l2 k with Some v => Some v | None => latest l1 k end.
Proof.
  unfold latest. rewrite reverse_app, filter_app.
  by destruct (filter (λ w, w.1 = k) (reverse l2)).
Qed.

Lemma index_name_latest (c : gmap string string) log jid name :
  (∀ k, c !! k = latest log k) →
  ∀ k, index_name c jid name !! k
       = latest (log ++ ((λ k, (k, name)) <$> index_keys jid)) k.
Proof.
  intros Hc k. unfold index_name, index_keys.
  pose proof (strings_Index_ge jid "@") as Hge.
  destruct (0 <? strings_Index jid "@") eqn:Hidx.
  - apply Z.ltb_lt in Hidx. rewrite strip_domain_slice by lia.
    pose proof (strip_domain_nonempty _ Hidx) as Hne.
    apply String.eqb_neq in Hne. rewrite Hne. simpl.
    by rewrite latest_snoc2, !lookup_insert, Hc.
  - apply Z.ltb_ge in Hidx.
    destruct (decide (strings_Index jid "@" = 0)) as [H0|H0].
    + rewrite (strip_domain_first _ H0). simpl.
      by rewrite latest_snoc, lookup_insert, Hc.
    + rewrite strip_domain_absent by lia.
      destruct (String.eqb jid ""); simpl.
      * by rewrite latest_snoc, lookup_insert, Hc.
      * rewrite latest_snoc2, lookup_insert, Hc.
        by destruct (decide (jid = k)).
Qed.

Lemma index_writes_cons e entries :
  index_writes (e :: entries)
  = (if String.eqb e.2 "" then [] else (λ k, (k, e.2)) <$> index_keys e.1)
    ++ index_writes entries.
Proof. reflexivity. Qed.

Lemma cache_chats_latest rows : ∀ (c : gmap string string) log,
  Forall (λ e, e.2 ≠ "") rows →
  (∀ k, c !! k = latest log k) →
  ∀ k, cache_chats c rows !! k = latest (log ++ index_writes rows) k.
Proof.
  induction rows as [|[jid name] rows IH]; intros c log Hne Hc k.
  - simpl. by rewrite app_nil_r.
  - apply Forall_cons in Hne as [Hname Hne]. simpl in Hname.
    rewrite index_writes_cons. cbn [fst snd foldl cache_chats].
    apply String.eqb_neq in Hname. rewrite Hname.
    rewrite (assoc_L (++)). apply IH; [done|].
    by apply index_name_latest.
Qed.

Lemma chat_names_nonempty s : Forall (λ e, e.2 ≠ "") (chat_names s).
Proof.
  apply Forall_forall. intros [jid name] Hin.
  apply list_elem_of_omap in Hin as (c & _ & Hc).
  destruct (chats_name c) as [n|]; [|done].
  destruct (String.eqb n "") eqn:E; [done|].
  injection Hc as <- <-. simpl. by apply String.eqb_neq.
Qed.

Lemma cache_contacts_latest wa rows : ∀ (c : gmap string string) log,
  (∀ k, c !! k = latest log k) →
  ∀ k, cache_contacts c rows !! k
       = latest (log ++ index_writes
                   (contact_entries {| chats := []; messages := [];
                                       WaDB := Some {| whatsmeow_contacts := Some rows;
                                                       whatsmeow_lid_map := wa |} |})) k.
Proof.
  unfold contact_entries. simpl.
  induction rows as [|row rows IH]; intros c log Hc k.
  - simpl. by rewrite app_nil_r.
  - rewrite fmap_cons, index_writes_cons. cbn [fst snd foldl cache_contacts].
    rewrite (assoc_L (++)). apply IH. intros k'.
    unfold contact_step, NullString_String.
    destruct (full_name row) as [n|]; simpl.
    + destruct (String.eqb n "") eqn:En.
      * destruct (String.eqb (default "" (push_name row)) "") eqn:Ep; simpl.
        -- by rewrite app_nil_r.
        -- by apply index_name_latest.
      * rewrite En. simpl. by apply index_name_latest.
    + destruct (String.eqb (default "" (push_name row)) "") eqn:Ep; simpl.
      * by rewrite app_nil_r.
      * by apply index_name_latest.
Qed.

Lemma cache_lids_latest rows : ∀ (c : gmap string string) log,
  (∀ k, c !! k = latest log k) →
  ∀ k, cache_lids c rows !! k = latest (log ++ linked_writes log rows) k.
Proof.
  induction rows as [|[lid pn] rows IH]; intros c log Hc k.
  - simpl. by rewrite app_nil_r.
  - simpl. rewrite (assoc_L (++)). apply IH. intros k'.
    unfold map_get. rewrite !Hc.
    destruct (String.eqb (if String.eqb _ "" then _ else _) ""); simpl.
    + by rewrite app_nil_r.
    + by rewrite latest_snoc2, !lookup_insert, Hc.
Qed.

Lemma BuildSenderCache_latest s k :
  BuildSenderCache s !! k = latest (identity_log s) k.
Proof.
  unfold BuildSenderCache, identity_log, contact_entries, lid_rows.
  assert (∀ k, cache_chats ∅ (chat_names s) !! k
               = latest ([] ++ index_writes (chat_names s)) k) as H1.
  { intros k'. apply cache_chats_latest; [apply chat_names_nonempty|].
    intros k''. by rewrite lookup_empty. }
  simpl in H1.
  destruct (WaDB s) as [[contacts lids]|]; simpl.
  - destruct contacts as [rows2|]; simpl.
    + pose proof (cache_contacts_latest lids rows2 _ _ H1) as H2.
      unfold contact_entries in H2. simpl in H2.
      destruct lids as [rows3|]; simpl.
      * by apply cache_lids_latest.
      * by rewrite app_nil_r.
    + by rewrite !app_nil_r.
  - by rewrite !app_nil_r.
Qed.

Lemma index_writes_elem_of entries jid name k :
  (jid, name) ∈ entries → name ≠ "" → k ∈ index_keys jid →
  (k, name) ∈ index_writes entries.
Proof.
  intros Hin Hne Hk. unfold index_writes. apply list_elem_of_bind.
  exists (jid, name). split; [|done]. cbn [fst snd].
  apply String.eqb_neq in Hne. rewrite Hne.
  apply list_elem_of_fmap. by exists k.
Qed.

Lemma latest_is_Some log k v : (k, v) ∈ log → is_Some (latest log k).
Proof.
  intros Hin. unfold latest.
  assert ((k, v) ∈ filter (λ w, w.1 = k) (reverse log)) as Hf.
  { apply list_elem_of_filter. split; [done|]. by apply elem_of_reverse. }
  destruct (filter _ (reverse log)); [by apply elem_of_nil in Hf|].
  simpl. eauto.
Qed.

(** C5, as the code has it: the cache holds, for every key, the latest write
    of the log that lists the chat-table names, then the contact-directory
    names, then the linked identifiers, so that a later source overwrites an
    earlier one; every non-empty name of the first two sources is written
    under the full identifier and, when the part before the first [@] is not
    empty, under that part; in the scenario of the specification the sender
    "111" resolves to "Bob Smith". *)
Theorem BuildSenderCache_priority_merge (s : Store) :
  (∀ k, BuildSenderCache s !! k = latest (identity_log s) k)
  ∧ (∀ k, latest (identity_log s) k
          = let base := index_writes (chat_names s) ++ index_writes (contact_entries s) in
            match latest (linked_writes base (lid_rows s)) k with
            | Some v => Some v
            | None =>
                match latest (index_writes (contact_entries s)) k with
                | Some v => Some v
                | None => latest (index_writes (chat_names s)) k
                end
            end)
  ∧ (∀ jid name k,
       (jid, name) ∈ chat_names s ++ contact_entries s → name ≠ "" →
       k ∈ index_keys jid →
       (k, name) ∈ identity_log s ∧ is_Some (BuildSenderCache s !! k))
  ∧ resolveSender "111" (BuildSenderCache scenario_bob) = "Bob Smith".
Proof.
  split_and!.
  - apply BuildSenderCache_latest.
  - intros k. unfold identity_log. simpl. by rewrite !latest_app.
  - intros jid name k Hin Hne Hk.
    assert ((k, name) ∈ identity_log s) as Hlog.
    { unfold identity_log. apply elem_of_app. left.
      apply elem_of_app in Hin as [Hin|Hin]; apply elem_of_app; [left|right];
        by eapply index_writes_elem_of. }
    split; [done|]. rewrite BuildSenderCache_latest. by eapply latest_is_Some.
  - vm_compute. reflexivity.
Qed.

Lemma BuildSenderCache_priority_merge_witness :
  ("111", "Bob Smith") ∈ identity_log scenario_bob
  ∧ is_Some (BuildSenderCache scenario_bob !! "111").
Proof.
  destruct (BuildSenderCache_priority_merge scenario_bob) as (_ & _ & H & _).
  apply (H "111@s.whatsapp.net" "Bob Smith" "111").
  - by_compute.
  - discriminate.
  - by_compute.
Defined.

(** C5, as the claim words it, fails for an identifier whose first byte is
    [@]: its name is not registered under the stripped (empty) identifier. *)
Lemma BuildSenderCache_empty_local_part :
  ¬ (∀ s jid name k,
       (jid, name) ∈ chat_names s → k ∈ index_keys_unguarded jid →
       is_Some (BuildSenderCache s !! k)).
Proof.
  intros H.
  specialize (H {| chats := [ {| chats_jid := "@x"; chats_name := Some "N";
                                 chats_last_message_time := None |} ];
                   messages := []; WaDB := None |} "@x" "N" "").
  assert (is_Some (None : option string)) as [? ?]; [|done].
  apply H; by_compute.
Qed.

(** ** Chat queries without the last-message join *)

Lemma ListChats_stmt_unprepared opts SortBy :
  lc_IncludeLastMessage opts = false →
  prepare (ListChats_stmt opts SortBy)
  = Some (StorageFailure "no such column: messages.content").
Proof.
  intros Hflag. unfold ListChats_stmt. rewrite Hflag.
  destruct (lc_Query opts), (String.eqb SortBy "last_active"); reflexivity.
Qed.

(** C2: with [includeLastMessage = false] the statement still selects the
    message columns but joins no table that has them, so preparing it fails
    and both [ListChats] and [GetChat] return a storage failure. *)
Theorem includeLastMessage_false_is_StorageFailure :
  (∀ s opts, lc_IncludeLastMessage opts = false →
     ListChats s opts
     = Err (StorageFailure "list chats query: no such column: messages.content"))
  ∧ (∀ s chatJID,
       GetChat s chatJID false
       = Err (StorageFailure "get chat: no such column: m.content")).
Proof.
  split.
  - intros s opts Hflag. unfold ListChats.
    by rewrite ListChats_stmt_unprepared.
  - reflexivity.
Qed.

Lemma includeLastMessage_false_is_StorageFailure_witness :
  ListChats (new_store None)
    {| lc_Query := None; lc_Limit := 20; lc_Page := 0;
       lc_IncludeLastMessage := false; lc_SortBy := "name" |}
  = Err (StorageFailure "list chats query: no such column: messages.content").
Proof.
  apply (proj1 includeLastMessage_false_is_StorageFailure). reflexivity.
Defined.

(** ** The storage engine's operators *)

Section order_by_facts.
Context {A : Type} (le : A → A → bool).

Lemma insert_row_Permutation x l : insert_row le x l ≡ₚ x :: l.
Proof.
  induction l as [|y l IH]; simpl; [done|].
  destruct (le x y); [done|]. rewrite IH. apply Permutation_swap.
Qed.

Lemma order_by_Permutation l : order_by le l ≡ₚ l.
Proof.
  induction l as [|x l IH]; simpl; [done|].
  fold (order_by le l). by rewrite insert_row_Permutation, IH.
Qed.

Lemma elem_of_order_by x l : x ∈ order_by le l ↔ x ∈ l.
Proof. by rewrite order_by_Permutation. Qed.

Hypothesis le_total : ∀ x y, le x y = true ∨ le y x = true.

Lemma insert_row_HdRel a x l :
  le a x = true → HdRel (λ x y, le x y = true) a l →
  HdRel (λ x y, le x y = true) a (insert_row le x l).
Proof.
  intros Hax Hl. destruct l as [|y l]; simpl; [by constructor|].
  destruct (le x y); constructor; [done|]. by inv Hl.
Qed.

Lemma insert_row_Sorted x l :
  Sorted (λ x y, le x y = true) l →
  Sorted (λ x y, le x y = true) (insert_row le x l).
Proof.
  induction 1 as [|y l Hl IH Hhd]; simpl; [by repeat constructor|].
  destruct (le x y) eqn:Hxy.
  - constructor; [by constructor|by constructor].
  - constructor; [done|]. apply insert_row_HdRel; [|done].
    destruct (le_total x y); congruence.
Qed.

Lemma order_by_Sorted l : Sorted (λ x y, le x y = true) (order_by le l).
Proof.
  induction l as [|x l IH]; simpl; [constructor|].
  by apply insert_row_Sorted.
Qed.
End order_by_facts.

Lemma Sorted_take {A} (R : relation A) n l : Sorted R l → Sorted R (take n l).
Proof.
  intros Hl. revert n. induction Hl as [|x l Hl IH Hhd]; intros [|n]; simpl.
  - constructor.
  - constructor.
  - constructor.
  - constructor; [apply IH|]. destruct Hhd; destruct n; simpl; by constructor.
Qed.

Lemma Sorted_drop {A} (R : relation A) n l : Sorted R l → Sorted R (drop n l).
Proof.
  intros Hl. revert n. induction Hl as [|x l Hl IH Hhd]; intros [|n]; simpl.
  - constructor.
  - constructor.
  - by constructor.
  - apply IH.
Qed.

Lemma limit_offset_sublist {A} lim off (l : list A) :
  limit_offset lim off l `sublist_of` l.
Proof.
  unfold limit_offset. destruct (lim <? 0).
  - apply sublist_drop.
  - etrans; [apply sublist_take|apply sublist_drop].
Qed.

Lemma elem_of_limit_offset {A} lim off (l : list A) x :
  x ∈ limit_offset lim off l → x ∈ l.
Proof. intros Hx. eapply elem_of_sublist; [exact Hx|apply limit_offset_sublist]. Qed.

Lemma limit_offset_Sorted {A} (R : relation A) lim off l :
  Sorted R l → Sorted R (limit_offset lim off l).
Proof.
  intros Hl. unfold limit_offset.
  destruct (lim <? 0); [|apply Sorted_take]; by apply Sorted_drop.
Qed.

Lemma limit_offset_length {A} lim off (l : list A) :
  0 ≤ lim → Z.of_nat (length (limit_offset lim off l)) ≤ lim.
Proof.
  intros Hlim. unfold limit_offset.
  destruct (lim <? 0) eqn:E; [lia|]. rewrite length_take. lia.
Qed.

Lemma head_order_by_first {A} (le : A → A → bool) (l : list A) x y :
  (∀ x y, le x y = true ∨ le y x = true) →
  (∀ x y z, le x y = true → le y z = true → le x z = true) →
  head (order_by le l) = Some x → y ∈ l → le x y = true.
Proof.
  intros Htotal Htrans Hhd Hy.
  assert (StronglySorted (λ x y, le x y = true) (order_by le l)) as Hsorted.
  { apply (@Sorted_StronglySorted _ (λ x y, le x y = true)).
    - intros a b c. apply Htrans.
    - by apply order_by_Sorted. }
  apply (elem_of_order_by le) in Hy.
  apply head_Some in Hhd as [l' Hl]. rewrite Hl in Hsorted, Hy.
  apply StronglySorted_inv in Hsorted as [_ Hall].
  apply elem_of_cons in Hy as [->|Hy].
  - destruct (Htotal x x); done.
  - rewrite Forall_forall in Hall. by apply Hall.
Qed.

(** ** The join of messages with their chats *)

Lemma elem_of_messages_join_chats s m c :
  (m, c) ∈ messages_join_chats s
  ↔ m ∈ messages s ∧ c ∈ chats s ∧ chats_jid c = messages_chat_jid m.
Proof.
  unfold messages_join_chats. rewrite list_elem_of_bind. split.
  - intros (m' & Hin & Hm'). apply list_elem_of_bind in Hin as (c' & Hin & Hc').
    apply list_elem_of_singleton in Hin as [= -> ->].
    apply list_elem_of_filter in Hc' as [??]. done.
  - intros (Hm & Hc & Hjid). exists m. split; [|done].
    apply list_elem_of_bind. exists c. split; [apply list_elem_of_here|].
    by apply list_elem_of_filter.
Qed.

Lemma NoDup_fmap_inj_on {A B} (f : A → B) (l : list A) x y :
  NoDup (f <$> l) → x ∈ l → y ∈ l → f x = f y → x = y.
Proof.
  induction l as [|a l IH]; intros Hnd Hx Hy Hf; [by apply elem_of_nil in Hx|].
  rewrite fmap_cons in Hnd. apply NoDup_cons in Hnd as [Ha Hnd].
  apply elem_of_cons in Hx as [->|Hx]; apply elem_of_cons in Hy as [->|Hy].
  - done.
  - exfalso. apply Ha. rewrite Hf. by apply list_elem_of_fmap_2.
  - exfalso. apply Ha. rewrite <- Hf. by apply list_elem_of_fmap_2.
  - by apply IH.
Qed.

Lemma filter_key_unique {A K} `{EqDecision K} (key : A → K) (k : K) (l : list A) :
  NoDup (key <$> l) → (length (filter (λ x, key x = k) l) ≤ 1)%nat.
Proof.
  induction l as [|a l IH]; intros Hnd; [simpl; lia|].
  rewrite fmap_cons in Hnd. apply NoDup_cons in Hnd as [Ha Hnd].
  rewrite filter_cons. destruct (decide (key a = k)) as [Hk|Hk]; [|by apply IH].
  destruct (filter (λ x, key x = k) l) as [|b l'] eqn:E; [simpl; lia|].
  exfalso. apply Ha.
  assert (b ∈ filter (λ x, key x = k) l) as Hb by (rewrite E; apply list_elem_of_here).
  apply list_elem_of_filter in Hb as [Hkb Hb].
  rewrite Hk, <- Hkb. by apply list_elem_of_fmap_2.
Qed.

Lemma join_keys_sublist cs ms :
  NoDup (chats_jid <$> cs) →
  (message_key <$>
     (ms ≫= λ m, filter (λ c, chats_jid c = messages_chat_jid m) cs ≫= λ c, [(m, c)]))
  `sublist_of` ((λ m, (messages_id m, messages_chat_jid m)) <$> ms).
Proof.
  intros Hcs. induction ms as [|m ms IH]; [done|].
  rewrite bind_cons, !fmap_app, fmap_cons.
  pose proof (filter_key_unique chats_jid (messages_chat_jid m) cs Hcs) as Hlen.
  destruct (filter (λ c, chats_jid c = messages_chat_jid m) cs) as [|c [|c' l]].
  - simpl. by apply sublist_cons.
  - simpl. by apply sublist_skip.
  - simpl in Hlen. lia.
Qed.

Lemma join_keys_NoDup s : wf_store s → NoDup (message_key <$> messages_join_chats s).
Proof.
  intros [Hc Hm _]. eapply sublist_NoDup; [exact Hm|].
  by apply join_keys_sublist.
Qed.

Lemma join_NoDup s : wf_store s → NoDup (messages_join_chats s).
Proof. intros Hwf. eapply NoDup_fmap_1, join_keys_NoDup, Hwf. Qed.

(** ** Stored timestamps *)

Lemma ascii_compare_trans a b c o :
  Ascii.compare a b = o → Ascii.compare b c = o → Ascii.compare a c = o.
Proof.
  unfold Ascii.compare. destruct o.
  - rewrite !N.compare_eq_iff. congruence.
  - rewrite !N.compare_lt_iff. lia.
  - rewrite !N.compare_gt_iff. lia.
Qed.

Lemma string_leb_trans a : ∀ b c,
  String.leb a b = true → String.leb b c = true → String.leb a c = true.
Proof.
  unfold String.leb.
  induction a as [|x a IH]; intros [|y b] [|z c]; simpl; try done.
  destruct (Ascii.compare x y) eqn:Hxy; [| |done];
    destruct (Ascii.compare y z) eqn:Hyz; try done.
  - apply Ascii.compare_eq_iff in Hxy as ->. rewrite Hyz. apply IH.
  - apply Ascii.compare_eq_iff in Hxy as ->. by rewrite Hyz.
  - apply Ascii.compare_eq_iff in Hyz as <-. by rewrite Hxy.
  - by rewrite (ascii_compare_trans x y z Lt).
Qed.

Lemma string_compare_refl a : String.compare a a = Eq.
Proof.
  induction a as [|x a IH]; [done|]. simpl.
  replace (Ascii.compare x x) with Eq; [done|].
  symmetry. unfold Ascii.compare. apply N.compare_refl.
Qed.

Lemma string_compare_append d a b :
  String.compare (d +:+ a) (d +:+ b) = String.compare a b.
Proof.
  induction d as [|x d IH]; [done|]. simpl.
  replace (Ascii.compare x x) with Eq; [done|].
  symmetry. unfold Ascii.compare. apply N.compare_refl.
Qed.

Lemma stored_lt_RFC3339Nano t :
  String.ltb (SQLiteTimestamp t) (RFC3339Nano t) = true.
Proof.
  unfold String.ltb, SQLiteTimestamp, RFC3339Nano.
  by rewrite string_compare_append.
Qed.

Lemma utod_digit k : 0 ≤ k ≤ 9 → sqlite_isdigit (utod k) = true.
Proof.
  intros Hk.
  assert (k = 0 ∨ k = 1 ∨ k = 2 ∨ k = 3 ∨ k = 4 ∨ k = 5 ∨ k = 6 ∨ k = 7 ∨ k = 8 ∨ k = 9)
    as Hcases by lia.
  destruct_or!; subst; reflexivity.
Qed.

Lemma digit_not_blank c :
  sqlite_isdigit c = true →
  sqlite_isspace c = false ∧ Ascii.eqb c "-" = false ∧ Ascii.eqb c "+" = false.
Proof. destruct c as [[] [] [] [] [] [] [] []]; vm_compute; intros; done. Qed.

Lemma year_not_numeric c1 c2 c3 c4 rest :
  sqlite_isdigit c1 = true → sqlite_isdigit c2 = true →
  sqlite_isdigit c3 = true → sqlite_isdigit c4 = true →
  sqlite_numeric_bytes (c1 :: c2 :: c3 :: c4 :: "-"%char :: rest) = false.
Proof.
  intros H1 H2 H3 H4.
  destruct (digit_not_blank c1 H1) as (Hs & Hm & Hp).
  unfold sqlite_numeric_bytes.
  cbn [skip_while]. rewrite Hs. cbn [is_nil skip_sign]. rewrite Hm, Hp.
  cbn [orb skip_while]. rewrite H1, H2, H3, H4.
  change (sqlite_isdigit "-") with false. cbn iota.
  cbn [is_nil]. change (Ascii.eqb "-" ".") with false. cbn iota. cbn [is_nil].
  change (Ascii.eqb "-" "e" || Ascii.eqb "-" "E") with false. cbn iota.
  cbn [skip_while]. change (sqlite_isspace "-") with false. done.
Qed.

Lemma appendInt_year y :
  0 ≤ y ≤ 9999 →
  appendInt y 4
  = String (utod (y / 1000)) (String (utod (y / 100 mod 10))
      (String (utod (y / 10 mod 10)) (String (utod (y mod 10)) ""))).
Proof.
  intros Hy. unfold appendInt.
  replace (y <? 0) with false by (symmetry; apply Z.ltb_ge; lia).
  rewrite Z.abs_eq by lia.
  replace (y <? 100) with (y <? 100) by done.
  change (4 =? 2) with false. change (4 =? 4) with true.
  replace (y <? 10000) with true by (symmetry; apply Z.ltb_lt; lia).
  done.
Qed.

Lemma RFC3339Nano_not_numeric t :
  0 ≤ Year t ≤ 9999 → sqlite_numeric (RFC3339Nano t) = false.
Proof.
  intros Hy. unfold sqlite_numeric, RFC3339Nano, appendDate.
  rewrite appendInt_year by done. cbn [String.append list_ascii_of_string].
  apply year_not_numeric; apply utod_digit.
  - split; [apply Z.div_pos; lia|].
    assert (Year t / 1000 < 10) by (apply Z.div_lt_upper_bound; lia). lia.
  - pose proof (Z.mod_pos_bound (Year t / 100) 10). lia.
  - pose proof (Z.mod_pos_bound (Year t / 10) 10). lia.
  - pose proof (Z.mod_pos_bound (Year t) 10). lia.
Qed.

Lemma column_time_year t : 0 ≤ Year (column_time t) ≤ 9999.
Proof.
  unfold column_time.
  destruct ((0 <=? Year t) && (Year t <=? 9999)) eqn:E; [|simpl; lia].
  apply andb_true_iff in E as [?%Z.leb_le ?%Z.leb_le]. lia.
Qed.

Lemma scan_timestamp_not_numeric t : sqlite_numeric (scan_timestamp t) = false.
Proof. apply RFC3339Nano_not_numeric, column_time_year. Qed.

Lemma column_time_in_range t : 0 ≤ Year t ≤ 9999 → column_time t = t.
Proof.
  intros Hy. unfold column_time.
  by replace ((0 <=? Year t) && (Year t <=? 9999)) with true
    by (symmetry; apply andb_true_iff; rewrite !Z.leb_le; lia).
Qed.

Lemma timestamp_lt_scanned t' t :
  timestamp_lt t' (scan_timestamp t) = String.ltb (SQLiteTimestamp t') (scan_timestamp t).
Proof. unfold timestamp_lt. by rewrite scan_timestamp_not_numeric. Qed.

Lemma timestamp_gt_scanned t' t :
  timestamp_gt t' (scan_timestamp t) = String.ltb (scan_timestamp t) (SQLiteTimestamp t').
Proof. unfold timestamp_gt. by rewrite scan_timestamp_not_numeric. Qed.

Lemma timestamp_lt_own t :
  0 ≤ Year t ≤ 9999 → timestamp_lt t (scan_timestamp t) = true.
Proof.
  intros Hy. rewrite timestamp_lt_scanned. unfold scan_timestamp.
  rewrite column_time_in_range by done. apply stored_lt_RFC3339Nano.
Qed.

Lemma timestamp_desc_total x y : timestamp_desc x y = true ∨ timestamp_desc y x = true.
Proof. unfold timestamp_desc. apply String.leb_total. Qed.

Lemma timestamp_desc_trans x y z :
  timestamp_desc x y = true → timestamp_desc y z = true → timestamp_desc x z = true.
Proof. unfold timestamp_desc. intros Hxy Hyz. by eapply string_leb_trans. Qed.

Lemma timestamp_asc_total x y : timestamp_asc x y = true ∨ timestamp_asc y x = true.
Proof. unfold timestamp_asc. apply String.leb_total. Qed.

Lemma timestamp_asc_trans x y z :
  timestamp_asc x y = true → timestamp_asc y z = true → timestamp_asc x z = true.
Proof. unfold timestamp_asc. intros Hxy Hyz. by eapply string_leb_trans. Qed.

Lemma chat_jid_asc_total x y : chat_jid_asc x y = true ∨ chat_jid_asc y x = true.
Proof. unfold chat_jid_asc. apply String.leb_total. Qed.

Lemma chat_jid_asc_trans x y z :
  chat_jid_asc x y = true → chat_jid_asc y z = true → chat_jid_asc x z = true.
Proof. unfold chat_jid_asc. intros Hxy Hyz. by eapply string_leb_trans. Qed.

(** ** Context assembler *)

Lemma elem_of_rows_before s chatJID ts before r :
  r ∈ rows_before s chatJID ts before →
  r ∈ messages_join_chats s ∧ messages_chat_jid r.1 = chatJID
  ∧ timestamp_lt (messages_timestamp r.1) ts = true.
Proof.
  intros Hr. apply elem_of_limit_offset, elem_of_order_by in Hr.
  apply list_elem_of_filter in Hr as [[??] ?]. done.
Qed.

Lemma elem_of_rows_after s chatJID ts after r :
  r ∈ rows_after s chatJID ts after →
  r ∈ messages_join_chats s ∧ messages_chat_jid r.1 = chatJID
  ∧ timestamp_gt (messages_timestamp r.1) ts = true.
Proof.
  intros Hr. apply elem_of_limit_offset, elem_of_order_by in Hr.
  apply list_elem_of_filter in Hr as [[??] ?]. done.
Qed.

Lemma find_target_Some s messageID t :
  find_target s messageID = Some t →
  t ∈ messages_join_chats s ∧ messages_id t.1 = messageID.
Proof.
  unfold find_target, QueryRow. intros Hhd.
  apply head_Some_elem_of in Hhd. rewrite elem_of_order_by in Hhd.
  apply list_elem_of_filter in Hhd as [??]. done.
Qed.

Lemma find_target_is_Some s messageID r :
  r ∈ messages_join_chats s → messages_id r.1 = messageID →
  is_Some (find_target s messageID).
Proof.
  intros Hr Hid. unfold find_target, QueryRow.
  assert (r ∈ order_by chat_jid_asc
                (filter (λ r, messages_id r.1 = messageID) (messages_join_chats s)))
    as Hin by by apply elem_of_order_by, list_elem_of_filter.
  destruct (order_by _ _); [by apply elem_of_nil in Hin|].
  simpl. eauto.
Qed.

Lemma find_target_least s messageID t r :
  find_target s messageID = Some t →
  r ∈ messages_join_chats s → messages_id r.1 = messageID →
  String.leb (messages_chat_jid t.1) (messages_chat_jid r.1) = true.
Proof.
  unfold find_target, QueryRow. intros Hhd Hr Hid.
  apply (head_order_by_first chat_jid_asc _ t r
           chat_jid_asc_total chat_jid_asc_trans Hhd).
  by apply list_elem_of_filter.
Qed.

Lemma getMessageContextRaw_rows s messageID before after :
  getMessageContextRaw s messageID before after
  = match find_target s messageID with
    | None => Err (not_found messageID)
    | Some t =>
        Ok (scan_message <$>
              reverse (rows_before s (messages_chat_jid t.1)
                         (scan_timestamp (messages_timestamp t.1)) before)
              ++ t :: rows_after s (messages_chat_jid t.1)
                        (scan_timestamp (messages_timestamp t.1)) after)
    end.
Proof.
  unfold getMessageContextRaw. destruct (find_target s messageID) as [t|]; [|done].
  cbn zeta. f_equal. by rewrite !fmap_app, fmap_reverse, fmap_cons, <- (assoc_L (++)).
Qed.

(** ** ListMessages *)

Lemma filter_ext_elem {A} (P Q : A → Prop) `{∀ x, Decision (P x)}
    `{∀ x, Decision (Q x)} (l : list A) :
  (∀ x, x ∈ l → P x ↔ Q x) → filter P l = filter Q l.
Proof.
  induction l as [|a l IH]; intros HPQ; [done|].
  rewrite !filter_cons.
  assert (P a ↔ Q a) as Ha by (apply HPQ, list_elem_of_here).
  rewrite IH by (intros x Hx; apply HPQ; by apply list_elem_of_further).
  destruct (decide (P a)), (decide (Q a)); tauto.
Qed.

Lemma emit_context_cons cache res seen m ctx :
  emit_context cache (res, seen) (m :: ctx)
  = if bool_decide (rm_id m ∈ seen) then emit_context cache (res, seen) ctx
    else emit_context cache (res ++ [rawToDict m cache], {[rm_id m]} ∪ seen) ctx.
Proof. unfold emit_context. simpl. by destruct (bool_decide (rm_id m ∈ seen)). Qed.

Lemma first_occurrences_ext ms : ∀ e1 e2,
  (∀ x, x ∈ e1 ↔ x ∈ e2) → first_occurrences e1 ms = first_occurrences e2 ms.
Proof.
  induction ms as [|m ms IH]; intros e1 e2 He; [done|]. simpl.
  rewrite (bool_decide_ext _ _ (He (rm_id m))).
  destruct (bool_decide (rm_id m ∈ e2)); [by apply IH|].
  f_equal. apply IH. intros x. rewrite !elem_of_cons, He. done.
Qed.

Lemma first_occurrences_app a : ∀ e b,
  first_occurrences e (a ++ b)
  = first_occurrences e a ++ first_occurrences (e ++ (rm_id <$> a)) b.
Proof.
  induction a as [|m a IH]; intros e b.
  - simpl. by rewrite app_nil_r.
  - simpl. destruct (bool_decide (rm_id m ∈ e)) eqn:Hin.
    + apply bool_decide_eq_true in Hin. rewrite IH. f_equal.
      apply first_occurrences_ext. intros x.
      rewrite !elem_of_app, elem_of_cons. split; [tauto|].
      intros [?|[->|?]]; tauto.
    + simpl. f_equal. rewrite IH. f_equal.
      apply first_occurrences_ext. intros x.
      rewrite ?elem_of_cons, ?elem_of_app, ?elem_of_cons. tauto.
Qed.

Lemma emit_context_spec cache ctx : ∀ res (seen : gset string) earlier,
  (∀ x, x ∈ seen ↔ x ∈ earlier) →
  emit_context cache (res, seen) ctx
  = (res ++ ((λ m, rawToDict m cache) <$> first_occurrences earlier ctx),
     list_to_set (rm_id <$> ctx) ∪ seen).
Proof.
  induction ctx as [|m ctx IH]; intros res seen earlier Hseen.
  - simpl. rewrite app_nil_r. f_equal. set_solver.
  - rewrite emit_context_cons. simpl first_occurrences.
    rewrite (bool_decide_ext _ _ (Hseen (rm_id m))).
    destruct (bool_decide (rm_id m ∈ earlier)) eqn:Hin.
    + apply bool_decide_eq_true in Hin. rewrite (IH _ _ earlier) by done.
      f_equal. rewrite fmap_cons. apply Hseen in Hin. set_solver.
    + rewrite (IH _ _ (rm_id m :: earlier)).
      * rewrite fmap_cons, <- (assoc_L (++)). simpl. f_equal. set_solver.
      * intros x. rewrite elem_of_union, elem_of_singleton, elem_of_cons, Hseen. done.
Qed.

Lemma expand_matches_spec s cache cb ca msgs : ∀ res (seen : gset string) earlier,
  (∀ x, x ∈ seen ↔ x ∈ earlier) →
  (foldl (λ st msg,
            match getMessageContextRaw s (rm_id msg) cb ca with
            | Err _ => st
            | Ok ctx => emit_context cache st ctx
            end) (res, seen) msgs).1
  = res ++ ((λ m, rawToDict m cache)
              <$> first_occurrences earlier (concat (context_windows s cb ca msgs))).
Proof.
  induction msgs as [|msg msgs IH]; intros res seen earlier Hseen.
  - simpl. by rewrite app_nil_r.
  - unfold context_windows. rewrite fmap_cons. fold (context_windows s cb ca msgs).
    cbn [foldl concat].
    destruct (getMessageContextRaw s (rm_id msg) cb ca) as [ctx|e] eqn:Hctx.
    + rewrite (emit_context_spec _ _ _ _ earlier) by done.
      rewrite (IH _ _ (earlier ++ (rm_id <$> ctx))).
      * by rewrite first_occurrences_app, fmap_app, (assoc_L (++)).
      * intros x. rewrite elem_of_union, elem_of_list_to_set, elem_of_app, Hseen.
        tauto.
    + simpl. by apply IH.
Qed.

Lemma emit_context_inv cache ctx : ∀ res (seen : gset string),
  NoDup (ID <$> res) → (∀ x, x ∈ ID <$> res → x ∈ seen) →
  NoDup (ID <$> (emit_context cache (res, seen) ctx).1)
  ∧ (∀ x, x ∈ ID <$> (emit_context cache (res, seen) ctx).1 →
          x ∈ (emit_context cache (res, seen) ctx).2).
Proof.
  induction ctx as [|m ctx IH]; intros res seen Hnd Hsub; [done|].
  rewrite emit_context_cons.
  destruct (bool_decide (rm_id m ∈ seen)) eqn:Hin; [by apply IH|].
  apply bool_decide_eq_false in Hin. apply IH.
  - rewrite fmap_app. apply NoDup_app. split_and!; [done| |apply NoDup_singleton].
    intros x Hx ->%list_elem_of_singleton. apply Hin. by apply Hsub.
  - intros x. rewrite fmap_app, elem_of_app. simpl.
    rewrite list_elem_of_singleton. intros [Hx| ->]; [|set_solver].
    apply Hsub in Hx. set_solver.
Qed.

Lemma expand_matches_NoDup s cache cb ca msgs :
  NoDup (ID <$> (expand_matches s cache cb ca msgs).1).
Proof.
  unfold expand_matches.
  assert (∀ st : list MessageDict * gset string,
            NoDup (ID <$> st.1) → (∀ x, x ∈ ID <$> st.1 → x ∈ st.2) →
            NoDup (ID <$> (foldl (λ st msg,
                      match getMessageContextRaw s (rm_id msg) cb ca with
                      | Err _ => st
                      | Ok ctx => emit_context cache st ctx
                      end) st msgs).1)) as Hgen.
  { induction msgs as [|msg msgs IH]; intros [res seen] Hnd Hsub; [done|].
    simpl. destruct (getMessageContextRaw s (rm_id msg) cb ca) as [ctx|e].
    - destruct (emit_context_inv cache ctx res seen Hnd Hsub) as [H1 H2].
      by apply IH.
    - by apply IH. }
  apply Hgen; simpl; [constructor|]. intros x Hx. by apply elem_of_nil in Hx.
Qed.

Lemma ListMessages_with_context s opts :
  lm_IncludeContext opts = true →
  ListMessages s opts
  = Ok (expand_matches s (BuildSenderCache s)
          (if lm_ContextBefore opts =? 0 then 1 else lm_ContextBefore opts)
          (if lm_ContextAfter opts =? 0 then 1 else lm_ContextAfter opts)
          (ListMessages_rows s opts
             (if lm_Limit opts =? 0 then 20 else lm_Limit opts))).1.
Proof.
  intros Hctx. unfold ListMessages. rewrite Hctx. simpl.
  destruct (ListMessages_rows _ _ _) as [|m msgs] eqn:E; [done|].
  by destruct (0 <? _) eqn:Hlen.
Qed.

Lemma ListMessages_without_context s opts :
  lm_IncludeContext opts = false →
  ListMessages s opts
  = Ok ((λ m, rawToDict m (BuildSenderCache s))
          <$> ListMessages_rows s opts
                (if lm_Limit opts =? 0 then 20 else lm_Limit opts)).
Proof. intros Hctx. unfold ListMessages. by rewrite Hctx. Qed.

Lemma joined_row_chat s r :
  r ∈ messages_join_chats s → chats_jid r.2 = messages_chat_jid r.1.
Proof.
  destruct r as [m c]. intros Hr.
  by apply elem_of_messages_join_chats in Hr as (_ & _ & ?).
Qed.

Lemma rawToDict_scan_inj s cache x y :
  wf_store s → x ∈ messages_join_chats s → y ∈ messages_join_chats s →
  rawToDict (scan_message x) cache = rawToDict (scan_message y) cache → x = y.
Proof.
  intros Hwf Hx Hy Heq.
  eapply (NoDup_fmap_inj_on message_key); [by apply join_keys_NoDup|done|done|].
  unfold message_key.
  rewrite <- (joined_row_chat s x), <- (joined_row_chat s y) by done.
  assert (ID (rawToDict (scan_message x) cache) = ID (rawToDict (scan_message y) cache))
    as Hid by by rewrite Heq.
  assert (ChatJID (rawToDict (scan_message x) cache)
          = ChatJID (rawToDict (scan_message y) cache)) as Hchat by by rewrite Heq.
  simpl in Hid, Hchat. congruence.
Qed.

Lemma ListMessages_rows_unfiltered s limit page ctx cb ca Limit :
  ListMessages_rows s (unfiltered limit page ctx cb ca) Limit
  = scan_message <$>
      limit_offset Limit (wrap64 (page * Limit))
        (order_by timestamp_desc
           (filter (λ r, ListMessages_where (unfiltered 0 0 false 0 0) r)
              (messages_join_chats s))).
Proof. reflexivity. Qed.

(** C7, as the code has it: with context expansion switched off, the pages 0
    and 1 of size 2 of the unfiltered listing are disjoint and their
    concatenation is the page 0 of size 4. *)
Theorem ListMessages_pages_concatenate (s : Store) (cb ca : Z) :
  wf_store s →
  ∃ p0 p1,
    ListMessages s (unfiltered 2 0 false cb ca) = Ok p0
    ∧ ListMessages s (unfiltered 2 1 false cb ca) = Ok p1
    ∧ ListMessages s (unfiltered 4 0 false cb ca) = Ok (p0 ++ p1)
    ∧ (∀ d, d ∈ p0 → d ∉ p1).
Proof.
  intros Hwf.
  rewrite !ListMessages_without_context by done. simpl lm_Limit.
  change (if 2 =? 0 then 20 else 2) with 2. change (if 4 =? 0 then 20 else 4) with 4.
  rewrite !ListMessages_rows_unfiltered.
  set (L := order_by timestamp_desc _).
  change (wrap64 (0 * 2)) with 0. change (wrap64 (1 * 2)) with 2.
  change (wrap64 (0 * 4)) with 0.
  unfold limit_offset.
  change (2 <? 0) with false. change (4 <? 0) with false. cbn iota.
  change (Z.to_nat 0) with 0%nat. change (Z.to_nat 2) with 2%nat.
  change (Z.to_nat 4) with 4%nat. rewrite !drop_0.
  rewrite <- !list_fmap_compose.
  set (f := (λ m, rawToDict m (BuildSenderCache s)) ∘ scan_message).
  assert (f <$> take 4 L = (f <$> take 2 L) ++ (f <$> take 2 (drop 2 L))) as Hcat
    by by rewrite <- fmap_app, take_take_drop.
  eexists _, _. split_and!; [done|done|by rewrite Hcat|].
  assert (NoDup (f <$> take 4 L)) as Hnd.
  { apply NoDup_fmap_2_strong.
    - assert (∀ r, r ∈ take 4 L → r ∈ messages_join_chats s) as Hin.
      { intros r Hr. eapply elem_of_sublist in Hr; [|apply sublist_take].
        apply elem_of_order_by, list_elem_of_filter in Hr as [_ ?]. done. }
      intros x y Hx%Hin Hy%Hin Hxy.
      by apply (rawToDict_scan_inj s (BuildSenderCache s)).
    - eapply sublist_NoDup; [|apply sublist_take].
      unfold L. rewrite order_by_Permutation. apply NoDup_filter.
      by apply join_NoDup. }
  rewrite Hcat in Hnd. apply NoDup_app in Hnd as (_ & Hdisj & _). exact Hdisj.
Qed.

Lemma ListMessages_pages_concatenate_witness :
  ∃ p0 p1,
    ListMessages scenario_thread (unfiltered 2 0 false 1 1) = Ok p0
    ∧ ListMessages scenario_thread (unfiltered 2 1 false 1 1) = Ok p1
    ∧ ListMessages scenario_thread (unfiltered 4 0 false 1 1) = Ok (p0 ++ p1)
    ∧ (∀ d, d ∈ p0 → d ∉ p1).
Proof.
  apply (ListMessages_pages_concatenate scenario_thread 1 1).
  apply replay_wf, new_store_wf.
Defined.

(** The expanded pages of the four-message thread.  All four messages are of
    one day, so the window of each match holds, before the match, the latest
    message of the day. *)
Lemma scenario_thread_pages :
  ID <$> result_list (ListMessages scenario_thread (unfiltered 2 0 true 1 1))
    = ["m4"; "m3"]
  ∧ ID <$> result_list (ListMessages scenario_thread (unfiltered 2 1 true 1 1))
    = ["m4"; "m2"; "m1"]
  ∧ ID <$> result_list (ListMessages scenario_thread (unfiltered 4 0 true 1 1))
    = ["m4"; "m3"; "m2"; "m1"].
Proof. split_and!; vm_compute; reflexivity. Qed.

(** C7, as the claim words it, fails under the default [includeContext =
    true]: the expanded pages overlap and their concatenation is not the
    expanded page of size 4. *)
Lemma ListMessages_pages_with_context :
  ¬ ∃ p0 p1,
      ListMessages scenario_thread (unfiltered 2 0 true 1 1) = Ok p0
      ∧ ListMessages scenario_thread (unfiltered 2 1 true 1 1) = Ok p1
      ∧ ListMessages scenario_thread (unfiltered 4 0 true 1 1) = Ok (p0 ++ p1)
      ∧ (∀ d, d ∈ p0 → d ∉ p1).
Proof.
  intros (p0 & p1 & H0 & H1 & H4 & _).
  destruct scenario_thread_pages as (E0 & E1 & E4).
  rewrite H0 in E0. rewrite H1 in E1. rewrite H4 in E4. simpl in E0, E1, E4.
  rewrite fmap_app, E0, E1 in E4. discriminate.
Qed.

(** The expanded second page of the four-day thread: the window of d2 is
    d2 (its own nearest "earlier" row), d2, d3; that of d1 is d1, d1, d2. *)
Lemma scenario_days_page :
  ID <$> result_list (ListMessages scenario_days (unfiltered 2 1 true 1 1))
  = ["d2"; "d3"; "d1"].
Proof. vm_compute. reflexivity. Qed.




(** C10, as the code has it: context expansion identifies messages by id
    alone.  The target of a window is, among the stored rows with the
    requested id, the one whose chat key is least in byte order, whatever
    its chat and whatever the storage order, and the window is taken from
    that row's chat; an answer with context never holds two messages with
    the same id; in the archive where two chats each hold a message "x",
    listing chat b answers with chat a's message only. *)
Theorem context_expansion_by_id_alone :
  (∀ s messageID before after ctx,
     getMessageContextRaw s messageID before after = Ok ctx →
     ∃ t,
       t ∈ messages_join_chats s
       ∧ messages_id t.1 = messageID
       ∧ (∀ r, r ∈ messages_join_chats s → messages_id r.1 = messageID →
               String.leb (messages_chat_jid t.1) (messages_chat_jid r.1) = true)
       ∧ scan_message t ∈ ctx
       ∧ ∀ m, m ∈ ctx → rm_chatJID m = chats_jid t.2)
  ∧ (∀ s opts result d1 d2,
       lm_IncludeContext opts = true → ListMessages s opts = Ok result →
       d1 ∈ result → d2 ∈ result → ID d1 = ID d2 → d1 = d2)
  ∧ (rm_chatJID <$> ListMessages_rows scenario_shared_id (in_chat "b@s.whatsapp.net") 20
       = ["b@s.whatsapp.net"]
     ∧ (λ d, (ID d, ChatJID d))
         <$> result_list (ListMessages scenario_shared_id (in_chat "b@s.whatsapp.net"))
       = [("x", "a@s.whatsapp.net")]).
Proof.
  split_and!.
  - intros s messageID before after ctx. rewrite getMessageContextRaw_rows.
    destruct (find_target s messageID) as [t|] eqn:Ht; [|done].
    intros [= <-]. pose proof (find_target_Some _ _ _ Ht) as [Htin Htid].
    exists t. split_and!; [done|done| | |].
    + intros r Hr Hid. by eapply find_target_least.
    + apply list_elem_of_fmap_2, elem_of_app. right. apply list_elem_of_here.
    + intros m (r & -> & Hr)%list_elem_of_fmap. simpl.
      rewrite (joined_row_chat s t Htin).
      rewrite elem_of_app, elem_of_reverse, elem_of_cons in Hr.
      destruct Hr as [Hr|Hr].
      * apply elem_of_rows_before in Hr as (Hin & <- & _).
        by apply (joined_row_chat s).
      * destruct Hr as [->|Hr]; [by apply (joined_row_chat s)|].
        apply elem_of_rows_after in Hr as (Hin & <- & _).
        by apply (joined_row_chat s).
  - intros s opts result d1 d2 Hctx Hres Hd1 Hd2 Hid.
    rewrite ListMessages_with_context in Hres by done. injection Hres as <-.
    eapply (NoDup_fmap_inj_on ID); [apply expand_matches_NoDup|done|done|done].
  - vm_compute. done.
  - vm_compute. done.
Qed.

Lemma context_expansion_by_id_alone_witness :
  ∃ t,
    t ∈ messages_join_chats scenario_shared_id
    ∧ messages_id t.1 = "x"
    ∧ (∀ r, r ∈ messages_join_chats scenario_shared_id → messages_id r.1 = "x" →
            String.leb (messages_chat_jid t.1) (messages_chat_jid r.1) = true)
    ∧ scan_message t ∈ result_list (getMessageContextRaw scenario_shared_id "x" 1 1)
    ∧ ∀ m, m ∈ result_list (getMessageContextRaw scenario_shared_id "x" 1 1) →
           rm_chatJID m = chats_jid t.2.
Proof.
  apply (proj1 context_expansion_by_id_alone scenario_shared_id "x" 1 1).
  vm_compute. reflexivity.
Defined.

(** C10, as the claim words it, fails: the storage order does not decide
    the target.  Chat b's message "x" is stored first in one archive and
    last in the other, and in both the target is chat a's message. *)
Lemma context_target_not_by_storage_order :
  messages_chat_jid <$> head (filter (λ m, messages_id m = "x")
                                (messages scenario_shared_id))
    = Some "b@s.whatsapp.net"
  ∧ messages_chat_jid <$> head (filter (λ m, messages_id m = "x")
                                  (messages scenario_shared_id_a_first))
    = Some "a@s.whatsapp.net"
  ∧ (messages_chat_jid ∘ fst) <$> find_target scenario_shared_id "x"
    = Some "a@s.whatsapp.net"
  ∧ (messages_chat_jid ∘ fst) <$> find_target scenario_shared_id_a_first "x"
    = Some "a@s.whatsapp.net".
Proof. split_and!; vm_compute; reflexivity. Qed.

(** ** GetMessageContext *)

Lemma stored_message_joined s m :
  wf_store s → m ∈ messages s → ∃ c, (m, c) ∈ messages_join_chats s.
Proof.
  intros [_ _ Hfk] Hm. specialize (Hfk m Hm).
  apply list_elem_of_fmap in Hfk as (c & Hjid & Hc).
  exists c. by apply elem_of_messages_join_chats.
Qed.

(** C3 fails in the code.  The target's timestamp is scanned into a Go
    string, which reads ["2024-03-01T10:00:02Z"], and bound against the
    stored texts, which read ["2024-03-01 10:00:02+00:00"]: every message
    of the target's day, the target and later ones included, compares
    smaller, and none compares greater.  In the four-message thread the
    window of m2 with one neighbour each way has m4 before the target and
    nothing after it; with the default of five, [before] is the whole
    thread. *)
Theorem GetMessageContext_same_day :
  (∃ ctx, GetMessageContext scenario_thread "m2" 1 1 = Ok ctx
          ∧ ID (Message ctx) = "m2"
          ∧ ID <$> Before ctx = ["m4"]
          ∧ After ctx = [])
  ∧ (∃ ctx, GetMessageContext scenario_thread "m2" 0 0 = Ok ctx
            ∧ ID <$> Before ctx = ["m1"; "m2"; "m3"; "m4"]
            ∧ After ctx = [])
  ∧ (∃ ctx, GetMessageContext scenario_days "d2" 1 1 = Ok ctx
            ∧ ID <$> Before ctx = ["d2"]
            ∧ ID <$> After ctx = ["d3"]).
Proof. split_and!; eexists; (split; [vm_compute; reflexivity|]); done. Qed.

(** ** GetContactChats *)

Lemma elem_of_chats_join_messages s c m :
  (c, m) ∈ chats_join_messages s
  ↔ c ∈ chats s ∧ m ∈ messages s ∧ chats_jid c = messages_chat_jid m.
Proof.
  unfold chats_join_messages. rewrite list_elem_of_bind. split.
  - intros (c' & Hin & Hc'). apply list_elem_of_bind in Hin as (m' & Hin & Hm').
    apply list_elem_of_singleton in Hin as [= -> ->].
    apply list_elem_of_filter in Hm' as [??]. done.
  - intros (Hc & Hm & Hjid). exists c. split; [|done].
    apply list_elem_of_bind. exists m. split; [apply list_elem_of_here|].
    by apply list_elem_of_filter.
Qed.

Lemma elem_of_GetContactChats_rows s jid r :
  r ∈ GetContactChats_rows s jid
  ↔ ∃ c m, r = scan_contact_chat (c, m) ∧ c ∈ chats s ∧ m ∈ messages s
           ∧ chats_jid c = messages_chat_jid m
           ∧ (messages_sender m = jid ∨ chats_jid c = jid).
Proof.
  unfold GetContactChats_rows.
  rewrite elem_of_remove_dups, list_elem_of_fmap. split.
  - intros ([c m] & -> & Hr). rewrite elem_of_order_by in Hr.
    apply list_elem_of_filter in Hr as [Hw Hr].
    apply elem_of_chats_join_messages in Hr as (? & ? & ?). by exists c, m.
  - intros (c & m & -> & Hc & Hm & Hjid & Hw). exists (c, m). split; [done|].
    rewrite elem_of_order_by. apply list_elem_of_filter. split; [done|].
    by apply elem_of_chats_join_messages.
Qed.

Lemma fmap_limit_offset {A B} (f : A → B) lim off (l : list A) :
  f <$> limit_offset lim off l = limit_offset lim off (f <$> l).
Proof.
  unfold limit_offset. destruct (lim <? 0); by rewrite ?fmap_take, fmap_drop.
Qed.

Lemma GetContactChats_unlimited s jid :
  GetContactChats s jid (-1) 0
  = Ok ((λ r, toDict r (BuildSenderCache s)) <$> GetContactChats_rows s jid).
Proof. reflexivity. Qed.

(** C4, as the code has it: the answer is the limit/page window of the views
    of the joined rows; a chat is among them exactly when it has a stored
    message and the identifier is the chat key or the sender of a message of
    that chat.  A chat without stored messages is never returned. *)
Theorem GetContactChats_joined_chats (s : Store) (jid : string) (limit page : Z) :
  (∃ result,
     GetContactChats s jid limit page = Ok result
     ∧ result
       = limit_offset (if limit =? 0 then 20 else limit)
           (wrap64 (page * (if limit =? 0 then 20 else limit)))
           (result_list (GetContactChats s jid (-1) 0))
     ∧ ∀ d, d ∈ result →
         ∃ c m, c ∈ chats s ∧ m ∈ messages s ∧ Chat_JID d = chats_jid c
                ∧ messages_chat_jid m = chats_jid c
                ∧ (messages_sender m = jid ∨ chats_jid c = jid))
  ∧ (∀ c m, c ∈ chats s → m ∈ messages s → messages_chat_jid m = chats_jid c →
            messages_sender m = jid ∨ chats_jid c = jid →
            chats_jid c ∈ Chat_JID <$> result_list (GetContactChats s jid (-1) 0)).
Proof.
  rewrite GetContactChats_unlimited. simpl. split.
  - eexists. split; [done|]. split; [by rewrite fmap_limit_offset|].
    intros d (r & -> & Hr)%list_elem_of_fmap.
    apply elem_of_limit_offset, elem_of_GetContactChats_rows in Hr
      as (c & m & -> & Hc & Hm & Hjid & Hw).
    by exists c, m.
  - intros c m Hc Hm Hjid Hw. rewrite <- list_fmap_compose.
    apply list_elem_of_fmap. exists (scan_contact_chat (c, m)). split; [done|].
    apply elem_of_GetContactChats_rows. by exists c, m.
Qed.

Lemma GetContactChats_joined_chats_witness :
  "c@s.whatsapp.net"
  ∈ Chat_JID <$> result_list (GetContactChats scenario_thread "a" (-1) 0).
Proof.
  apply (proj2 (GetContactChats_joined_chats scenario_thread "a" 20 0)
           {| chats_jid := "c@s.whatsapp.net"; chats_name := Some "C";
              chats_last_message_time := Some (at_second 4) |}
           {| messages_id := "m2"; messages_chat_jid := "c@s.whatsapp.net";
              messages_sender := "a"; messages_content := Some "two";
              messages_timestamp := at_second 2; messages_is_from_me := false;
              messages_media_type := Some ""; messages_filename := "";
              messages_url := ""; messages_media_key := [];
              messages_file_sha256 := []; messages_file_enc_sha256 := [];
              messages_file_length := 0 |}).
  - by_compute.
  - by_compute.
  - reflexivity.
  - left. reflexivity.
Defined.

(** C4, as the claim words it, fails for a chat whose key is the identifier
    but which holds no stored message: the inner join drops it. *)
Lemma GetContactChats_chat_without_messages :
  "111@s.whatsapp.net" ∈ chats_jid <$> chats scenario_quiet
  ∧ GetContactChats scenario_quiet "111@s.whatsapp.net" 20 0 = Ok [].
Proof. split; [by_compute|vm_compute; reflexivity]. Qed.

(** ** LIKE and substring search *)

Lemma ascii_tolower_idemp c : ascii_tolower (ascii_tolower c) = ascii_tolower c.
Proof. ascii_cases c. Qed.

Lemma ascii_tolower_percent c : Ascii.eqb (ascii_tolower c) "%" = Ascii.eqb c "%".
Proof. ascii_cases c. Qed.

Lemma ascii_tolower_underscore c : Ascii.eqb (ascii_tolower c) "_" = Ascii.eqb c "_".
Proof. ascii_cases c. Qed.

Lemma like_percent p s :
  like_bytes ("%"%char :: p) s
  = like_bytes p s || match s with [] => false | _ :: s' => like_bytes ("%"%char :: p) s' end.
Proof. destruct s; reflexivity. Qed.

Lemma like_literal c p s :
  Ascii.eqb c "%" = false → Ascii.eqb c "_" = false →
  like_bytes (c :: p) s
  = match s with
    | d :: s' => Ascii.eqb (ascii_tolower c) (ascii_tolower d) && like_bytes p s'
    | [] => false
    end.
Proof. intros H1 H2. simpl. by rewrite H1, H2. Qed.

Lemma like_percent_only s : like_bytes ["%"%char] s = true.
Proof.
  induction s as [|d s IH]; [done|].
  rewrite like_percent, IH. apply orb_true_r.
Qed.

Lemma like_percent_app p a s :
  like_bytes p s = true → like_bytes ("%"%char :: p) (a ++ s) = true.
Proof.
  intros Hp. induction a as [|d a IH]; simpl app.
  - rewrite like_percent, Hp. done.
  - rewrite like_percent, IH. apply orb_true_r.
Qed.

Lemma like_prefix q : ∀ v,
  forallb (λ c, negb (Ascii.eqb c "%") && negb (Ascii.eqb c "_")) q = true →
  like_bytes (lower_bytes q ++ ["%"%char]) (lower_bytes v)
  = is_prefix (lower_bytes q) (lower_bytes v).
Proof.
  induction q as [|c q IH]; intros v Hq.
  - apply like_percent_only.
  - simpl in Hq. apply andb_true_iff in Hq as [Hc Hq].
    apply andb_true_iff in Hc as [Hc1 Hc2].
    apply negb_true_iff in Hc1, Hc2.
    unfold lower_bytes. rewrite fmap_cons. fold (lower_bytes q). simpl app.
    rewrite like_literal by by rewrite ?ascii_tolower_percent, ?ascii_tolower_underscore.
    destruct v as [|d v]; [done|].
    rewrite fmap_cons. fold (lower_bytes v). simpl is_prefix.
    by rewrite !ascii_tolower_idemp, IH.
Qed.

Lemma like_infix q v :
  forallb (λ c, negb (Ascii.eqb c "%") && negb (Ascii.eqb c "_")) q = true →
  like_bytes ("%"%char :: lower_bytes q ++ ["%"%char]) (lower_bytes v)
  = is_infix (lower_bytes q) (lower_bytes v).
Proof.
  intros Hq. induction v as [|d v IH].
  - rewrite like_percent, like_prefix by done. done.
  - pose proof (like_prefix q (d :: v) Hq) as Hpre.
    change (lower_bytes (d :: v)) with (ascii_tolower d :: lower_bytes v) in *.
    rewrite like_percent, Hpre, IH. done.
Qed.

Lemma bytes_append a b :
  list_ascii_of_string (a +:+ b) = list_ascii_of_string a ++ list_ascii_of_string b.
Proof. induction a as [|c a IH]; simpl; [done|]. by rewrite IH. Qed.

Lemma bytes_LOWER_pattern query :
  list_ascii_of_string (LOWER ("%" +:+ query +:+ "%"))
  = "%"%char :: lower_bytes (list_ascii_of_string query) ++ ["%"%char].
Proof.
  unfold LOWER. rewrite list_ascii_of_string_of_list_ascii.
  change ("%" +:+ query +:+ "%") with (String "%" (query +:+ "%")).
  cbn [list_ascii_of_string]. rewrite bytes_append.
  unfold lower_bytes. by rewrite fmap_cons, fmap_app.
Qed.

Lemma LIKE_LOWER_contains query x :
  wildcard_free query = true →
  LIKE (LOWER <$> x) (LOWER ("%" +:+ query +:+ "%")) = contains_nocase query x.
Proof.
  intros Hq. destruct x as [v|]; [|done].
  change (LOWER <$> Some v) with (Some (LOWER v)). unfold LIKE, contains_nocase.
  rewrite bytes_LOWER_pattern. unfold LOWER.
  rewrite list_ascii_of_string_of_list_ascii. by apply like_infix.
Qed.

Lemma substring_all s : String.substring 0 (String.length s) s = s.
Proof. induction s as [|c s IH]; [done|]. simpl. by rewrite IH. Qed.

Lemma substring_suffix s : ∀ n, (n ≤ String.length s)%nat →
  ∃ a, list_ascii_of_string s
       = a ++ list_ascii_of_string (String.substring n (String.length s - n) s).
Proof.
  induction s as [|c s IH]; intros n Hn.
  - exists []. simpl in Hn. by replace n with 0%nat by lia.
  - destruct n as [|n].
    + exists []. rewrite Nat.sub_0_r, substring_all. done.
    + simpl in Hn. destruct (IH n ltac:(lia)) as [a Ha].
      exists (c :: a). cbn [String.length Nat.sub String.substring list_ascii_of_string].
      rewrite Ha at 1. done.
Qed.

Lemma HasSuffix_bytes s suffix :
  strings_HasSuffix s suffix = true →
  ∃ a, list_ascii_of_string s = a ++ list_ascii_of_string suffix.
Proof.
  unfold strings_HasSuffix, slice_from, len.
  intros [Hlen Heq%String.eqb_eq]%andb_true_iff. apply Z.leb_le in Hlen.
  destruct (substring_suffix s (String.length s - String.length suffix)%nat
              ltac:(lia)) as [a Ha].
  exists a. rewrite Ha. do 2 f_equal. rewrite <- Heq at 3. f_equal; lia.
Qed.

Lemma group_key_LIKE jid :
  strings_HasSuffix jid "@g.us" = true → LIKE (Some jid) "%@g.us" = true.
Proof.
  intros [a Ha]%HasSuffix_bytes. unfold LIKE. rewrite Ha.
  by apply like_percent_app.
Qed.

(** ** SearchContacts *)

Lemma compare_null_antisym x y : compare_null x y = CompOpp (compare_null y x).
Proof. destruct x, y; simpl; try done. apply String.compare_antisym. Qed.

Lemma name_jid_le_total x y : name_jid_le x y = true ∨ name_jid_le y x = true.
Proof.
  unfold name_jid_le. rewrite (compare_null_antisym y.2 x.2).
  destruct (compare_null x.2 y.2); simpl; auto. apply String.leb_total.
Qed.

Lemma elem_of_SearchContacts_rows s query row :
  row ∈ SearchContacts_rows s query →
  ∃ c, c ∈ chats s ∧ row = (chats_jid c, chats_name c)
       ∧ SearchContacts_where ("%" +:+ query +:+ "%") c = true.
Proof.
  unfold SearchContacts_rows. intros Hrow.
  apply elem_of_limit_offset in Hrow.
  rewrite elem_of_order_by, elem_of_remove_dups in Hrow.
  apply list_elem_of_fmap in Hrow as (c & -> & Hc).
  apply list_elem_of_filter in Hc as [Hw Hc]. exists c. split_and!; [done|done|].
  by apply Is_true_true.
Qed.

Lemma scan_contact_row row :
  (Contact_JID (scan_contact row), Contact_Name (scan_contact row)) = row.
Proof. by destruct row. Qed.

Lemma scan_contact_rows (rows : list (string * option string)) :
  (λ d, (Contact_JID d, Contact_Name d)) <$> (scan_contact <$> rows) = rows.
Proof.
  rewrite <- list_fmap_compose. rewrite <- (list_fmap_id rows) at 2.
  apply list_fmap_ext. intros i row _. apply scan_contact_row.
Qed.

Lemma remove_dups_length {A} `{EqDecision A} (l : list A) :
  (length (remove_dups l) ≤ length l)%nat.
Proof.
  apply submseteq_length, NoDup_submseteq; [apply NoDup_remove_dups|].
  intros x. by rewrite elem_of_remove_dups.
Qed.

Lemma SearchContacts_rows_NoDup s query : NoDup (SearchContacts_rows s query).
Proof.
  unfold SearchContacts_rows.
  eapply sublist_NoDup; [|apply limit_offset_sublist].
  rewrite order_by_Permutation. apply NoDup_remove_dups.
Qed.




(** * Further properties of the archive *)

(** ** Upserts *)

Lemma filter_upsert_same {A} (P : A → Prop) `{∀ x, Decision (P x)} (l : list A) row row' :
  ¬ P row →
  filter P (filter P l ++ [row]) ++ [row'] = filter P l ++ [row'].
Proof.
  intros Hrow. rewrite filter_app, list_filter_filter, filter_cons, decide_False by done.
  rewrite filter_nil, app_nil_r. f_equal. apply filter_ext_elem. tauto.
Qed.

(** X1: storing a message twice under one (id, chat) key leaves the archive
    as if only the second call had been made, whenever the second call
    carries text content or a media type and a file length that fits a
    signed 64-bit integer. *)
Theorem StoreMessage_last_write_wins (s : Store) (id chatJID : string)
    (sender1 content1 : string) (ts1 : Time) (me1 : bool) (mt1 fn1 url1 : string)
    (k1 h1 e1 : list Byte.byte) (n1 : Z)
    (sender2 content2 : string) (ts2 : Time) (me2 : bool) (mt2 fn2 url2 : string)
    (k2 h2 e2 : list Byte.byte) (n2 : Z) :
  content2 ≠ "" ∨ mt2 ≠ "" → n2 < 2 ^ 63 →
  StoreMessage
    (StoreMessage s id chatJID sender1 content1 ts1 me1 mt1 fn1 url1 k1 h1 e1 n1).1
    id chatJID sender2 content2 ts2 me2 mt2 fn2 url2 k2 h2 e2 n2
  = StoreMessage s id chatJID sender2 content2 ts2 me2 mt2 fn2 url2 k2 h2 e2 n2.
Proof.
  intros Hpayload Hn2.
  assert (String.eqb content2 "" && String.eqb mt2 "" = false) as H2.
  { apply andb_false_iff. rewrite !String.eqb_neq. tauto. }
  assert ((2 ^ 63 <=? n2) = false) as Hfit by (apply Z.leb_gt; lia).
  unfold StoreMessage at 2.
  destruct (String.eqb content1 "" && String.eqb mt1 ""); [done|].
  destruct (2 ^ 63 <=? n1); [done|].
  destruct (chat_exists s chatJID) eqn:Hex; [|done].
  unfold StoreMessage. rewrite H2, Hfit. unfold chat_exists in *. simpl.
  rewrite Hex. unfold with_messages. simpl. do 2 f_equal.
  apply (filter_upsert_same
           (λ m, (messages_id m, messages_chat_jid m) ≠ (id, chatJID))).
  simpl. tauto.
Qed.

Lemma StoreMessage_last_write_wins_witness :
  StoreMessage
    (StoreMessage scenario_thread "m1" "c@s.whatsapp.net" "a" "one" (at_second 1)
       false "" "" "" [] [] [] 0).1
    "m1" "c@s.whatsapp.net" "a" "uno" (at_second 1) false "" "" "" [] [] [] 0
  = StoreMessage scenario_thread "m1" "c@s.whatsapp.net" "a" "uno" (at_second 1)
      false "" "" "" [] [] [] 0.
Proof. apply StoreMessage_last_write_wins; [left; discriminate|lia]. Defined.

(** X2: storing a chat twice under one key leaves the archive as if only the
    second call had been made; the call never fails and never touches the
    messages. *)
Theorem StoreChat_last_write_wins (s : Store) (jid name1 name2 : string)
    (t1 t2 : Time) :
  StoreChat (StoreChat s jid name1 t1).1 jid name2 t2 = StoreChat s jid name2 t2
  ∧ (StoreChat s jid name1 t1).2 = None
  ∧ messages (StoreChat s jid name1 t1).1 = messages s
  ∧ filter (λ c, chats_jid c ≠ jid) (chats (StoreChat s jid name1 t1).1)
    = filter (λ c, chats_jid c ≠ jid) (chats s).
Proof.
  split_and!; [|done|done|].
  - unfold StoreChat, with_chats. simpl. do 2 f_equal.
    apply (filter_upsert_same (λ c, chats_jid c ≠ jid)). simpl. tauto.
  - simpl. rewrite filter_app, list_filter_filter, filter_cons, decide_False
      by (simpl; tauto).
    rewrite filter_nil, app_nil_r. apply filter_ext_elem. tauto.
Qed.

(** ** Media descriptors *)

Lemma filter_key_after_upsert {A K} `{EqDecision K} (key : A → K) (k : K)
    (l : list A) (row : A) :
  key row = k →
  filter (λ x, key x = k) (filter (λ x, key x ≠ k) l ++ [row]) = [row].
Proof.
  intros Hrow. rewrite filter_app, list_filter_filter, filter_cons, decide_True by done.
  rewrite filter_nil.
  replace (filter (λ x, key x = k ∧ key x ≠ k) l) with (@nil A); [done|].
  symmetry. induction l as [|a l IH]; [done|].
  rewrite filter_cons, decide_False by tauto. done.
Qed.

Lemma filter_other_key_after_upsert {A K} `{EqDecision K} (key : A → K) (k k' : K)
    (l : list A) (row : A) :
  key row = k → k' ≠ k →
  filter (λ x, key x = k') (filter (λ x, key x ≠ k) l ++ [row])
  = filter (λ x, key x = k') l.
Proof.
  intros Hrow Hne. rewrite filter_app, list_filter_filter, filter_cons, decide_False
    by congruence.
  rewrite filter_nil, app_nil_r. apply filter_ext_elem. intros x _.
  split; [tauto|]. intros Hx. split; [done|congruence].
Qed.

Lemma GetMediaInfo_by_key s messageID chatJID :
  GetMediaInfo s messageID chatJID
  = match QueryRow (filter (λ m, (messages_id m, messages_chat_jid m)
                                 = (messageID, chatJID)) (messages s)) with
    | None => Err (StorageFailure "sql: no rows in result set")
    | Some m =>
        match messages_media_type m with
        | None => Err (StorageFailure "converting NULL to string is unsupported")
        | Some mediaType =>
            Ok {| mi_url := messages_url m;
                  mi_mediaKey := messages_media_key m;
                  mi_fileSHA256 := messages_file_sha256 m;
                  mi_fileEncSHA256 := messages_file_enc_sha256 m;
                  mi_fileLength := messages_file_length m;
                  mi_mediaType := mediaType;
                  mi_filename := messages_filename m |}
        end
    end.
Proof.
  unfold GetMediaInfo.
  rewrite (filter_ext_elem
             (λ m, messages_id m = messageID ∧ messages_chat_jid m = chatJID)
             (λ m, (messages_id m, messages_chat_jid m) = (messageID, chatJID))); [done|].
  intros m _. split; [intros [-> ->]; done|intros [= -> ->]; done].
Qed.

(** X3: a media descriptor stored with a message is returned verbatim by
    [GetMediaInfo] under the same (id, chat) key, provided the file length
    fits a signed 64-bit integer; the lookups of every other key are
    unchanged by the store, and a key that no row has is an error.  A file
    length with the high bit set is refused and nothing is stored. *)
Theorem GetMediaInfo_after_StoreMessage (s : Store) (id chatJID sender content : string)
    (ts : Time) (me : bool) (mt fn url : string) (k h e : list Byte.byte) (n : Z) :
  chat_exists s chatJID = true → content ≠ "" ∨ mt ≠ "" →
  let r := StoreMessage s id chatJID sender content ts me mt fn url k h e n in
  let s' := r.1 in
  (n < 2 ^ 63 →
   r.2 = None
   ∧ GetMediaInfo s' id chatJID
     = Ok {| mi_url := url; mi_mediaKey := k; mi_fileSHA256 := h;
             mi_fileEncSHA256 := e; mi_fileLength := n; mi_mediaType := mt;
             mi_filename := fn |})
  ∧ (2 ^ 63 ≤ n → s' = s ∧ r.2 ≠ None)
  ∧ (∀ id' chatJID', (id', chatJID') ≠ (id, chatJID) →
       GetMediaInfo s' id' chatJID' = GetMediaInfo s id' chatJID')
  ∧ (∀ id' chatJID',
       (∀ m, m ∈ messages s' →
             (messages_id m, messages_chat_jid m) ≠ (id', chatJID')) →
       GetMediaInfo s' id' chatJID' = Err (StorageFailure "sql: no rows in result set")).
Proof.
  intros Hex Hpayload r s'.
  assert (String.eqb content "" && String.eqb mt "" = false) as Hempty.
  { apply andb_false_iff. rewrite !String.eqb_neq. tauto. }
  assert (n < 2 ^ 63 →
          r = (with_messages s
                 (filter (λ m, (messages_id m, messages_chat_jid m) ≠ (id, chatJID))
                    (messages s)
                  ++ [{| messages_id := id; messages_chat_jid := chatJID;
                         messages_sender := sender; messages_content := Some content;
                         messages_timestamp := ts; messages_is_from_me := me;
                         messages_media_type := Some mt; messages_filename := fn;
                         messages_url := url; messages_media_key := k;
                         messages_file_sha256 := h; messages_file_enc_sha256 := e;
                         messages_file_length := n |}]), None)) as Hfit.
  { intros Hn. unfold r, StoreMessage. rewrite Hempty, Hex.
    by replace (2 ^ 63 <=? n) with false by (symmetry; apply Z.leb_gt; lia). }
  assert (2 ^ 63 ≤ n → s' = s ∧ r.2 ≠ None) as Hhigh.
  { intros Hn. unfold s', r, StoreMessage. rewrite Hempty.
    by replace (2 ^ 63 <=? n) with true by (symmetry; apply Z.leb_le; lia). }
  split_and!.
  - intros Hn. unfold s'. rewrite (Hfit Hn). split; [done|].
    rewrite GetMediaInfo_by_key. simpl.
    rewrite (filter_key_after_upsert (λ m, (messages_id m, messages_chat_jid m))) by done.
    done.
  - exact Hhigh.
  - intros id' chatJID' Hne.
    destruct (Z.lt_ge_cases n (2 ^ 63)) as [Hn|Hn].
    + unfold s'. rewrite (Hfit Hn). rewrite !GetMediaInfo_by_key. simpl.
      by rewrite (filter_other_key_after_upsert
                    (λ m, (messages_id m, messages_chat_jid m))).
    + by rewrite (proj1 (Hhigh Hn)).
  - intros id' chatJID' Hnone. rewrite GetMediaInfo_by_key.
    destruct (filter _ (messages s')) as [|m l] eqn:E; [done|].
    exfalso.
    assert (m ∈ filter (λ m, (messages_id m, messages_chat_jid m) = (id', chatJID'))
                  (messages s')) as Hin by (rewrite E; apply list_elem_of_here).
    apply list_elem_of_filter in Hin as [Hk Hin]. by apply (Hnone m).
Qed.

Lemma GetMediaInfo_after_StoreMessage_witness :
  GetMediaInfo
    (StoreMessage scenario_thread "m9" "c@s.whatsapp.net" "a" "" (at_second 9) false
       "image" "image_1.jpg" "https://mmg.whatsapp.net/v/t62/f.enc?x=1" [] [] [] 42).1
    "m9" "c@s.whatsapp.net"
  = Ok {| mi_url := "https://mmg.whatsapp.net/v/t62/f.enc?x=1"; mi_mediaKey := [];
          mi_fileSHA256 := []; mi_fileEncSHA256 := []; mi_fileLength := 42;
          mi_mediaType := "image"; mi_filename := "image_1.jpg" |}.
Proof.
  apply (proj1 (GetMediaInfo_after_StoreMessage scenario_thread "m9" "c@s.whatsapp.net"
                  "a" "" (at_second 9) false "image" "image_1.jpg"
                  "https://mmg.whatsapp.net/v/t62/f.enc?x=1" [] [] [] 42
                  eq_refl ltac:(right; discriminate))).
  lia.
Defined.

(** X4: from an empty archive, any sequence of chat and message upserts keeps
    the chat keys unique, the (id, chat) keys of the messages unique and
    every message attached to a stored chat. *)
Theorem ingestion_keeps_keys (wa : option WaStore) (evs : list ingest) :
  wf_store (replay (new_store wa) evs).
Proof. apply replay_wf, new_store_wf. Qed.

(** ** Names in the identity cache *)

Lemma latest_Some_elem_of log k v : latest log k = Some v → (k, v) ∈ log.
Proof.
  unfold latest. destruct (filter _ (reverse log)) as [|[k' v'] l] eqn:E; [done|].
  simpl. intros [= ->].
  assert ((k', v) ∈ filter (λ w, w.1 = k) (reverse log)) as Hin
    by (rewrite E; apply list_elem_of_here).
  apply list_elem_of_filter in Hin as [Hk Hin]. simpl in Hk. subst.
  by apply elem_of_reverse.
Qed.

Lemma index_writes_nonempty entries : Forall (λ w, w.2 ≠ "") (index_writes entries).
Proof.
  apply Forall_forall. intros [k v] Hin. unfold index_writes in Hin.
  apply list_elem_of_bind in Hin as ([jid name] & Hin & _). cbn [fst snd] in Hin.
  destruct (String.eqb name "") eqn:E; [by apply elem_of_nil in Hin|].
  apply list_elem_of_fmap in Hin as (k' & [= -> ->] & _). simpl.
  by apply String.eqb_neq.
Qed.

Lemma linked_writes_nonempty rows : ∀ log, Forall (λ w, w.2 ≠ "") (linked_writes log rows).
Proof.
  induction rows as [|[lid pn] rows IH]; intros log; [constructor|].
  simpl. apply Forall_app. split; [|apply IH].
  destruct (String.eqb (if String.eqb _ "" then _ else _) "") eqn:E; [constructor|].
  apply String.eqb_neq in E. by repeat constructor.
Qed.

Lemma BuildSenderCache_value_nonempty s k v :
  BuildSenderCache s !! k = Some v → v ≠ "".
Proof.
  rewrite BuildSenderCache_latest. intros Hin%latest_Some_elem_of.
  unfold identity_log in Hin. simpl in Hin.
  assert (Forall (λ w : string * string, w.2 ≠ "")
            ((index_writes (chat_names s) ++ index_writes (contact_entries s))
             ++ linked_writes
                  (index_writes (chat_names s) ++ index_writes (contact_entries s))
                  (lid_rows s))) as Hall.
  { rewrite !Forall_app. split_and!;
      auto using index_writes_nonempty, linked_writes_nonempty. }
  rewrite Forall_forall in Hall. exact (Hall (k, v) Hin).
Qed.

(** X5: the identity cache never maps an identifier to the empty name, so a
    sender that is not itself empty never resolves to an empty display
    name. *)
Theorem BuildSenderCache_names_nonempty (s : Store) :
  (∀ k v, BuildSenderCache s !! k = Some v → v ≠ "")
  ∧ (∀ senderJID isFromMe,
       senderJID ≠ "" →
       resolveMessageSender senderJID isFromMe (BuildSenderCache s) ≠ "").
Proof.
  split; [apply BuildSenderCache_value_nonempty|].
  intros senderJID isFromMe Hne. unfold resolveMessageSender, resolveSender.
  destruct isFromMe; [done|].
  destruct (BuildSenderCache s !! senderJID) as [name|] eqn:E1;
    [by eapply BuildSenderCache_value_nonempty|].
  destruct (0 <? strings_Index senderJID "@"); [|done].
  destruct (BuildSenderCache s !! slice_to _ _) as [name|] eqn:E2;
    [by eapply BuildSenderCache_value_nonempty|done].
Qed.

Lemma BuildSenderCache_names_nonempty_witness :
  resolveMessageSender "111@s.whatsapp.net" false (BuildSenderCache scenario_bob) ≠ "".
Proof.
  apply (proj2 (BuildSenderCache_names_nonempty scenario_bob)). discriminate.
Defined.

(** ** Matches of ListMessages *)

Lemma emit_context_covers cache ctx : ∀ res (seen : gset string),
  (∀ x, x ∈ seen → x ∈ ID <$> res) →
  (∀ x, x ∈ (emit_context cache (res, seen) ctx).2 →
        x ∈ ID <$> (emit_context cache (res, seen) ctx).1)
  ∧ (∀ x, x ∈ seen → x ∈ (emit_context cache (res, seen) ctx).2)
  ∧ (∀ m, m ∈ ctx → rm_id m ∈ (emit_context cache (res, seen) ctx).2).
Proof.
  induction ctx as [|m ctx IH]; intros res seen Hinv.
  - split_and!; [done|done|]. intros m Hm. by apply elem_of_nil in Hm.
  - rewrite emit_context_cons.
    destruct (bool_decide (rm_id m ∈ seen)) eqn:Hin.
    + apply bool_decide_eq_true in Hin.
      destruct (IH res seen Hinv) as (H1 & H2 & H3). split_and!; [done|done|].
      intros m' [->|Hm']%elem_of_cons; [by apply H2|by apply H3].
    + destruct (IH (res ++ [rawToDict m cache]) ({[rm_id m]} ∪ seen))
        as (H1 & H2 & H3).
      { intros x. rewrite fmap_app, elem_of_app, elem_of_union, elem_of_singleton.
        simpl. rewrite list_elem_of_singleton. intros [->|Hx]; [by right|].
        left. by apply Hinv. }
      split_and!; [done| |].
      * intros x Hx. apply H2, elem_of_union. by right.
      * intros m' [->|Hm']%elem_of_cons; [|by apply H3].
        apply H2, elem_of_union. left. by apply elem_of_singleton.
Qed.

Lemma expand_matches_covers s cache cb ca msgs : ∀ st : list MessageDict * gset string,
  (∀ x, x ∈ st.2 → x ∈ ID <$> st.1) →
  (∀ msg, msg ∈ msgs →
     ∃ ctx m, getMessageContextRaw s (rm_id msg) cb ca = Ok ctx
              ∧ m ∈ ctx ∧ rm_id m = rm_id msg) →
  let st' := foldl (λ st msg,
                      match getMessageContextRaw s (rm_id msg) cb ca with
                      | Err _ => st
                      | Ok ctx => emit_context cache st ctx
                      end) st msgs in
  (∀ x, x ∈ st'.2 → x ∈ ID <$> st'.1)
  ∧ (∀ x, x ∈ st.2 → x ∈ st'.2)
  ∧ (∀ msg, msg ∈ msgs → rm_id msg ∈ st'.2).
Proof.
  induction msgs as [|msg msgs IH]; intros [res seen] Hinv Hwin.
  - split_and!; [done|done|]. intros m Hm. by apply elem_of_nil in Hm.
  - destruct (Hwin msg) as (ctx & m & Hctx & Hm & Hid); [apply list_elem_of_here|].
    cbn [foldl]. rewrite Hctx.
    destruct (emit_context_covers cache ctx res seen Hinv) as (H1 & H2 & H3).
    destruct (emit_context cache (res, seen) ctx) as [res' seen'] eqn:E.
    destruct (IH (res', seen')) as (K1 & K2 & K3); [done| |].
    { intros msg' Hmsg'. apply Hwin. by apply list_elem_of_further. }
    split_and!; [done| |].
    + intros x Hx. apply K2, H2, Hx.
    + intros msg' [->|Hmsg']%elem_of_cons; [|by apply K3].
      apply K2. rewrite <- Hid. by apply H3.
Qed.

Lemma ListMessages_rows_joined s opts Limit m :
  m ∈ ListMessages_rows s opts Limit →
  ∃ r, m = scan_message r ∧ r ∈ messages_join_chats s
       ∧ ListMessages_where opts r = true.
Proof.
  unfold ListMessages_rows. intros (r & -> & Hr)%list_elem_of_fmap.
  apply elem_of_limit_offset in Hr. rewrite elem_of_order_by in Hr.
  apply list_elem_of_filter in Hr as [Hw Hr]. exists r.
  split_and!; [done|done|]. by apply Is_true_true.
Qed.

(** X6: with context expansion, no match is lost: the id of every message
    the main query selects occurs in the answer. *)
Theorem ListMessages_keeps_matches (s : Store) (opts : ListMessagesOpts) (m : rawMessage) :
  lm_IncludeContext opts = true →
  m ∈ ListMessages_rows s opts (if lm_Limit opts =? 0 then 20 else lm_Limit opts) →
  rm_id m ∈ ID <$> result_list (ListMessages s opts).
Proof.
  intros Hctx Hm. rewrite ListMessages_with_context by done. simpl.
  unfold expand_matches.
  edestruct (expand_matches_covers s (BuildSenderCache s)) as (H1 & _ & H3);
    [| |apply H1, H3, Hm].
  - simpl. intros x Hx. by apply not_elem_of_empty in Hx.
  - intros msg (r & -> & Hr & _)%ListMessages_rows_joined.
    destruct (find_target_is_Some s (messages_id r.1) r Hr eq_refl) as [t Ht].
    rewrite getMessageContextRaw_rows. simpl. rewrite Ht.
    eexists _, (scan_message t). split; [done|]. split.
    + apply list_elem_of_fmap_2, elem_of_app. right. apply list_elem_of_here.
    + simpl. by apply find_target_Some in Ht as [_ ?].
Qed.

Lemma ListMessages_keeps_matches_witness :
  "m4" ∈ ID <$> result_list (ListMessages scenario_thread (unfiltered 2 0 true 1 1)).
Proof.
  apply (ListMessages_keeps_matches scenario_thread (unfiltered 2 0 true 1 1)
           {| rm_timestamp := "2024-03-01T10:00:04Z"; rm_sender := "a";
              rm_chatName := Some "C";
              rm_content := Some "four"; rm_isFromMe := false;
              rm_chatJID := "c@s.whatsapp.net"; rm_id := "m4";
              rm_mediaType := Some "" |}).
  - reflexivity.
  - by_compute.
Defined.

(** ** Listings without context *)

Lemma ListMessages_where_true opts r :
  ListMessages_where opts r = true →
  (∀ t, lm_After opts = Some t → timestamp_gt (messages_timestamp r.1) t = true)
  ∧ (∀ t, lm_Before opts = Some t → timestamp_lt (messages_timestamp r.1) t = true)
  ∧ (∀ p, lm_SenderPhoneNumber opts = Some p → messages_sender r.1 = p)
  ∧ (∀ j, lm_ChatJID opts = Some j → messages_chat_jid r.1 = j)
  ∧ (∀ query, lm_Query opts = Some query →
       LIKE (LOWER <$> messages_content r.1) (LOWER ("%" +:+ query +:+ "%"))
       || LIKE (LOWER <$> messages_media_type r.1) (LOWER ("%" +:+ query +:+ "%"))
       = true).
Proof.
  unfold ListMessages_where. rewrite !andb_true_iff.
  intros ((((Ha & Hb) & Hs) & Hc) & Hq). split_and!.
  - intros t Ht. by rewrite Ht in Ha.
  - intros t Ht. by rewrite Ht in Hb.
  - intros p Hp. rewrite Hp in Hs. by apply String.eqb_eq.
  - intros j Hj. rewrite Hj in Hc. by apply String.eqb_eq.
  - intros query Hquery. by rewrite Hquery in Hq.
Qed.

(** X7: without context expansion the listing shows joined rows of the
    archive in the order of their stored timestamp texts, greatest first,
    at most [Limit] of them (20 when the limit is 0), and every row passes
    each filter that is set: it is sent by [SenderPhoneNumber], lies in chat
    [ChatJID], its stored text is greater, byte by byte, than [After]
    unless [After] reads as a number (then every row passes), and smaller
    than [Before], which must not read as a number. *)
Theorem ListMessages_plain_listing (s : Store) (opts : ListMessagesOpts) :
  lm_IncludeContext opts = false →
  ∃ result rows,
    ListMessages s opts = Ok result
    ∧ result = (λ r, rawToDict (scan_message r) (BuildSenderCache s)) <$> rows
    ∧ Sorted (λ x y, String.leb (SQLiteTimestamp (messages_timestamp y.1))
                                (SQLiteTimestamp (messages_timestamp x.1)) = true) rows
    ∧ (0 ≤ lm_Limit opts →
       Z.of_nat (length result) ≤ if lm_Limit opts =? 0 then 20 else lm_Limit opts)
    ∧ ∀ r, r ∈ rows →
        r ∈ messages_join_chats s
        ∧ (∀ t, lm_After opts = Some t →
                sqlite_numeric t = true
                ∨ String.ltb t (SQLiteTimestamp (messages_timestamp r.1)) = true)
        ∧ (∀ t, lm_Before opts = Some t →
                sqlite_numeric t = false
                ∧ String.ltb (SQLiteTimestamp (messages_timestamp r.1)) t = true)
        ∧ (∀ p, lm_SenderPhoneNumber opts = Some p → messages_sender r.1 = p)
        ∧ (∀ j, lm_ChatJID opts = Some j → chats_jid r.2 = j).
Proof.
  intros Hctx. rewrite ListMessages_without_context by done.
  unfold ListMessages_rows. eexists _, _. split; [done|]. split_and!.
  - by rewrite <- list_fmap_compose.
  - apply limit_offset_Sorted, order_by_Sorted, timestamp_desc_total.
  - intros Hlim. rewrite !length_fmap.
    apply limit_offset_length. destruct (lm_Limit opts =? 0); lia.
  - intros r Hr. apply elem_of_limit_offset in Hr. rewrite elem_of_order_by in Hr.
    apply list_elem_of_filter in Hr as [Hw Hr]. apply Is_true_true in Hw.
    apply ListMessages_where_true in Hw as (Ha & Hb & Hs & Hc & _).
    split_and!; [done| | |done|].
    + intros t Ht. specialize (Ha t Ht). unfold timestamp_gt in Ha.
      destruct (sqlite_numeric t); [by left|by right].
    + intros t Ht. specialize (Hb t Ht). unfold timestamp_lt in Hb.
      by destruct (sqlite_numeric t).
    + intros j Hj. rewrite (joined_row_chat s r Hr). by apply Hc.
Qed.

Lemma ListMessages_plain_listing_witness :
  ∃ result rows,
    ListMessages scenario_thread
      {| lm_After := Some "2024-03-01 10:00:02"; lm_Before := Some "2024-03-01 10:00:04";
         lm_SenderPhoneNumber := Some "a"; lm_ChatJID := Some "c@s.whatsapp.net";
         lm_Query := None; lm_Limit := 2; lm_Page := 0; lm_IncludeContext := false;
         lm_ContextBefore := 0; lm_ContextAfter := 0 |} = Ok result
    ∧ result = (λ r, rawToDict (scan_message r) (BuildSenderCache scenario_thread)) <$> rows
    ∧ Sorted (λ x y, String.leb (SQLiteTimestamp (messages_timestamp y.1))
                                (SQLiteTimestamp (messages_timestamp x.1)) = true) rows
    ∧ (0 ≤ 2 → Z.of_nat (length result) ≤ if 2 =? 0 then 20 else 2)
    ∧ ∀ r, r ∈ rows →
        r ∈ messages_join_chats scenario_thread
        ∧ (∀ t, Some "2024-03-01 10:00:02" = Some t →
                sqlite_numeric t = true
                ∨ String.ltb t (SQLiteTimestamp (messages_timestamp r.1)) = true)
        ∧ (∀ t, Some "2024-03-01 10:00:04" = Some t →
                sqlite_numeric t = false
                ∧ String.ltb (SQLiteTimestamp (messages_timestamp r.1)) t = true)
        ∧ (∀ p, Some "a" = Some p → messages_sender r.1 = p)
        ∧ (∀ j, Some "c@s.whatsapp.net" = Some j → chats_jid r.2 = j).
Proof.
  apply (ListMessages_plain_listing scenario_thread
           {| lm_After := Some "2024-03-01 10:00:02";
              lm_Before := Some "2024-03-01 10:00:04";
              lm_SenderPhoneNumber := Some "a"; lm_ChatJID := Some "c@s.whatsapp.net";
              lm_Query := None; lm_Limit := 2; lm_Page := 0; lm_IncludeContext := false;
              lm_ContextBefore := 0; lm_ContextAfter := 0 |}).
  reflexivity.
Defined.

Lemma is_infix_nil s : is_infix [] s = true.
Proof. by destruct s. Qed.

Lemma is_infix_in_nil p : is_infix p [] = true → p = [].
Proof. destruct p; [done|]. simpl. discriminate. Qed.



Lemma wrap64_small z : - 2 ^ 63 ≤ z < 2 ^ 63 → wrap64 z = z.
Proof. intros Hz. unfold wrap64. rewrite Z.mod_small; lia. Qed.

(** X9: without context expansion, the page [p] of size [L] is the slice
    [p*L, p*L + L) of the listing without limit, as long as [p*L] fits the
    machine integer. *)
Theorem ListMessages_page_is_slice (s : Store) (opts : ListMessagesOpts) (L p : Z) :
  lm_IncludeContext opts = false → 0 < L → 0 ≤ p → p * L < 2 ^ 63 →
  result_list (ListMessages s (with_window opts L p))
  = take (Z.to_nat L)
      (drop (Z.to_nat (p * L))
         (result_list (ListMessages s (with_window opts (-1) 0)))).
Proof.
  intros Hctx HL Hp Hfit.
  rewrite !ListMessages_without_context by done. simpl.
  replace (L =? 0) with false by (symmetry; apply Z.eqb_neq; lia).
  unfold ListMessages_rows. simpl.
  rewrite wrap64_small by lia.
  change (wrap64 0) with 0.
  unfold limit_offset.
  replace (L <? 0) with false by (symmetry; apply Z.ltb_ge; lia).
  simpl. rewrite drop_0. by rewrite !fmap_take, !fmap_drop.
Qed.

Lemma ListMessages_page_is_slice_witness :
  result_list (ListMessages scenario_thread (with_window (unfiltered 0 0 false 1 1) 3 1))
  = take (Z.to_nat 3)
      (drop (Z.to_nat (1 * 3))
         (result_list
            (ListMessages scenario_thread (with_window (unfiltered 0 0 false 1 1) (-1) 0)))).
Proof.
  apply ListMessages_page_is_slice; [reflexivity|lia|lia|lia].
Defined.

(** ** Context windows *)

Lemma find_target_None s messageID :
  (∀ m, m ∈ messages s → messages_id m ≠ messageID) → find_target s messageID = None.
Proof.
  intros Hnone. destruct (find_target s messageID) as [[m c]|] eqn:E; [|done].
  exfalso. apply find_target_Some in E as [Hin Hid].
  apply elem_of_messages_join_chats in Hin as (Hm & _). by apply (Hnone m).
Qed.

(** X10: for an id that no stored message has, [GetMessageContext] and the
    raw expansion used by [ListMessages] both fail with the not-found
    error that names the id and wraps the driver's "no rows" error. *)
Theorem GetMessageContext_unknown_id (s : Store) (messageID : string) (before after : Z) :
  (∀ m, m ∈ messages s → messages_id m ≠ messageID) →
  GetMessageContext s messageID before after
  = Err (StorageFailure
           ("message " +:+ messageID +:+ " not found: sql: no rows in result set"))
  ∧ getMessageContextRaw s messageID before after
    = Err (StorageFailure
             ("message " +:+ messageID +:+ " not found: sql: no rows in result set")).
Proof.
  intros Hnone%find_target_None.
  unfold GetMessageContext, getMessageContextRaw. by rewrite Hnone.
Qed.

Lemma GetMessageContext_unknown_id_witness :
  GetMessageContext scenario_thread "m7" 1 1
  = Err (StorageFailure "message m7 not found: sql: no rows in result set")
  ∧ getMessageContextRaw scenario_thread "m7" 1 1
    = Err (StorageFailure "message m7 not found: sql: no rows in result set").
Proof.
  apply (GetMessageContext_unknown_id scenario_thread "m7" 1 1).
  refine (proj1 (Forall_forall _ _) _). by_compute.
Defined.

Lemma limit_order_by_nearest {A} (le : A → A → bool) (lim : Z) (l : list A) r x :
  (∀ x y, le x y = true ∨ le y x = true) →
  (∀ x y z, le x y = true → le y z = true → le x z = true) →
  r ∈ l → r ∉ limit_offset lim 0 (order_by le l) →
  x ∈ limit_offset lim 0 (order_by le l) → le x r = true.
Proof.
  intros Htotal Htrans Hr Hnot Hx.
  assert (StronglySorted (λ x y, le x y = true) (order_by le l)) as Hsorted.
  { apply (@Sorted_StronglySorted _ (λ x y, le x y = true)).
    - intros a b c. apply Htrans.
    - by apply order_by_Sorted. }
  apply (elem_of_order_by le) in Hr.
  unfold limit_offset in *. simpl in *. rewrite drop_0 in *.
  destruct (lim <? 0); [done|].
  rewrite <- (take_drop (Z.to_nat lim) (order_by le l)) in Hr, Hsorted.
  apply elem_of_app in Hr as [Hr|Hr]; [done|].
  by eapply (StronglySorted_app_1_elem_of (λ x y, le x y = true)).
Qed.

Lemma limit_order_by_length {A} (le : A → A → bool) (lim : Z) (l : list A) :
  0 ≤ lim →
  length (limit_offset lim 0 (order_by le l)) = (Z.to_nat lim `min` length l)%nat.
Proof.
  intros Hlim. unfold limit_offset. simpl. rewrite drop_0.
  replace (lim <? 0) with false by (symmetry; apply Z.ltb_ge; lia).
  by rewrite length_take, (Permutation_length (order_by_Permutation le l)).
Qed.



(** ** Chat lookups *)

Lemma elem_of_chats_left_join_messages s c om :
  (c, om) ∈ chats_left_join_messages s
  ↔ c ∈ chats s
    ∧ match om with
      | Some m => m ∈ messages s ∧ chats_jid c = messages_chat_jid m
                  ∧ same_stored_time c m
      | None => ∀ m, m ∈ messages s →
                     ¬ (chats_jid c = messages_chat_jid m ∧ same_stored_time c m)
      end.
Proof.
  unfold chats_left_join_messages. rewrite list_elem_of_bind. split.
  - intros (c' & Hin & Hc').
    destruct (filter _ (messages s)) as [|m0 ms] eqn:E.
    + apply list_elem_of_singleton in Hin as [= -> ->]. split; [done|].
      intros m Hm Hcond.
      assert (m ∈ filter (λ m, chats_jid c' = messages_chat_jid m ∧ same_stored_time c' m)
                (messages s)) as Hf by by apply list_elem_of_filter.
      rewrite E in Hf. by apply elem_of_nil in Hf.
    + apply list_elem_of_fmap in Hin as (m & [= -> ->] & Hm).
      rewrite <- E in Hm. apply list_elem_of_filter in Hm as [[??] ?]. done.
  - intros [Hc Hom]. exists c. split; [|done].
    destruct om as [m|].
    + destruct Hom as (Hm & Hjid & Hts).
      assert (m ∈ filter (λ m, chats_jid c = messages_chat_jid m ∧ same_stored_time c m)
                (messages s)) as Hf by by apply list_elem_of_filter.
      destruct (filter _ (messages s)) as [|m0 ms]; [by apply elem_of_nil in Hf|].
      by apply (list_elem_of_fmap_2 (λ m, (c, Some m))).
    + destruct (filter _ (messages s)) as [|m0 ms] eqn:E; [apply list_elem_of_here|].
      exfalso.
      assert (m0 ∈ filter (λ m, chats_jid c = messages_chat_jid m ∧ same_stored_time c m)
                (messages s)) as Hf by (rewrite E; apply list_elem_of_here).
      apply list_elem_of_filter in Hf as [Hcond Hm0]. by apply (Hom m0).
Qed.

Lemma chats_left_join_messages_total s c :
  c ∈ chats s → ∃ om, (c, om) ∈ chats_left_join_messages s.
Proof.
  intros Hc. unfold chats_left_join_messages.
  destruct (filter (λ m, chats_jid c = messages_chat_jid m ∧ same_stored_time c m)
              (messages s)) as [|m0 ms] eqn:E.
  - exists None. apply list_elem_of_bind. exists c. rewrite E.
    split; [apply list_elem_of_here|done].
  - exists (Some m0). apply list_elem_of_bind. exists c. rewrite E.
    split; [apply list_elem_of_here|done].
Qed.

Lemma head_filter_None {A} (P : A → Prop) `{∀ x, Decision (P x)} (l : list A) :
  head (filter P l) = None ↔ ∀ x, x ∈ l → ¬ P x.
Proof.
  split.
  - intros Hhd x Hx HP.
    assert (x ∈ filter P l) as Hf by by apply list_elem_of_filter.
    destruct (filter P l); [by apply elem_of_nil in Hf|done].
  - intros Hnone. destruct (filter P l) as [|x l'] eqn:E; [done|].
    exfalso.
    assert (x ∈ filter P l) as Hf by (rewrite E; apply list_elem_of_here).
    apply list_elem_of_filter in Hf as [HP Hx]. by apply (Hnone x).
Qed.

(** X12: with the last-message join, [GetChat] answers "no such chat" (no
    error, no value) exactly for a key that is not stored; for a stored key
    it returns that chat's key, name and last-activity time (as RFC 3339
    text), and the last-message fields are those of a message of this chat
    whose stored timestamp equals the chat's stored last-activity time, or
    absent when there is none. *)
Theorem GetChat_with_last_message (s : Store) (chatJID : string) :
  (chatJID ∉ chats_jid <$> chats s → GetChat s chatJID true = Ok None)
  ∧ (∀ c, wf_store s → c ∈ chats s → chats_jid c = chatJID →
       ∃ d, GetChat s chatJID true = Ok (Some d)
            ∧ Chat_JID d = chatJID
            ∧ Chat_Name d = chats_name c
            ∧ LastMessageTime d = scan_timestamp <$> chats_last_message_time c
            ∧ match LastIsFromMe d with
              | Some b =>
                  ∃ m, m ∈ messages s ∧ messages_chat_jid m = chatJID
                       ∧ SQLiteTimestamp <$> chats_last_message_time c
                         = Some (SQLiteTimestamp (messages_timestamp m))
                       ∧ messages_is_from_me m = b
                       ∧ LastMessage d = messages_content m
              | None =>
                  LastMessage d = None ∧ LastSender d = None
                  ∧ ∀ m, m ∈ messages s → messages_chat_jid m = chatJID →
                         SQLiteTimestamp <$> chats_last_message_time c
                         ≠ Some (SQLiteTimestamp (messages_timestamp m))
              end).
Proof.
  split.
  - intros Hnot. unfold GetChat. simpl. unfold QueryRow.
    replace (head _) with (@None (ChatRow * option MessageRow)); [done|].
    symmetry. apply head_filter_None. intros [c om] Hin Hjid. simpl in Hjid.
    apply elem_of_chats_left_join_messages in Hin as [Hc _]. apply Hnot. subst. by apply list_elem_of_fmap_2.
  - intros c Hwf Hc Hjid. unfold GetChat. simpl. unfold QueryRow.
    destruct (chats_left_join_messages_total s c Hc) as [om Hom].
    destruct (head _) as [[c' om']|] eqn:Hhd.
    + apply head_Some_elem_of, list_elem_of_filter in Hhd as [Hk Hin]. simpl in Hk.
      apply elem_of_chats_left_join_messages in Hin as [Hc' Hom'].
      assert (c' = c) as ->.
      { eapply (NoDup_fmap_inj_on chats_jid); [apply Hwf|done|done|congruence]. }
      eexists. split; [done|]. simpl. split_and!; [done|done|done|].
      destruct om' as [m|]; simpl.
      * destruct Hom' as (Hm & Hmj & Hts). exists m. split_and!; try done. congruence.
      * split_and!; [done|done|]. intros m Hm Hmj Hts. apply (Hom' m Hm).
        split; congruence.
    + exfalso. by apply (proj1 (head_filter_None _ _) Hhd (c, om)).
Qed.

Lemma GetChat_with_last_message_witness :
  GetChat scenario_thread "nobody@s.whatsapp.net" true = Ok None.
Proof.
  apply (proj1 (GetChat_with_last_message scenario_thread "nobody@s.whatsapp.net")).
  by_compute.
Defined.

Lemma like_prefix_nocase q : ∀ v,
  forallb (λ c, negb (Ascii.eqb c "%") && negb (Ascii.eqb c "_")) q = true →
  like_bytes (q ++ ["%"%char]) v = is_prefix (lower_bytes q) (lower_bytes v).
Proof.
  induction q as [|c q IH]; intros v Hq.
  - apply like_percent_only.
  - simpl in Hq. apply andb_true_iff in Hq as [Hc Hq].
    apply andb_true_iff in Hc as [Hc1 Hc2]. apply negb_true_iff in Hc1, Hc2.
    simpl app. rewrite like_literal by done.
    destruct v as [|d v]; [done|].
    change (lower_bytes (c :: q)) with (ascii_tolower c :: lower_bytes q).
    change (lower_bytes (d :: v)) with (ascii_tolower d :: lower_bytes v).
    simpl is_prefix. by rewrite IH.
Qed.

Lemma like_infix_nocase q v :
  forallb (λ c, negb (Ascii.eqb c "%") && negb (Ascii.eqb c "_")) q = true →
  like_bytes ("%"%char :: q ++ ["%"%char]) v = is_infix (lower_bytes q) (lower_bytes v).
Proof.
  intros Hq. induction v as [|d v IH].
  - rewrite like_percent, like_prefix_nocase by done. done.
  - pose proof (like_prefix_nocase q (d :: v) Hq) as Hpre.
    change (lower_bytes (d :: v)) with (ascii_tolower d :: lower_bytes v) in *.
    rewrite like_percent, Hpre, IH. done.
Qed.

Lemma LIKE_contains query v :
  wildcard_free query = true →
  LIKE (Some v) ("%" +:+ query +:+ "%") = contains_nocase query (Some v).
Proof.
  intros Hq. unfold LIKE, contains_nocase.
  change ("%" +:+ query +:+ "%") with (String "%" (query +:+ "%")).
  cbn [list_ascii_of_string]. rewrite bytes_append. by apply like_infix_nocase.
Qed.

Lemma ListChats_stmt_prepared opts SortBy :
  lc_IncludeLastMessage opts = true → prepare (ListChats_stmt opts SortBy) = None.
Proof.
  intros Hflag. unfold ListChats_stmt. rewrite Hflag.
  destruct (lc_Query opts), (String.eqb SortBy "last_active"); reflexivity.
Qed.

Lemma null_le_total {A} (le : A → A → bool) :
  (∀ x y, le x y = true ∨ le y x = true) →
  ∀ x y, null_le le x y = true ∨ null_le le y x = true.
Proof. intros Htotal [x|] [y|]; simpl; auto. Qed.

Lemma ListChats_rows s opts :
  lc_IncludeLastMessage opts = true →
  ListChats s opts
  = Ok ((λ r, toDict (scan_chat r) (BuildSenderCache s))
          <$> limit_offset (if lc_Limit opts =? 0 then 20 else lc_Limit opts)
                (wrap64 (lc_Page opts * (if lc_Limit opts =? 0 then 20 else lc_Limit opts)))
                (order_by
                   (if String.eqb (if String.eqb (lc_SortBy opts) "" then "last_active"
                                   else lc_SortBy opts) "last_active"
                    then last_message_time_desc else name_asc)
                   (filter (λ r, ListChats_where opts r) (chats_left_join_messages s)))).
Proof. intros Hflag. unfold ListChats. by rewrite ListChats_stmt_prepared. Qed.



Lemma head_limit_one {A} (l : list A) : QueryRow (limit_offset 1 0 l) = head l.
Proof. unfold QueryRow, limit_offset. simpl. rewrite drop_0. by destruct l. Qed.

Lemma left_join_first (q : ChatRow → bool) (s : Store) :
  match head (filter (λ r, q r.1 = true) (chats_left_join_messages s)) with
  | None => ∀ c, c ∈ chats s → q c = false
  | Some r =>
      ∃ pre post, chats s = pre ++ r.1 :: post ∧ q r.1 = true
                  ∧ ∀ c', c' ∈ pre → q c' = false
  end.
Proof.
  unfold chats_left_join_messages.
  set (f := λ c : ChatRow,
         match filter (λ m, chats_jid c = messages_chat_jid m ∧ same_stored_time c m)
                 (messages s) with
         | [] => [(c, None)]
         | ms => (λ m, (c, Some m)) <$> ms
         end).
  assert (∀ c, ∃ om l, f c = (c, om) :: l ∧ ∀ r, r ∈ l → r.1 = c) as Hf.
  { intros c. unfold f. destruct (filter _ (messages s)) as [|m0 ms].
    - exists None, []. split; [done|]. intros r Hr. by apply elem_of_nil in Hr.
    - exists (Some m0), ((λ m, (c, Some m)) <$> ms). split; [done|].
      intros r (m & -> & _)%list_elem_of_fmap. done. }
  induction (chats s) as [|c cs IH].
  - simpl. intros c Hc. by apply elem_of_nil in Hc.
  - rewrite bind_cons, filter_app. destruct (Hf c) as (om & l & Hfc & Hl).
    rewrite Hfc. destruct (q c) eqn:Hq.
    + rewrite filter_cons, decide_True by done. simpl.
      exists [], cs. split_and!; [done|done|].
      intros c' Hc'. by apply elem_of_nil in Hc'.
    + rewrite filter_cons, decide_False by (simpl; congruence).
      replace (filter (λ r : ChatRow * option MessageRow, q r.1 = true) l)
        with (@nil (ChatRow * option MessageRow)).
      * simpl. destruct (head _) as [r|].
        -- destruct IH as (pre & post & -> & Hr & Hpre).
           exists (c :: pre), post. split_and!; [done|done|].
           intros c' [->|Hc']%elem_of_cons; [done|by apply Hpre].
        -- intros c' [->|Hc']%elem_of_cons; [done|by apply IH].
      * symmetry. clear -Hl Hq. induction l as [|r l IHl]; [done|].
        rewrite filter_cons, decide_False.
        -- apply IHl. intros r' Hr'. apply Hl. by apply list_elem_of_further.
        -- rewrite (Hl r) by apply list_elem_of_here. congruence.
Qed.



(** ** Last interaction *)

(** X15: [GetLastInteraction] answers "none" when no stored message is sent
    by the identifier or lies in the chat with that key; otherwise it
    answers with such a message, and no other such message has a greater
    stored timestamp text. *)
Theorem GetLastInteraction_latest (s : Store) (jid : string) :
  ((∀ r, r ∈ messages_join_chats s →
         ¬ (messages_sender r.1 = jid ∨ chats_jid r.2 = jid)) →
   GetLastInteraction s jid = Ok None)
  ∧ (∀ d, GetLastInteraction s jid = Ok (Some d) →
       (SenderJID d = jid ∨ ChatJID d = jid)
       ∧ ∃ x, x ∈ messages_join_chats s
              ∧ d = rawToDict (scan_message x) (BuildSenderCache s)
              ∧ ∀ r, r ∈ messages_join_chats s →
                     messages_sender r.1 = jid ∨ chats_jid r.2 = jid →
                     String.leb (SQLiteTimestamp (messages_timestamp r.1))
                                (SQLiteTimestamp (messages_timestamp x.1)) = true)
  ∧ (∀ r, r ∈ messages_join_chats s →
          messages_sender r.1 = jid ∨ chats_jid r.2 = jid →
          ∃ d, GetLastInteraction s jid = Ok (Some d)).
Proof.
  unfold GetLastInteraction. rewrite head_limit_one.
  set (L := filter (λ r, messages_sender r.1 = jid ∨ chats_jid r.2 = jid)
              (messages_join_chats s)).
  destruct (head (order_by timestamp_desc L)) as [x|] eqn:Hhd.
  - assert (x ∈ L) as Hx.
    { apply (elem_of_order_by timestamp_desc). by apply head_Some_elem_of. }
    apply list_elem_of_filter in Hx as [Hxw Hx]. split_and!.
    + intros Hnone. by destruct (Hnone x Hx).
    + intros d [= <-]. split; [done|]. exists x. split_and!; [done|done|].
      intros r Hr Hw.
      apply (head_order_by_first timestamp_desc L x r
               timestamp_desc_total timestamp_desc_trans Hhd).
      by apply list_elem_of_filter.
    + intros r _ _. by eexists.
  - split_and!; [done|done|]. intros r Hr Hw. exfalso.
    assert (r ∈ order_by timestamp_desc L) as Hin
      by by apply elem_of_order_by, list_elem_of_filter.
    destruct (order_by timestamp_desc L); [by apply elem_of_nil in Hin|done].
Qed.

Lemma GetLastInteraction_latest_witness :
  ∃ d, GetLastInteraction scenario_thread "a" = Ok (Some d).
Proof.
  apply (proj2 (proj2 (GetLastInteraction_latest scenario_thread "a"))
           ({| messages_id := "m2"; messages_chat_jid := "c@s.whatsapp.net";
               messages_sender := "a"; messages_content := Some "two";
               messages_timestamp := at_second 2; messages_is_from_me := false;
               messages_media_type := Some ""; messages_filename := "";
               messages_url := ""; messages_media_key := [];
               messages_file_sha256 := []; messages_file_enc_sha256 := [];
               messages_file_length := 0 |},
            {| chats_jid := "c@s.whatsapp.net"; chats_name := Some "C";
               chats_last_message_time := Some (at_second 4) |})).
  - by_compute.
  - left. reflexivity.
Defined.

(** ** Tool handlers *)

Lemma GetChat_missing s chatJID :
  chatJID ∉ chats_jid <$> chats s → GetChat s chatJID true = Ok None.
Proof.
  intros Hnot. unfold GetChat. simpl. unfold QueryRow.
  replace (head _) with (@None (ChatRow * option MessageRow)); [done|].
  symmetry. apply head_filter_None. intros [c om] Hin Hjid. simpl in Hjid.
  apply elem_of_chats_left_join_messages in Hin as [Hc _].
  apply Hnot. subst. by apply list_elem_of_fmap_2.
Qed.

Lemma GetChat_present s chatJID :
  chatJID ∈ chats_jid <$> chats s →
  ∃ d, GetChat s chatJID true = Ok (Some d) ∧ Chat_JID d = chatJID.
Proof.
  intros (c & -> & Hc)%list_elem_of_fmap. unfold GetChat. simpl. unfold QueryRow.
  destruct (chats_left_join_messages_total s c Hc) as [om Hom].
  destruct (head _) as [r|] eqn:Hhd.
  - apply head_Some_elem_of, list_elem_of_filter in Hhd as [Hk _].
    eexists. split; [done|]. exact Hk.
  - exfalso. by apply (proj1 (head_filter_None _ _) Hhd (c, om)).
Qed.



(** ** Media URLs *)

Lemma is_prefix_app sep b : is_prefix sep (sep ++ b) = true.
Proof.
  induction sep as [|c sep IH]; [done|]. simpl.
  by rewrite IH, (proj2 (Ascii.eqb_eq c c) eq_refl).
Qed.

Lemma is_prefix_true sep s : is_prefix sep s = true → s = sep ++ drop (length sep) s.
Proof.
  revert s. induction sep as [|c sep IH]; intros s Hs; [done|].
  destruct s as [|d s]; [done|]. simpl in Hs.
  apply andb_true_iff in Hs as [Hc Hs]. apply Ascii.eqb_eq in Hc as ->.
  simpl. f_equal. by apply IH.
Qed.

Lemma cut_bytes_Some sep s a b :
  cut_bytes sep s = Some (a, b) →
  s = a ++ sep ++ b ∧ ∀ a' b', s = a' ++ sep ++ b' → (length a ≤ length a')%nat.
Proof.
  revert a. induction s as [|c s IH]; intros a; simpl.
  - destruct (is_prefix sep []) eqn:Hp; [|done].
    intros [= <- <-]. split; [by apply is_prefix_true in Hp|]. intros; simpl; lia.
  - destruct (is_prefix sep (c :: s)) eqn:Hp.
    + intros [= <- <-]. split; [by apply is_prefix_true in Hp|]. intros; simpl; lia.
    + destruct (cut_bytes sep s) as [[a0 b0]|]; [|done].
      intros [= <- <-]. destruct (IH a0 eq_refl) as [Hs Hfirst]. split.
      * simpl. by f_equal.
      * intros a' b' Heq. destruct a' as [|c' a'].
        -- simpl in Heq. rewrite Heq, is_prefix_app in Hp. done.
        -- injection Heq as -> Heq. simpl. specialize (Hfirst a' b' Heq). lia.
Qed.

Lemma cut_bytes_None sep s : cut_bytes sep s = None → ∀ a b, s ≠ a ++ sep ++ b.
Proof.
  induction s as [|c s IH]; simpl.
  - destruct (is_prefix sep []) eqn:Hp; [done|]. intros _ a b Heq.
    destruct a; [|done]. simpl in Heq. rewrite Heq, is_prefix_app in Hp. done.
  - destruct (is_prefix sep (c :: s)) eqn:Hp; [done|].
    destruct (cut_bytes sep s) as [[a0 b0]|]; [done|].
    intros _ a b Heq. destruct a as [|c' a].
    + simpl in Heq. rewrite Heq, is_prefix_app in Hp. done.
    + injection Heq as -> Heq. by apply (IH eq_refl a b).
Qed.

Lemma string_bytes_eq (x : string) (l : list ascii) :
  list_ascii_of_string x = l → x = string_of_list_ascii l.
Proof. intros <-. by rewrite string_of_list_ascii_of_string. Qed.

Lemma bytes_of_string_of_bytes_append a b :
  string_of_list_ascii (a ++ b) = string_of_list_ascii a +:+ string_of_list_ascii b.
Proof. induction a as [|c a IH]; simpl; [done|]. by rewrite IH. Qed.

Lemma length_bytes (x : string) : length (list_ascii_of_string x) = String.length x.
Proof. induction x as [|c x IH]; simpl; [done|]. by rewrite IH. Qed.

Lemma string_of_cut a sep b (url : string) :
  list_ascii_of_string url = a ++ list_ascii_of_string sep ++ b →
  url = string_of_list_ascii a +:+ sep +:+ string_of_list_ascii b.
Proof.
  intros Hurl%string_bytes_eq. rewrite Hurl.
  by rewrite !bytes_of_string_of_bytes_append, string_of_list_ascii_of_string.
Qed.

(** X17: [extractDirectPathFromURL] returns a URL without [".net/"]
    unchanged; otherwise it cuts the URL at the first [".net/"] and returns
    ["/"] followed by what comes after it up to, and without, the first
    ["?"]. *)
Theorem extractDirectPathFromURL_path (url : string) :
  ((∀ a b, url ≠ a +:+ ".net/" +:+ b) → extractDirectPathFromURL url = url)
  ∧ (∀ host rest,
       url = host +:+ ".net/" +:+ rest →
       (∀ a b, url = a +:+ ".net/" +:+ b → (String.length host ≤ String.length a)%nat) →
       ∃ path,
         extractDirectPathFromURL url = "/" +:+ path
         ∧ (∀ a b, path ≠ a +:+ "?" +:+ b)
         ∧ (rest = path ∨ ∃ query, rest = path +:+ "?" +:+ query)).
Proof.
  unfold extractDirectPathFromURL. split.
  - intros Hnone.
    destruct (cut_bytes _ (list_ascii_of_string url)) as [[a b]|] eqn:Hcut; [|done].
    apply cut_bytes_Some in Hcut as [Hurl _]. exfalso.
    apply (Hnone (string_of_list_ascii a) (string_of_list_ascii b)).
    by apply string_of_cut.
  - intros host rest Hurl Hfirst.
    destruct (cut_bytes _ (list_ascii_of_string url)) as [[a b]|] eqn:Hcut.
    + apply cut_bytes_Some in Hcut as [Hbytes Hmin].
      assert (list_ascii_of_string url
              = list_ascii_of_string host ++ list_ascii_of_string ".net/"
                ++ list_ascii_of_string rest) as Hbytes'
        by (by rewrite Hurl, !bytes_append).
      assert (length a = length (list_ascii_of_string host)) as Hlen.
      { apply Nat.le_antisymm; [by apply (Hmin _ (list_ascii_of_string rest))|].
        specialize (Hfirst (string_of_list_ascii a) (string_of_list_ascii b)
                      (string_of_cut _ _ _ _ Hbytes)).
        rewrite <- !length_bytes, list_ascii_of_string_of_list_ascii in Hfirst.
        done. }
      assert (b = list_ascii_of_string rest) as ->.
      { rewrite Hbytes' in Hbytes.
        apply (f_equal (drop (length a))) in Hbytes.
        rewrite Hlen in Hbytes at 1.
        rewrite !drop_app_length in Hbytes.
        by apply app_inv_head in Hbytes. }
      destruct (cut_bytes _ (list_ascii_of_string rest)) as [[p q]|] eqn:Hq.
      * apply cut_bytes_Some in Hq as [Hrest Hqmin].
        exists (string_of_list_ascii p). split_and!; [done| |].
        -- intros a' b' Hp.
           apply (f_equal list_ascii_of_string) in Hp.
           rewrite list_ascii_of_string_of_list_ascii, !bytes_append in Hp.
           specialize (Hqmin (list_ascii_of_string a')
                         (list_ascii_of_string b' ++ list_ascii_of_string "?" ++ q)).
           rewrite Hrest, Hp, <- !(assoc_L (++)) in Hqmin.
           specialize (Hqmin eq_refl). rewrite !length_app in Hqmin. simpl in Hqmin. lia.
        -- right. exists (string_of_list_ascii q). by apply string_of_cut.
      * exists rest. rewrite string_of_list_ascii_of_string. split_and!; [done| |by left].
        intros a' b' Hp. apply (cut_bytes_None _ _ Hq (list_ascii_of_string a')
                                  (list_ascii_of_string b')).
        by rewrite Hp, !bytes_append.
    + exfalso. apply (cut_bytes_None _ _ Hcut (list_ascii_of_string host)
                        (list_ascii_of_string rest)).
      by rewrite Hurl, !bytes_append.
Qed.

Lemma extractDirectPathFromURL_path_witness :
  ∃ path,
    extractDirectPathFromURL "https://mmg.whatsapp.net/v/t62/f.enc?x=1" = "/" +:+ path
    ∧ (∀ a b, path ≠ a +:+ "?" +:+ b)
    ∧ ("v/t62/f.enc?x=1" = path ∨ ∃ query, "v/t62/f.enc?x=1" = path +:+ "?" +:+ query).
Proof.
  apply (proj2 (extractDirectPathFromURL_path "https://mmg.whatsapp.net/v/t62/f.enc?x=1")
           "https://mmg.whatsapp" "v/t62/f.enc?x=1").
  - reflexivity.
  - intros a b Heq.
    destruct (cut_bytes_Some (list_ascii_of_string ".net/")
                (list_ascii_of_string "https://mmg.whatsapp.net/v/t62/f.enc?x=1")
                (list_ascii_of_string "https://mmg.whatsapp")
                (list_ascii_of_string "v/t62/f.enc?x=1") eq_refl) as [_ Hmin].
    rewrite <- !length_bytes.
    apply (Hmin (list_ascii_of_string a) (list_ascii_of_string b)).
    by rewrite Heq, !bytes_append.
Defined.

(** ** Chat names *)

Lemma QueryRow_unique_key {A K} `{EqDecision K} (key : A → K) (l : list A) (x : A) :
  NoDup (key <$> l) → x ∈ l →
  QueryRow (filter (λ y, key y = key x) l) = Some x.
Proof.
  intros Hnd Hx. unfold QueryRow.
  pose proof (filter_key_unique key (key x) l Hnd) as Hlen.
  assert (x ∈ filter (λ y, key y = key x) l) as Hin by by apply list_elem_of_filter.
  destruct (filter (λ y, key y = key x) l) as [|y [|z l']].
  - by apply elem_of_nil in Hin.
  - apply list_elem_of_singleton in Hin as ->. done.
  - simpl in Hlen. lia.
Qed.

Lemma GetChatName_existing c s jid conversation sender r n :
  wf_store s → r ∈ chats s → chats_name r = Some n → n ≠ "" →
  GetChatName c s jid (chats_jid r) conversation sender = n.
Proof.
  intros Hwf Hr Hname Hn. unfold GetChatName.
  rewrite (QueryRow_unique_key chats_jid) by (apply Hwf || done).
  rewrite Hname. apply String.eqb_neq in Hn. by rewrite Hn.
Qed.

(** X18: [GetChatName] keeps a name the chat already has: when the stored
    chat carries a non-empty name, that name is returned whatever the
    protocol client, the conversation or the sender say.  And the name is
    never empty for a JID with a user part. *)
Theorem GetChatName_sticky (c : WAClient) (s : Store) (jid : JID) (chatJID : string)
    (conversation : option Conversation) (sender : string) :
  (∀ r n, wf_store s → r ∈ chats s → chats_jid r = chatJID →
          chats_name r = Some n → n ≠ "" →
          GetChatName c s jid chatJID conversation sender = n)
  ∧ (User jid ≠ "" → GetChatName c s jid chatJID conversation sender ≠ "").
Proof.
  split.
  - intros r n Hwf Hr Hjid Hname Hn. subst chatJID. by apply GetChatName_existing.
  - intros Huser. unfold GetChatName.
    assert (∀ x, String.eqb x "" = false → x ≠ "") as Hneq
      by (intros x; apply String.eqb_neq).
    assert ((if String.eqb (Server jid) "g.us" then
               let name := match conversation with
                           | Some _ => extractConversationName conversation
                           | None => ""
                           end in
               if String.eqb name "" then
                 match GetGroupInfo c jid with
                 | Some n => if negb (String.eqb n "") then n else "Group " +:+ User jid
                 | None => "Group " +:+ User jid
                 end
               else name
             else
               match GetContact c jid with
               | Some n => if negb (String.eqb n "") then n
                           else if negb (String.eqb sender "") then sender else User jid
               | None => if negb (String.eqb sender "") then sender else User jid
               end) ≠ "") as Hfallback.
    { destruct (String.eqb (Server jid) "g.us"); cbn zeta.
      - destruct (String.eqb _ "") eqn:Ec; [|by apply Hneq].
        destruct (GetGroupInfo c jid) as [g|]; [|done].
        destruct (String.eqb g "") eqn:Eg; simpl; [done|by apply Hneq].
      - destruct (GetContact c jid) as [n'|].
        + destruct (String.eqb n' "") eqn:En'; simpl; [|by apply Hneq].
          destruct (String.eqb sender "") eqn:Es; simpl; [done|by apply Hneq].
        + destruct (String.eqb sender "") eqn:Es; simpl; [done|by apply Hneq]. }
    destruct (QueryRow _) as [r|]; [destruct (chats_name r) as [n|]|]; cbn zeta;
      [|done|done].
    destruct (String.eqb n "") eqn:En; simpl; [done|by apply Hneq].
Qed.

Lemma GetChatName_sticky_witness :
  GetChatName
    {| GetGroupInfo := λ _, None; GetContact := λ _, Some "Somebody Else";
       OwnUser := "me"; ParseJID := λ _, inl "unused"; time_Unix := at_second |}
    scenario_bob {| User := "111"; Server := "s.whatsapp.net" |}
    "111@s.whatsapp.net" None "111"
  = "Bob (phone)".
Proof.
  apply (proj1 (GetChatName_sticky _ scenario_bob _ "111@s.whatsapp.net" None "111")
           {| chats_jid := "111@s.whatsapp.net"; chats_name := Some "Bob (phone)";
              chats_last_message_time := None |} "Bob (phone)").
  - split; simpl.
    + apply NoDup_singleton.
    + constructor.
    + intros m Hm. by apply elem_of_nil in Hm.
  - by_compute.
  - reflexivity.
  - reflexivity.
  - discriminate.
Defined.

(** ** Event handlers *)

Lemma chat_exists_StoreChat s jid name t : chat_exists (StoreChat s jid name t).1 jid = true.
Proof.
  unfold chat_exists. apply bool_decide_eq_true. simpl.
  rewrite fmap_app. apply elem_of_app. right. by apply list_elem_of_singleton.
Qed.

Lemma StoreMessage_chats s id chatJID sender content ts me mt fn url k h1 h2 n :
  chats (StoreMessage s id chatJID sender content ts me mt fn url k h1 h2 n).1 = chats s.
Proof.
  unfold StoreMessage. destruct (_ && _); [done|].
  destruct (2 ^ 63 <=? n); [done|]. by destruct (chat_exists s chatJID).
Qed.

Lemma StoreMessage_stored s id chatJID sender content ts me mt fn url k h1 h2 n :
  chat_exists s chatJID = true →
  String.eqb content "" && String.eqb mt "" = false →
  n < 2 ^ 63 →
  StoreMessage s id chatJID sender content ts me mt fn url k h1 h2 n
  = (with_messages s
       (filter (λ m, (messages_id m, messages_chat_jid m) ≠ (id, chatJID)) (messages s)
        ++ [ {| messages_id := id; messages_chat_jid := chatJID;
                messages_sender := sender; messages_content := Some content;
                messages_timestamp := ts; messages_is_from_me := me;
                messages_media_type := Some mt; messages_filename := fn;
                messages_url := url; messages_media_key := k;
                messages_file_sha256 := h1; messages_file_enc_sha256 := h2;
                messages_file_length := n |} ]), None).
Proof.
  intros Hex Hpayload Hn. unfold StoreMessage. rewrite Hpayload, Hex.
  by replace (2 ^ 63 <=? n) with false by (symmetry; apply Z.leb_gt; lia).
Qed.

Lemma StoreMessage_refused s id chatJID sender content ts me mt fn url k h1 h2 n :
  2 ^ 63 ≤ n →
  ∃ e, StoreMessage s id chatJID sender content ts me mt fn url k h1 h2 n = (s, e)
       ∧ (String.eqb content "" && String.eqb mt "" = false → e ≠ None).
Proof.
  intros Hn. unfold StoreMessage.
  replace (2 ^ 63 <=? n) with true by (symmetry; apply Z.leb_le; lia).
  destruct (String.eqb content "" && String.eqb mt ""); by eexists.
Qed.

(** X19: a real-time message always moves its chat to the end of the chat
    table, under the name [GetChatName] gives and with the message's time.
    A message with text or media whose file length is below 2^63 is then
    archived without a foreign-key failure, and [GetMediaInfo] returns for
    it exactly what [extractMediaInfo] read from the event; a message with
    neither, or with a file length of 2^63 or more, leaves the message table
    as it was.  The declared keys survive. *)
Theorem handleMessage_archives (c : WAClient) (stamp : string) (s : Store)
    (msg : MessageEvent) :
  let s' := handleMessage c stamp s msg in
  let content := extractTextContent (ev_Message msg) in
  let media := extractMediaInfo stamp (ev_Message msg) in
  last (chats s')
  = Some {| chats_jid := Info_ChatString msg;
            chats_name := Some (GetChatName c s (Info_Chat msg) (Info_ChatString msg)
                                  None (Info_SenderUser msg));
            chats_last_message_time := Some (Info_Timestamp msg) |}
  ∧ (content = "" ∧ mi_mediaType media = "" → messages s' = messages s)
  ∧ (content ≠ "" ∨ mi_mediaType media ≠ "" → mi_fileLength media < 2 ^ 63 →
     GetMediaInfo s' (Info_ID msg) (Info_ChatString msg) = Ok media
     ∧ ∃ m, last (messages s') = Some m
            ∧ messages_id m = Info_ID msg
            ∧ messages_chat_jid m = Info_ChatString msg
            ∧ messages_sender m = Info_SenderUser msg
            ∧ messages_content m = Some content
            ∧ messages_timestamp m = Info_Timestamp msg
            ∧ messages_is_from_me m = Info_IsFromMe msg)
  ∧ (2 ^ 63 ≤ mi_fileLength media → messages s' = messages s)
  ∧ (wf_store s → wf_store s').
Proof.
  intros s' content media. subst s'. unfold handleMessage.
  fold content. fold media.
  set (name := GetChatName _ _ _ _ _ _).
  set (s1 := (StoreChat s (Info_ChatString msg) name (Info_Timestamp msg)).1).
  assert (chat_exists s1 (Info_ChatString msg) = true) as Hex
    by apply chat_exists_StoreChat.
  assert (last (chats s1)
          = Some {| chats_jid := Info_ChatString msg; chats_name := Some name;
                    chats_last_message_time := Some (Info_Timestamp msg) |}) as Hlast
    by (subst s1; simpl; apply last_snoc).
  destruct (String.eqb content "" && String.eqb (mi_mediaType media) "") eqn:Hempty.
  - apply andb_true_iff in Hempty as [Hc%String.eqb_eq Hm%String.eqb_eq].
    split_and!; [done|done| |done|by apply StoreChat_wf].
    intros [?|?]; congruence.
  - pose proof (StoreMessage_wf s1 (Info_ID msg) (Info_ChatString msg)
                  (Info_SenderUser msg) content (Info_Timestamp msg)
                  (Info_IsFromMe msg) (mi_mediaType media) (mi_filename media)
                  (mi_url media) (mi_mediaKey media) (mi_fileSHA256 media)
                  (mi_fileEncSHA256 media) (mi_fileLength media)) as Hwf.
    pose proof (StoreMessage_chats s1 (Info_ID msg) (Info_ChatString msg)
                  (Info_SenderUser msg) content (Info_Timestamp msg)
                  (Info_IsFromMe msg) (mi_mediaType media) (mi_filename media)
                  (mi_url media) (mi_mediaKey media) (mi_fileSHA256 media)
                  (mi_fileEncSHA256 media) (mi_fileLength media)) as Hchats.
    split_and!.
    + by rewrite Hchats.
    + intros [Hc Hm]. rewrite Hc, Hm in Hempty. done.
    + intros _ Hn. rewrite StoreMessage_stored by done. simpl. split.
      * rewrite GetMediaInfo_by_key. simpl.
        rewrite (filter_key_after_upsert (λ m, (messages_id m, messages_chat_jid m)))
          by done.
        simpl. by destruct media.
      * eexists. split; [apply last_snoc|]. done.
    + intros Hn.
      destruct (StoreMessage_refused s1 (Info_ID msg) (Info_ChatString msg)
                  (Info_SenderUser msg) content (Info_Timestamp msg)
                  (Info_IsFromMe msg) (mi_mediaType media) (mi_filename media)
                  (mi_url media) (mi_mediaKey media) (mi_fileSHA256 media)
                  (mi_fileEncSHA256 media) (mi_fileLength media) Hn) as (e & -> & _).
      done.
    + intros H. by apply Hwf, StoreChat_wf.
Qed.

Lemma handleMessage_archives_witness :
  GetMediaInfo (handleMessage scenario_client "20240101_000000" scenario_bob scenario_event)
    "M1" "111@s.whatsapp.net"
  = Ok no_media.
Proof.
  apply (proj1 (proj1 (proj2 (proj2
           (handleMessage_archives scenario_client "20240101_000000" scenario_bob
              scenario_event))) ltac:(left; discriminate) ltac:(reflexivity))).
Defined.

Lemma store_history_message_step c stamp jid chatJID st msg :
  chat_exists st.1 chatJID = true →
  let st' := store_history_message c stamp jid chatJID st msg in
  st'.2 = st.2 + (if storable stamp msg then 1 else 0)
  ∧ chats st'.1 = chats st.1
  ∧ (wf_store st.1 → wf_store st'.1)
  ∧ (Forall (λ m, has_payload m = true) (messages st.1) →
     Forall (λ m, has_payload m = true) (messages st'.1)).
Proof.
  intros Hex. destruct st as [s n]. cbn [fst] in Hex.
  unfold store_history_message, storable.
  destruct msg as [[m|]|]; cbn [fst snd]; [|by rewrite Z.add_0_r..].
  destruct (String.eqb _ "" && String.eqb _ "") eqn:Hempty; cbn [negb andb fst snd];
    [by rewrite Z.add_0_r|].
  destruct (GetMessageTimestamp m =? 0) eqn:Hts; cbn [negb andb fst snd];
    [by rewrite Z.add_0_r|].
  match goal with
  | |- context [StoreMessage ?s ?a ?b ?c ?d ?e ?f ?g ?h ?i ?j ?k ?l ?o] =>
      pose proof (StoreMessage_wf s a b c d e f g h i j k l o) as Hwf;
      pose proof (StoreMessage_payload s a b c d e f g h i j k l o) as Hpay;
      destruct (Z.ltb_spec o (2 ^ 63)) as [Hn|Hn];
      [ rewrite (StoreMessage_stored s a b c d e f g h i j k l o Hex Hempty Hn) in *
      | destruct (StoreMessage_refused s a b c d e f g h i j k l o Hn)
          as (err & Hrun & Herr); rewrite Hrun in *; specialize (Herr Hempty);
        destruct err as [err|]; [|done] ]
  end.
  - cbn [fst snd] in *. done.
  - cbn [fst snd] in *. by rewrite Z.add_0_r.
Qed.

Lemma store_history_messages_fold c stamp jid chatJID msgs st :
  chat_exists st.1 chatJID = true →
  let st' := foldl (store_history_message c stamp jid chatJID) st msgs in
  st'.2 = st.2 + Z.of_nat (length (filter (λ msg, storable stamp msg = true) msgs))
  ∧ (wf_store st.1 → wf_store st'.1)
  ∧ (Forall (λ m, has_payload m = true) (messages st.1) →
     Forall (λ m, has_payload m = true) (messages st'.1)).
Proof.
  revert st. induction msgs as [|msg msgs IH]; intros st Hex; simpl.
  - split_and!; [lia|done|done].
  - destruct (store_history_message_step c stamp jid chatJID st msg Hex)
      as (Hn & Hchats & Hwf & Hpay).
    destruct (IH (store_history_message c stamp jid chatJID st msg))
      as (Hn' & Hwf' & Hpay').
    { unfold chat_exists in *. by rewrite Hchats. }
    split_and!; [|tauto|tauto].
    rewrite Hn', Hn, filter_cons.
    destruct (storable stamp msg); simpl; lia.
Qed.

Lemma store_conversation_step c stamp st conversation :
  let st' := store_conversation c stamp st conversation in
  st'.2 = st.2 + Z.of_nat (length (storable_messages c stamp [conversation]))
  ∧ (wf_store st.1 → wf_store st'.1)
  ∧ (Forall (λ m, has_payload m = true) (messages st.1) →
     Forall (λ m, has_payload m = true) (messages st'.1)).
Proof.
  unfold storable_messages, store_conversation, taken_up. rewrite filter_cons, filter_nil.
  destruct (conv_ID conversation) as [chatJID|];
    [|rewrite decide_False by done; simpl; split_and!; [lia|done|done]].
  destruct (ParseJID c chatJID) as [err|jid];
    [rewrite decide_False by done; simpl; split_and!; [lia|done|done]|].
  destruct (conv_Messages conversation) as [|[[latest|]|] msgs] eqn:Hmsgs;
    try (rewrite decide_False by done; simpl; split_and!; [lia|done|done]).
  destruct (GetMessageTimestamp latest =? 0) eqn:Hts; simpl negb;
    [rewrite decide_False by done; simpl; split_and!; [lia|done|done]|].
  rewrite decide_True by done. cbn zeta.
  match goal with
  | |- context [foldl ?f (?s1, ?n) ?l] =>
      destruct (store_history_messages_fold c stamp jid chatJID l (s1, n))
        as (Hn & Hwf & Hpay); [apply chat_exists_StoreChat|]
  end.
  cbn [mbind list_bind fst snd] in *. rewrite app_nil_r, Hmsgs.
  split_and!.
  - exact Hn.
  - intros H. by apply Hwf, StoreChat_wf.
  - exact Hpay.
Qed.

(** X20: the count a history sync reports is the number of messages with
    text or media, a timestamp and a file length below 2^63 in the
    conversations it takes up: once the chat row is written no insert of the
    conversation fails on the foreign key, and an insert fails exactly on a
    file length that does not fit a signed 64-bit integer.  The sync keeps
    the declared keys, and it archives no message without text and without
    media. *)
Theorem handleHistorySync_count (c : WAClient) (stamp : string) (s : Store)
    (conversations : list HistoryConversation) :
  let st' := handleHistorySync c stamp s conversations in
  st'.2 = Z.of_nat (length (storable_messages c stamp conversations))
  ∧ (wf_store s → wf_store st'.1)
  ∧ (Forall (λ m, has_payload m = true) (messages s) →
     Forall (λ m, has_payload m = true) (messages st'.1)).
Proof.
  unfold handleHistorySync.
  assert (∀ st,
    let st' := foldl (store_conversation c stamp) st conversations in
    st'.2 = st.2 + Z.of_nat (length (storable_messages c stamp conversations))
    ∧ (wf_store st.1 → wf_store st'.1)
    ∧ (Forall (λ m, has_payload m = true) (messages st.1) →
       Forall (λ m, has_payload m = true) (messages st'.1))) as Hfold.
  { induction conversations as [|conversation conversations IH]; intros st; simpl.
    - split_and!; [unfold storable_messages; simpl; lia|done|done].
    - destruct (store_conversation_step c stamp st conversation) as (Hn & Hwf & Hpay).
      destruct (IH (store_conversation c stamp st conversation)) as (Hn' & Hwf' & Hpay').
      split_and!; [|tauto|tauto].
      rewrite Hn', Hn. unfold storable_messages.
      rewrite (filter_app _ [conversation] conversations), bind_app, length_app.
      lia. }
  exact (Hfold (s, 0)).
Qed.

Lemma handleHistorySync_count_witness :
  wf_store (handleHistorySync scenario_client "20240101_000000" scenario_bob
              scenario_sync).1.
Proof.
  apply (proj1 (proj2 (handleHistorySync_count scenario_client "20240101_000000"
                         scenario_bob scenario_sync))).
  split; simpl.
  - apply NoDup_singleton.
  - constructor.
  - intros m Hm. by apply elem_of_nil in Hm.
Defined.

(** ** Chat actions *)

(** X21: [getLastMessageKey] answers with the current time and no key when
    the chat has no archived message.  Otherwise the key names a message of
    the chat whose stored timestamp text no other message of the chat
    exceeds, the time is the one read back from that message's column (the
    message's own for a year of at most four digits), and the participant is
    given exactly for a message of somebody else with a known sender. *)
Theorem getLastMessageKey_latest (now : Time) (s : Store) (chatJID : string) :
  ((∀ m, m ∈ messages s → messages_chat_jid m ≠ chatJID) →
   getLastMessageKey now s chatJID = (now, None))
  ∧ (∀ m0, m0 ∈ messages s → messages_chat_jid m0 = chatJID →
       ∃ m, m ∈ messages s ∧ messages_chat_jid m = chatJID
            ∧ (∀ m', m' ∈ messages s → messages_chat_jid m' = chatJID →
                     String.leb (SQLiteTimestamp (messages_timestamp m'))
                                (SQLiteTimestamp (messages_timestamp m)) = true)
            ∧ getLastMessageKey now s chatJID
              = (column_time (messages_timestamp m),
                 Some {| key_RemoteJID := Some chatJID;
                         key_FromMe := Some (messages_is_from_me m);
                         key_ID := Some (messages_id m);
                         key_Participant :=
                           if messages_is_from_me m then None
                           else if String.eqb (messages_sender m) "" then None
                                else Some (messages_sender m) |})
            ∧ (0 ≤ Year (messages_timestamp m) ≤ 9999 →
               (getLastMessageKey now s chatJID).1 = messages_timestamp m)).
Proof.
  unfold getLastMessageKey. rewrite head_limit_one.
  set (L := filter (λ m, messages_chat_jid m = chatJID) (messages s)).
  assert (∀ x y, message_time_desc x y = true ∨ message_time_desc y x = true) as Htotal
    by (intros x y; apply String.leb_total).
  assert (∀ x y z, message_time_desc x y = true → message_time_desc y z = true →
                   message_time_desc x z = true) as Htrans
    by (intros x y z Hxy Hyz; unfold message_time_desc in *; by eapply string_leb_trans).
  destruct (head (order_by message_time_desc L)) as [m|] eqn:Hhd.
  - assert (m ∈ L) as Hm
      by by apply (elem_of_order_by message_time_desc), head_Some_elem_of.
    apply list_elem_of_filter in Hm as [Hchat Hm]. split.
    + intros Hnone. by destruct (Hnone m Hm).
    + intros _ _ _. exists m. split_and!; [done|done| | |].
      * intros m' Hm' Hchat'.
        apply (head_order_by_first message_time_desc L m m' Htotal Htrans Hhd).
        by apply list_elem_of_filter.
      * by destruct (messages_is_from_me m), (String.eqb (messages_sender m) "").
      * intros Hy. cbn [fst]. by apply column_time_in_range.
  - split; [done|]. intros m0 Hm0 Hchat. exfalso.
    assert (m0 ∈ order_by message_time_desc L) as Hin
      by by apply elem_of_order_by, list_elem_of_filter.
    destruct (order_by message_time_desc L); [by apply elem_of_nil in Hin|done].
Qed.

Lemma getLastMessageKey_latest_witness :
  ∃ m, m ∈ messages scenario_thread
       ∧ (getLastMessageKey (at_second 0) scenario_thread "c@s.whatsapp.net").1
         = column_time (messages_timestamp m).
Proof.
  destruct (proj2 (getLastMessageKey_latest (at_second 0) scenario_thread
                     "c@s.whatsapp.net")
              {| messages_id := "m2"; messages_chat_jid := "c@s.whatsapp.net";
                 messages_sender := "a"; messages_content := Some "two";
                 messages_timestamp := at_second 2; messages_is_from_me := false;
                 messages_media_type := Some ""; messages_filename := "";
                 messages_url := ""; messages_media_key := [];
                 messages_file_sha256 := []; messages_file_enc_sha256 := [];
                 messages_file_length := 0 |}
              ltac:(by_compute) eq_refl)
    as (m & Hm & _ & _ & Hkey & _).
  exists m. split; [exact Hm|]. by rewrite Hkey.
Defined.

Lemma filter_other_key {A K} `{EqDecision K} (key : A → K) (k k' : K) (l : list A) :
  k' ≠ k →
  filter (λ x, key x = k') (filter (λ x, key x ≠ k) l) = filter (λ x, key x = k') l.
Proof.
  intros Hne. rewrite list_filter_filter. apply list_filter_iff.
  intros x. split; [tauto|]. intros ->. done.
Qed.

Lemma filter_key_removed {A K} `{EqDecision K} (key : A → K) (k : K) (l : list A) :
  filter (λ x, key x = k) (filter (λ x, key x ≠ k) l) = [].
Proof.
  rewrite list_filter_filter. induction l as [|a l IH]; [done|].
  rewrite filter_cons, decide_False by tauto. done.
Qed.

(** X22: [DeleteChat] touches the archive only when it reports success.
    After a success the chat is gone ([GetChat] finds nothing, and there
    is no last message key), every other chat keeps its last message key
    and its media records, and the declared keys still hold. *)
Theorem DeleteChat_local_cleanup (c : WAClient) (connected : bool)
    (sent : option string) (s : Store) (chatJID : string) :
  let r := DeleteChat c connected sent s chatJID in
  (r.2.1 = false → r.1 = s)
  ∧ (r.2.1 = true →
     GetChat r.1 chatJID true = Ok None
     ∧ (∀ now, getLastMessageKey now r.1 chatJID = (now, None))
     ∧ (∀ now jid, jid ≠ chatJID →
          getLastMessageKey now r.1 jid = getLastMessageKey now s jid)
     ∧ (∀ id jid, jid ≠ chatJID → GetMediaInfo r.1 id jid = GetMediaInfo s id jid)
     ∧ (wf_store s → wf_store r.1)).
Proof.
  unfold DeleteChat.
  destruct connected; simpl; [|done].
  destruct (ParseJID c chatJID) as [err|jid]; simpl; [done|].
  destruct sent as [err|]; simpl; [done|].
  split; [done|]. intros _. split_and!.
  - apply GetChat_missing. simpl.
    intros (r & Hr & [Hne _]%list_elem_of_filter)%list_elem_of_fmap. done.
  - intros now. unfold getLastMessageKey. simpl.
    by rewrite (filter_key_removed messages_chat_jid).
  - intros now jid' Hne. unfold getLastMessageKey. simpl.
    by rewrite (filter_other_key messages_chat_jid).
  - intros id jid' Hne. rewrite !GetMediaInfo_by_key. simpl.
    replace (filter (λ m, (messages_id m, messages_chat_jid m) = (id, jid'))
               (filter (λ m, messages_chat_jid m ≠ chatJID) (messages s)))
      with (filter (λ m, (messages_id m, messages_chat_jid m) = (id, jid')) (messages s));
      [done|].
    rewrite list_filter_filter. apply list_filter_iff.
    intros m. split; [|tauto]. intros Hk. split; [done|]. congruence.
  - intros [Hc Hm Hf]. split; simpl.
    + eapply sublist_NoDup; [exact Hc|]. apply fmap_sublist, sublist_filter.
    + eapply sublist_NoDup; [exact Hm|]. apply fmap_sublist, sublist_filter.
    + intros m [Hne Hin]%list_elem_of_filter.
      apply Hf in Hin as (r & Hr & Hin)%list_elem_of_fmap.
      apply list_elem_of_fmap. exists r. split; [done|].
      apply list_elem_of_filter. split; [congruence|done].
Qed.

Lemma DeleteChat_local_cleanup_witness :
  GetChat (DeleteChat scenario_client true None scenario_bob "111@s.whatsapp.net").1
    "111@s.whatsapp.net" true
  = Ok None.
Proof.
  apply (proj1 (proj2 (DeleteChat_local_cleanup scenario_client true None scenario_bob
                         "111@s.whatsapp.net") eq_refl)).
Defined.

(** ** Message payloads *)

(** X23: [extractMediaInfo] reports a media type exactly for a message with
    an image, video, audio or document part, the first of these in that
    order deciding the type; and with a media type there is always a file
    name. *)
Theorem extractMediaInfo_media_type (stamp : string) (msg : option ProtoMessage) :
  let media := extractMediaInfo stamp msg in
  (mi_mediaType media = ""
   ↔ ∀ m, msg = Some m →
          GetImageMessage m = None ∧ GetVideoMessage m = None
          ∧ GetAudioMessage m = None ∧ GetDocumentMessage m = None)
  ∧ (mi_mediaType media ≠ "" → mi_filename media ≠ "")
  ∧ (∀ m, msg = Some m →
       mi_mediaType media
       = match GetImageMessage m, GetVideoMessage m, GetAudioMessage m,
               GetDocumentMessage m with
         | Some _, _, _, _ => "image"
         | None, Some _, _, _ => "video"
         | None, None, Some _, _ => "audio"
         | None, None, None, Some _ => "document"
         | None, None, None, None => ""
         end).
Proof.
  destruct msg as [m|]; simpl.
  - destruct (GetImageMessage m) as [img|] eqn:E1,
             (GetVideoMessage m) as [vid|] eqn:E2,
             (GetAudioMessage m) as [aud|] eqn:E3,
             (GetDocumentMessage m) as [[fn doc]|] eqn:E4; simpl;
      (split_and!;
       [ split;
         [ try discriminate; by intros _ m' [= <-]
         | intros H; destruct (H m eq_refl) as (? & ? & ? & ?); congruence ]
       | first [ done
               | intros _; destruct (String.eqb fn "") eqn:Efn;
                 [discriminate|by apply String.eqb_neq] ]
       | intros m' [= <-]; by rewrite E1, ?E2, ?E3, ?E4 ]).
  - split_and!; [|done|done]. split; [|done]. by intros _ m [=].
Qed.

Lemma extractMediaInfo_media_type_witness :
  mi_filename
    (extractMediaInfo "20240101_000000"
       (Some {| GetConversation := ""; GetExtendedTextMessage := None;
                GetImageMessage := None; GetVideoMessage := None;
                GetAudioMessage := None;
                GetDocumentMessage :=
                  Some ("", {| GetURL := "https://mmg.whatsapp.net/d/f/x.enc";
                               GetMediaKey := []; GetFileSHA256 := [];
                               GetFileEncSHA256 := []; GetFileLength := 12 |}) |}))
  ≠ "".
Proof.
  apply (proj1 (proj2 (extractMediaInfo_media_type "20240101_000000" _))).
  simpl. discriminate.
Defined.

(** ** Chat names under ingestion *)

Lemma names_kept_refl s : names_kept s s.
Proof. intros r n Hr Hn _. by exists r. Qed.

Lemma names_kept_chats s s1 s2 : chats s1 = chats s2 → names_kept s s1 → names_kept s s2.
Proof. unfold names_kept. intros Heq. by rewrite Heq. Qed.

Lemma names_kept_trans s1 s2 s3 : names_kept s1 s2 → names_kept s2 s3 → names_kept s1 s3.
Proof.
  intros H12 H23 r n Hr Hname Hn.
  destruct (H12 r n Hr Hname Hn) as (r' & Hr' & Hjid & Hname').
  destruct (H23 r' n Hr' Hname' Hn) as (r'' & Hr'' & Hjid' & Hname'').
  exists r''. split_and!; [done|congruence|done].
Qed.

Lemma names_kept_StoreChat c s jid chatJID conversation sender t :
  wf_store s →
  names_kept s (StoreChat s chatJID (GetChatName c s jid chatJID conversation sender) t).1.
Proof.
  intros Hwf r n Hr Hname Hn. simpl.
  destruct (decide (chats_jid r = chatJID)) as [<-|Hne].
  - eexists. split; [apply elem_of_app; right; by apply list_elem_of_singleton|].
    simpl. split; [done|]. f_equal. by apply GetChatName_existing.
  - exists r. split; [|done]. apply elem_of_app. left. by apply list_elem_of_filter.
Qed.

Lemma store_history_messages_chats c stamp jid chatJID msgs st :
  chat_exists st.1 chatJID = true →
  chats (foldl (store_history_message c stamp jid chatJID) st msgs).1 = chats st.1.
Proof.
  revert st. induction msgs as [|msg msgs IH]; intros st Hex; [done|]. simpl.
  destruct (store_history_message_step c stamp jid chatJID st msg Hex)
    as (_ & Hchats & _).
  rewrite IH; [done|]. unfold chat_exists in *. by rewrite Hchats.
Qed.

Lemma names_kept_store_conversation c stamp st conversation :
  wf_store st.1 → names_kept st.1 (store_conversation c stamp st conversation).1.
Proof.
  intros Hwf. unfold store_conversation.
  destruct (conv_ID conversation) as [chatJID|]; [|apply names_kept_refl].
  destruct (ParseJID c chatJID) as [err|jid]; [apply names_kept_refl|].
  destruct (conv_Messages conversation) as [|[[latest|]|] msgs];
    try apply names_kept_refl.
  destruct (GetMessageTimestamp latest =? 0); [apply names_kept_refl|]. cbn zeta.
  match goal with
  | |- context [foldl ?f (?s1, ?n) ?l] =>
      pose proof (store_history_messages_chats c stamp jid chatJID l (s1, n)
                    (chat_exists_StoreChat _ _ _ _)) as Hchats
  end.
  eapply names_kept_chats; [symmetry; exact Hchats|].
  by apply names_kept_StoreChat.
Qed.

(** X24: the event handlers never rename a chat: a chat that carries a
    non-empty name keeps its row key and that name through a real-time
    message and through a history sync, whatever names the events and the
    protocol client offer. *)
Theorem event_handlers_keep_chat_names (c : WAClient) (stamp : string) (s : Store) :
  wf_store s →
  (∀ msg, names_kept s (handleMessage c stamp s msg))
  ∧ (∀ conversations, names_kept s (handleHistorySync c stamp s conversations).1).
Proof.
  intros Hwf. split.
  - intros msg. unfold handleMessage.
    destruct (_ && _); [by apply names_kept_StoreChat|].
    eapply names_kept_chats; [|by apply names_kept_StoreChat].
    symmetry. apply StoreMessage_chats.
  - intros conversations. unfold handleHistorySync.
    assert (∀ st, wf_store st.1 →
              names_kept st.1 (foldl (store_conversation c stamp) st conversations).1)
      as Hfold.
    { induction conversations as [|conversation conversations IH]; intros st Hst.
      - apply names_kept_refl.
      - simpl. eapply names_kept_trans; [by apply names_kept_store_conversation|].
        apply IH. by apply store_conversation_step. }
    by apply (Hfold (s, 0)).
Qed.

Lemma event_handlers_keep_chat_names_witness :
  names_kept scenario_bob
    (handleMessage scenario_client "20240101_000000" scenario_bob scenario_event).
Proof.
  apply (proj1 (event_handlers_keep_chat_names scenario_client "20240101_000000"
                  scenario_bob ltac:(split; simpl;
                    [apply NoDup_singleton|constructor|
                     intros m Hm; by apply elem_of_nil in Hm]))).
Defined.
